(** * svg-cardmaker: card layout ([generate_cards.py]) and sheet packing
    ([collect_and_print.py]) as a shallow embedding.

    Python values are modelled as the code has them: a [str] is a sequence
    of Unicode code points, an [int] is a [Z], a [dict] is a finite map, a
    tuple is a constructor of the theme's value type, a raised exception is
    an error result. *)

From Stdlib Require Import ZArith Ascii String Floats.
From stdpp Require Import gmap strings list sorting.

Open Scope Z_scope.

(** ** Python strings *)

(** A Python [str]: the list of its code points. *)
Abbreviation char := N.
Abbreviation pystr := (list N).

(** An ASCII literal of the source as a [str]. *)
Definition py (s : string) : pystr :=
  (fun a => N_of_ascii a) <$> list_ascii_of_string s.

(** The built-ins that rest on the Unicode database: [str.lower], [int] of
    a string ([None] where it raises [ValueError]), and the classes behind
    [\w] and [\d] in the regular expressions of [textwrap]. The one fact
    of the database the proofs use: the hyphen-minus is not alphanumeric. *)
Class UnicodeTables := {
  str_lower : pystr -> pystr;
  int_of_str : pystr -> option Z;
  uni_isalnum : char -> bool;
  uni_isdecimal : char -> bool;
  uni_isalnum_hyphen : uni_isalnum 45%N = false
}.

(** [str.isspace] of one character: bidirectional class WS, B or S, or
    category Zs. *)
Definition isspace (c : char) : bool :=
  ((9 <=? c) && (c <=? 13) || (28 <=? c) && (c <=? 32) || (c =? 133)
   || (c =? 160) || (c =? 5760) || (8192 <=? c) && (c <=? 8202)
   || (c =? 8232) || (c =? 8233) || (c =? 8239) || (c =? 8287)
   || (c =? 12288))%N.

Fixpoint lstrip (s : pystr) : pystr :=
  match s with
  | c :: s' => if isspace c then lstrip s' else s
  | [] => []
  end.

Definition rstrip (s : pystr) : pystr := reverse (lstrip (reverse s)).

(** [s.strip()] *)
Definition strip (s : pystr) : pystr := rstrip (lstrip s).

(** [s.replace(old, new)] for a one-character [old]. *)
Definition replace_char (old : char) (new : pystr) (s : pystr) : pystr :=
  s ≫= (fun c => if (c =? old)%N then new else [c]).

(** [s.split(sep)] for a one-character [sep]: never the empty list. *)
Fixpoint split_on (sep : char) (s : pystr) : list pystr :=
  match s with
  | [] => [[]]
  | c :: s' =>
      if (c =? sep)%N then [] :: split_on sep s'
      else match split_on sep s' with
           | p :: ps => (c :: p) :: ps
           | [] => [[c]]
           end
  end.

(** [sep.join(parts)] *)
Fixpoint join (sep : pystr) (parts : list pystr) : pystr :=
  match parts with
  | [] => []
  | [p] => p
  | p :: ps => p ++ sep ++ join sep ps
  end.

(** [s.endswith(suffix)] *)
Definition endswith (s suffix : pystr) : bool :=
  bool_decide (drop (length s - length suffix)%nat s = suffix).

Fixpoint digits_of (fuel : nat) (n : N) (acc : pystr) : pystr :=
  match fuel with
  | O => acc
  | S fuel' =>
      let acc' := (48 + n mod 10)%N :: acc in
      if (n / 10 =? 0)%N then acc' else digits_of fuel' (n / 10)%N acc'
  end.

(** [str(n)] of an [int], as an f-string formats it. *)
Definition str_of_Z (z : Z) : pystr :=
  match z with
  | Z0 => py "0"
  | Zpos p => digits_of (N.size_nat (Npos p)) (Npos p) []
  | Zneg p => 45%N :: digits_of (N.size_nat (Npos p)) (Npos p) []
  end.

(** ** Themes ([generate_cards.py]) *)

(** The values a theme holds: a colour or font string, the canvas size, a
    text anchor [(x, y, font_size)], a rectangle [(x, y, w, h)]. *)
Inductive value :=
| VStr (s : pystr)
| VPair (a b : Z)
| VTriple (x y fs : Z)
| VRect (x y w h : Z).

(** The dictionary literal of [get_theme], with its local variables. *)
Definition default_theme : gmap string value :=
  let card_width := 744 in
  let card_height := 1039 in
  let outer_padding := 12 in
  let inner_padding := outer_padding + 6 in
  let inner_width := card_width - 2 * inner_padding in
  let title_h := 52 in
  let art_y := inner_padding + title_h + 6 in
  let art_h := 430 in
  let type_y := art_y + art_h + 6 in
  let type_h := 52 in
  let rules_y := type_y + type_h + 6 in
  let rules_h := 360 in
  let opt_y := rules_y + rules_h + 6 in
  let opt_h := 52 in
  list_to_map [
    ("frame_bg", VStr (py "#1b1b1b"));
    ("frame_inner", VStr (py "#B0B0B0"));
    ("frame_border", VStr (py "#121212"));
    ("title_bg", VStr (py "#e9e3d9"));
    ("title_fg", VStr (py "#111"));
    ("art_bg", VStr (py "#ddd"));
    ("type_bg", VStr (py "#ece7de"));
    ("type_fg", VStr (py "#222"));
    ("rules_bg", VStr (py "#f6f2ea"));
    ("rules_fg", VStr (py "#222"));
    ("flavor_fg", VStr (py "#555"));
    ("footer_fg", VStr (py "#444"));
    ("pt_bg", VStr (py "#e9e3d9"));
    ("pt_fg", VStr (py "#111"));
    ("font_serif", VStr (py "Georgia, 'Times New Roman', serif"));
    ("font_sans", VStr (py "Inter, Arial, sans-serif"));
    ("card_sz", VPair card_width card_height);
    ("inner_rec", VRect outer_padding outer_padding
                    (card_width - 2 * outer_padding)
                    (card_height - 2 * outer_padding));
    ("title_rec", VRect inner_padding inner_padding inner_width title_h);
    ("title_txt_rec",
       VTriple (inner_padding + 18) (inner_padding + title_h - 16) 32);
    ("title_rarity_rec",
       VTriple (card_width - 2 * inner_padding - 18)
               (inner_padding + title_h - 16) 24);
    ("art_rec", VRect inner_padding art_y inner_width art_h);
    ("type_rec", VRect inner_padding type_y inner_width type_h);
    ("type_txt_rec", VTriple (inner_padding + 18) (type_y + type_h - 18) 24);
    ("rules_rec", VRect inner_padding rules_y inner_width rules_h);
    ("rules_txt_rec", VTriple (inner_padding + 18) (rules_y + 6 + 24) 24);
    ("flavor_txt_rec",
       VTriple (inner_padding + 18) (rules_y + rules_h - 48) 24);
    ("footer_txt_rec_l",
       VTriple (inner_padding + 11) (card_height - inner_padding - 6) 11);
    ("footer_txt_rec_r",
       VTriple (card_width - 2 * inner_padding - 11)
               (card_height - inner_padding - 6) 11);
    ("opt_box", VRect (inner_padding + inner_width) opt_y 150 54);
    ("opt_txt_rec",
       VTriple (inner_padding + inner_width - 75) (opt_y + opt_h - 16) 24)
  ].

Definition rarity_colors : gmap pystr pystr :=
  list_to_map [
    (py "Common", py "#B0B0B0");
    (py "Uncommon", py "#81AD82");
    (py "Rare", py "#B8D8F1");
    (py "Very Rare", py "#F1DAB6");
    (py "Legendary", py "#CF9F9F");
    (py "Quest", py "#E9E3B5")
  ].

(** [get_theme(name, rarity)]: [theme.update(name)] lets the override map
    win key by key; a rarity of the palette then sets ["frame_inner"]. *)
Definition get_theme (name : gmap string value) (rarity : pystr)
  : gmap string value :=
  let theme := default_theme in
  let theme := name ∪ theme in
  match rarity_colors !! rarity with
  | Some colour => <["frame_inner" := VStr colour]> theme
  | None => theme
  end.

(** *** Region geometry *)

Definition rect : Type := Z * Z * Z * Z.

(** Two rectangles [(x, y, w, h)] share a point of positive area. *)
Definition overlaps (r1 r2 : rect) : Prop :=
  let '(x1, y1, w1, h1) := r1 in
  let '(x2, y2, w2, h2) := r2 in
  x1 < x2 + w2 /\ x2 < x1 + w1 /\ y1 < y2 + h2 /\ y2 < y1 + h1.

(** [inner] lies inside [outer]. *)
Definition inside (inner outer : rect) : Prop :=
  let '(x1, y1, w1, h1) := inner in
  let '(x2, y2, w2, h2) := outer in
  x2 <= x1 /\ y2 <= y1 /\ x1 + w1 <= x2 + w2 /\ y1 + h1 <= y2 + h2.

(** The rectangle stored under a key of the theme. *)
Definition region (theme : gmap string value) (key : string) : option rect :=
  match theme !! key with
  | Some (VRect x y w h) => Some (x, y, w, h)
  | _ => None
  end.

(** The canvas as a rectangle at the origin. *)
Definition canvas (theme : gmap string value) : option rect :=
  match theme !! "card_sz" with
  | Some (VPair w h) => Some (0, 0, w, h)
  | _ => None
  end.

Definition region_keys : list string :=
  ["inner_rec"; "title_rec"; "art_rec"; "type_rec"; "rules_rec"; "opt_box"].

(** The six named rectangles of a theme are pairwise disjoint and inside
    the canvas. *)
Definition regions_disjoint_in_canvas (theme : gmap string value) : Prop :=
  (forall k1 k2 r1 r2,
      k1 ∈ region_keys -> k2 ∈ region_keys -> k1 <> k2 ->
      region theme k1 = Some r1 -> region theme k2 = Some r2 ->
      ~ overlaps r1 r2) /\
  (forall k r c,
      k ∈ region_keys -> region theme k = Some r -> canvas theme = Some c ->
      inside r c).

(** The box [build_optional_str] draws for the [n]-th emitted badge: the
    ["opt_box"] tuple holds the right edge, the rectangle starts at
    [x - w], and each badge moves [x] left by [w + 6]. *)
Definition badge_box (theme : gmap string value) (n : Z) : option rect :=
  match theme !! "opt_box" with
  | Some (VRect x y w h) => Some (x - n * (w + 6) - w, y, w, h)
  | _ => None
  end.

(** The keys whose values are the geometry of the regions. *)
Definition geometry_keys : list string :=
  "card_sz" :: region_keys.

(** The band rectangles of a theme, top to bottom, then the boxes of up to
    three badges, right to left. *)
Definition band_rects (theme : gmap string value) : list (option rect) :=
  [ region theme "title_rec"; region theme "art_rec";
    region theme "type_rec"; region theme "rules_rec";
    badge_box theme 0; badge_box theme 1; badge_box theme 2 ].

(** ** Exceptions *)

Inductive exn :=
| KeyError (key : string)
| ValueError
| OverflowError
| IndexError
| FileNotFoundError (base : pystr)
| EnvironmentError
| RuntimeError (svg : pystr)
| SystemExit.

(** The outcome of a call that may raise. *)
Inductive result (A : Type) :=
| Ok (a : A)
| Raise (e : exn).
Arguments Ok {A} a.
Arguments Raise {A} e.

#[export] Instance result_ret : MRet result := fun A a => Ok a.
#[export] Instance result_bind : MBind result := fun A B f m =>
  match m with
  | Ok a => f a
  | Raise e => Raise e
  end.
#[export] Instance result_fmap : FMap result := fun A B f m =>
  match m with
  | Ok a => Ok (f a)
  | Raise e => Raise e
  end.

(** [mapM] over a list, left to right, stopping at the first exception. *)
Fixpoint result_list {A B} (f : A -> result B) (l : list A) : result (list B) :=
  match l with
  | [] => Ok []
  | a :: l' => b ← f a; bs ← result_list f l'; Ok (b :: bs)
  end.

(** ** f-strings *)

(** A literal of an f-string, written with a backquote where the source
    has a double quote. *)
Definition fstr (s : string) : pystr :=
  (fun c => if (c =? 96)%N then 34%N else c) <$> py s.

(** What an f-string prints for a theme value. *)
Definition fmt_value (v : value) : pystr :=
  match v with
  | VStr s => s
  | VPair a b => py "(" ++ str_of_Z a ++ py ", " ++ str_of_Z b ++ py ")"
  | VTriple a b c =>
      py "(" ++ str_of_Z a ++ py ", " ++ str_of_Z b ++ py ", "
         ++ str_of_Z c ++ py ")"
  | VRect a b c d =>
      py "(" ++ str_of_Z a ++ py ", " ++ str_of_Z b ++ py ", "
         ++ str_of_Z c ++ py ", " ++ str_of_Z d ++ py ")"
  end.

(** [theme[key]] *)
Definition theme_get (theme : gmap string value) (key : string)
  : result value :=
  match theme !! key with
  | Some v => Ok v
  | None => Raise (KeyError key)
  end.

(** [(a, b) = v], [(x, y, fs) = v] and [(x, y, w, h) = v]: a value of
    another shape does not unpack. The components are integers, so a
    string at a geometry key is covered as far as it has another length
    than the tuple: Python unpacks a string of just that length into its
    characters, which these integer tuples do not hold. *)
Definition unpack2 (v : value) : result (Z * Z) :=
  match v with VPair a b => Ok (a, b) | _ => Raise ValueError end.
Definition unpack3 (v : value) : result (Z * Z * Z) :=
  match v with VTriple x y fs => Ok (x, y, fs) | _ => Raise ValueError end.
Definition unpack4 (v : value) : result (Z * Z * Z * Z) :=
  match v with VRect x y w h => Ok (x, y, w, h) | _ => Raise ValueError end.

(** [{theme["key"]}] inside an f-string. *)
Definition fmt (theme : gmap string value) (key : string) : result pystr :=
  fmt_value <$> theme_get theme key.

(** ** [textwrap.wrap(para, width=w, break_long_words=False)]

    The standard library's [TextWrapper] with the options the call leaves
    at their defaults: tabs expanded, whitespace replaced and dropped,
    breaks after hyphens, long words kept whole. *)

Section textwrap.
Context `{UnicodeTables}.

(** [textwrap._whitespace]: tab, newline, vertical tab, form feed,
    carriage return, space. *)
Definition tw_whitespace (c : char) : bool :=
  ((c =? 9) || (c =? 10) || (c =? 11) || (c =? 12) || (c =? 13)
   || (c =? 32))%N.

(** [str.expandtabs(8)]: the column restarts after a newline or a carriage
    return. *)
Fixpoint expandtabs (col : nat) (s : pystr) : pystr :=
  match s with
  | [] => []
  | c :: s' =>
      if (c =? 9)%N then
        let incr := (8 - col mod 8)%nat in
        replicate incr 32%N ++ expandtabs (col + incr) s'
      else
        c :: expandtabs (if ((c =? 10) || (c =? 13))%N then O else S col) s'
  end.

(** [_munge_whitespace] of a piece of text that starts at a column. *)
Definition munge_from (col : nat) (s : pystr) : pystr :=
  (fun c => if tw_whitespace c then 32%N else c) <$> expandtabs col s.

(** [TextWrapper._munge_whitespace] *)
Definition munge_whitespace (text : pystr) : pystr :=
  (fun c => if tw_whitespace c then 32%N else c) <$> expandtabs 0 text.

(** The character classes of [wordsep_re]: [\w], [letter = [^\d\W]] and
    [word_punct]. *)
Definition re_w (c : char) : bool := uni_isalnum c || (c =? 95)%N.
Definition re_letter (c : char) : bool := re_w c && negb (uni_isdecimal c).
Definition re_word_punct (c : char) : bool :=
  re_w c || ((c =? 33) || (c =? 34) || (c =? 39) || (c =? 38) || (c =? 46)
             || (c =? 44) || (c =? 63))%N.

(** The length of the longest prefix whose characters satisfy [p]. *)
Fixpoint count_while (p : char -> bool) (s : pystr) : nat :=
  match s with
  | c :: s' => if p c then S (count_while p s') else O
  | [] => O
  end.

Definition is_hyphen (c : char) : bool := (c =? 45)%N.

Definition count_hyphens (s : pystr) : nat := count_while is_hyphen s.

(** Lookahead [(?=-{2,}\w)]. *)
Definition dashes_then_word (rest : pystr) : bool :=
  let h := count_hyphens rest in
  (2 <=? h)%nat &&
  match drop h rest with
  | c :: _ => re_w c
  | [] => false
  end.

(** Lookahead [(?= letter -? letter)]. *)
Definition letters_ahead (rest : pystr) : bool :=
  match rest with
  | l :: c :: r =>
      re_letter l &&
      ((c =? 45)%N && match r with l' :: _ => re_letter l' | [] => false end
       || re_letter c)
  | _ => false
  end.

(** Lookbehinds [(?<=letter{2}-)] and [(?<=letter-letter-)], on the
    characters before the hyphen, nearest first. *)
Definition letters_behind (before : pystr) : bool :=
  match before with
  | l1 :: l2 :: r =>
      re_letter l1 &&
      (re_letter l2
       || (l2 =? 45)%N && match r with l3 :: _ => re_letter l3 | [] => false end)
  | _ => false
  end.

(** Lookbehind [(?<=word_punct)]. *)
Definition punct_behind (before : pystr) : bool :=
  match before with
  | p :: _ => re_word_punct p
  | [] => false
  end.

(** The third alternative of [wordsep_re] after its first character: the
    lazy [nowhitespace+?] grows one character at a time until a hyphen
    break (which takes the hyphen), the end of the word, or an em-dash
    ahead. [before] holds the characters already passed, nearest first. *)
Fixpoint word_more (before rest : pystr) : nat :=
  match rest with
  | [] => O
  | c :: rest' =>
      if is_hyphen c && letters_behind before && letters_ahead rest' then 1%nat
      else if tw_whitespace c then O
      else if punct_behind before && dashes_then_word rest then O
      else S (word_more (c :: before) rest')
  end.

(** The length of the match of [wordsep_re] at the head of [rest]:
    whitespace, an em-dash between words, or a word. *)
Definition chunk_len (before rest : pystr) : nat :=
  match rest with
  | [] => O
  | c :: rest' =>
      if tw_whitespace c then count_while tw_whitespace rest
      else if punct_behind before && dashes_then_word rest
           then count_hyphens rest
      else S (word_more (c :: before) rest')
  end.

Fixpoint split_go (fuel : nat) (before rest : pystr) : list pystr :=
  match fuel with
  | O => []
  | S fuel' =>
      match rest with
      | [] => []
      | _ =>
          let n := chunk_len before rest in
          take n rest
            :: split_go fuel' (reverse (take n rest) ++ before) (drop n rest)
      end
  end.

(** [TextWrapper._split]: the non-empty pieces of [wordsep_re.split]. *)
Definition tw_split (text : pystr) : list pystr :=
  split_go (length text) [] text.

(** [chunk.strip() == ''] *)
Definition blank (s : pystr) : bool := bool_decide (strip s = []).

(** The inner loop of [_wrap_chunks]: chunks that still fit the line. *)
Fixpoint fill_line (width cur_len : Z) (chunks : list pystr)
  : list pystr * list pystr :=
  match chunks with
  | [] => ([], [])
  | c :: chunks' =>
      let l := Z.of_nat (length c) in
      if cur_len + l <=? width then
        let '(line, rest) := fill_line width (cur_len + l) chunks' in
        (c :: line, rest)
      else ([], chunks)
  end.

(** [_handle_long_word] with [break_long_words=False]: a chunk wider than
    the line is taken whole, and only onto an empty line. *)
Definition handle_long_word (cur_line chunks : list pystr)
  : list pystr * list pystr :=
  match cur_line, chunks with
  | [], c :: chunks' => ([c], chunks')
  | _, _ => (cur_line, chunks)
  end.

(** [del cur_line[-1]] when the last chunk of the line is blank. *)
Definition drop_trailing_blank (cur_line : list pystr) : list pystr :=
  match last cur_line with
  | Some c => if blank c then removelast cur_line else cur_line
  | None => cur_line
  end.

(** One turn of the outer loop of [_wrap_chunks]: the chunks of the line
    and the chunks left. [started] tells that [lines] is no longer empty. *)
Definition line_step (width : Z) (started : bool) (chunks : list pystr)
  : list pystr * list pystr :=
  let chunks :=
    match chunks with
    | c0 :: tl => if blank c0 && started then tl else chunks
    | [] => []
    end in
  let '(cur_line, chunks) := fill_line width 0 chunks in
  let '(cur_line, chunks) :=
    match chunks with
    | c :: _ =>
        if width <? Z.of_nat (length c)
        then handle_long_word cur_line chunks
        else (cur_line, chunks)
    | [] => (cur_line, chunks)
    end in
  (drop_trailing_blank cur_line, chunks).

(** The outer loop of [_wrap_chunks]: a turn that leaves no chunk on the
    line appends nothing. *)
Fixpoint wrap_loop (fuel : nat) (width : Z) (started : bool)
  (chunks : list pystr) : list pystr :=
  match fuel with
  | O => []
  | S fuel' =>
      match chunks with
      | [] => []
      | _ =>
          let '(cur_line, rest) := line_step width started chunks in
          match cur_line with
          | [] => wrap_loop fuel' width started rest
          | _ => concat cur_line :: wrap_loop fuel' width true rest
          end
      end
  end.

(** [TextWrapper._wrap_chunks] *)
Definition wrap_chunks (width : Z) (chunks : list pystr)
  : result (list pystr) :=
  if width <=? 0 then Raise ValueError
  else Ok (wrap_loop (length chunks) width false chunks).

(** [textwrap.wrap(text, width=width, break_long_words=False)] *)
Definition textwrap_wrap (text : pystr) (width : Z) : result (list pystr) :=
  wrap_chunks width (tw_split (munge_whitespace text)).

(** *** Vocabulary for the chunks of [_split] *)

Definition nonws (c : char) : bool := negb (tw_whitespace c).

(** A chunk that starts with whitespace: a whitespace chunk. *)
Definition ws_chunk (c : pystr) : bool :=
  match c with
  | x :: _ => tw_whitespace x
  | [] => false
  end.

(** A match of [wordsep_re] in some context. *)
Definition is_chunk (c : pystr) : Prop :=
  exists before rest, rest <> [] /\ c = take (chunk_len before rest) rest.

(** No two neighbours are both whitespace chunks. *)
Fixpoint separated (chunks : list pystr) : Prop :=
  match chunks with
  | a :: (b :: _) as chunks' =>
      ~ (ws_chunk a = true /\ ws_chunk b = true) /\ separated chunks'
  | _ => True
  end.

(** A character of text that escaping leaves alone and whose only
    whitespace is that of [textwrap]; and such a character after
    [_munge_whitespace], where the only whitespace left is the space. *)
Definition plain_char (x : char) : Prop :=
  (isspace x = true -> tw_whitespace x = true)
  /\ x <> 38%N /\ x <> 60%N /\ x <> 62%N.

Definition munged_char (x : char) : Prop :=
  (isspace x = true -> x = 32%N) /\ x <> 38%N /\ x <> 60%N /\ x <> 62%N.

(** A line that ends in a character that is no whitespace, and fits the
    width or is one word chunk. *)
Definition settled_line (width : Z) (l : pystr) : Prop :=
  (exists s x, l = s ++ [x] /\ tw_whitespace x = false) /\
  (Z.of_nat (length l) <= width \/ (is_chunk l /\ ws_chunk l = false)).

(** ** [wrap_svg_text] *)

(** The three [replace] calls that escape the text. *)
Definition escape (text : pystr) : pystr :=
  replace_char 62 (py "&gt;")
    (replace_char 60 (py "&lt;") (replace_char 38 (py "&amp;") text)).

(** The lines of one paragraph, and the [lines] list of [wrap_svg_text],
    each entry by its ["text"]: a blank paragraph gives one empty line, any
    other its wrapped lines. *)
Definition para_lines (width_chars : Z) (para : pystr)
  : result (list pystr) :=
  if bool_decide (strip para = []) then Ok [[]]
  else textwrap_wrap para width_chars.

Definition wrap_lines (text : pystr) (width_chars : Z) : result (list pystr) :=
  (fun paras => concat paras) <$>
    result_list (para_lines width_chars) (split_on 10 (escape text)).

(** Wrapping the wrapped lines again, joined by newlines, gives the same
    lines. *)
Definition wrapping_idempotent : Prop :=
  forall text width lines,
    wrap_lines text width = Ok lines ->
    wrap_lines (join [10%N] lines) width = Ok lines.

(** The [dy] each line gets: 0 for the first, then the line height, twice
    the line height after an empty line. *)
Fixpoint tspan_dys (line_height y : Z) (lines : list pystr) : list Z :=
  match lines with
  | [] => []
  | t :: lines' =>
      y :: tspan_dys line_height
             (if bool_decide (t = []) then line_height + line_height
              else line_height)
             lines'
  end.

(** Every line after the first has the line height as its [dy]. *)
Definition fixed_advance : Prop :=
  forall text width line_height lines k dy,
    wrap_lines text width = Ok lines ->
    tspan_dys line_height 0 lines !! S k = Some dy ->
    dy = line_height.

(** A text that is one word longer than the width is one line. *)
Definition long_word_unsplit : Prop :=
  forall word width lines,
    Forall (fun x => tw_whitespace x = false) word ->
    width < Z.of_nat (length word) ->
    wrap_lines word width = Ok lines ->
    lines = [word].

Definition tspan (x dy : Z) (t : pystr) : pystr :=
  fstr "<tspan x=`" ++ str_of_Z x ++ fstr "` dy=`" ++ str_of_Z dy
    ++ fstr "`>" ++ t ++ fstr "</tspan>".

(** A [rules_text] is a string or a list of strings; each element of a
    list is followed by a newline. *)
Definition text_of (text : pystr + list pystr) : pystr :=
  match text with
  | inl s => s
  | inr els => concat ((fun el => el ++ [10%N]) <$> els)
  end.

Definition wrap_svg_text (text : pystr + list pystr)
  (width_chars line_height x : Z) : result pystr :=
  lines ← wrap_lines (text_of text) width_chars;
  let tspans :=
    zip_with (tspan x) (tspan_dys line_height 0 lines) lines in
  Ok (join (10%N :: py "    ") tspans).

End textwrap.

(** ** The builders of [generate_cards.py] *)

Definition build_frame_str (theme : gmap string value) : result pystr :=
  '(card_w, card_h) ← theme_get theme "card_sz" ≫= unpack2;
  '(x, y, w, h) ← theme_get theme "inner_rec" ≫= unpack4;
  frame_bg ← fmt theme "frame_bg";
  frame_inner ← fmt theme "frame_inner";
  frame_border ← fmt theme "frame_border";
  Ok (concat [
    fstr "<rect x=`0` y=`0` width=`"; str_of_Z card_w;
    fstr "` height=`"; str_of_Z card_h;
    fstr "` fill=`"; frame_bg; fstr "` rx=`18` ry=`18`/>";
    fstr "<rect x=`"; str_of_Z x; fstr "` y=`"; str_of_Z y;
    fstr "` width=`"; str_of_Z w; fstr "` height=`"; str_of_Z h;
    fstr "` fill=`"; frame_inner;
    fstr "` rx=`14` ry=`14` stroke=`"; frame_border;
    fstr "` stroke-width=`2`/>" ]).

Definition build_title_str (theme : gmap string value) (name rarity : pystr)
  : result pystr :=
  '(x, y, w, h) ← theme_get theme "title_rec" ≫= unpack4;
  title_bg ← fmt theme "title_bg";
  frame_border ← fmt theme "frame_border";
  '(tx, ty, tfs) ← theme_get theme "title_txt_rec" ≫= unpack3;
  font_serif ← fmt theme "font_serif";
  title_fg ← fmt theme "title_fg";
  '(rx, ry, rfs) ← theme_get theme "title_rarity_rec" ≫= unpack3;
  Ok (concat [
    fstr "<rect x=`"; str_of_Z x; fstr "` y=`"; str_of_Z y;
    fstr "` width=`"; str_of_Z w; fstr "` height=`"; str_of_Z h;
    fstr "` rx=`8` ry=`8` fill=`"; title_bg;
    fstr "` stroke=`"; frame_border; fstr "` stroke-width=`2`/>";
    fstr "<text x=`"; str_of_Z tx; fstr "` y=`"; str_of_Z ty;
    fstr "` font-family=`"; font_serif;
    fstr "` font-size=`"; str_of_Z tfs;
    fstr "` font-weight=`700` fill=`"; title_fg; fstr "`>"; name;
    fstr "</text>";
    fstr "<text x=`"; str_of_Z rx; fstr "` y=`"; str_of_Z ry;
    fstr "` font-family=`"; font_serif;
    fstr "` font-size=`"; str_of_Z rfs;
    fstr "` text-anchor=`end` fill=`"; title_fg; fstr "`>"; rarity;
    fstr "</text>" ]).

(** ** Files *)

(** What the builders read of the file system: the bytes of a file, or
    nothing when [Path.exists] is false. A path that exists stands for a
    file that [read_bytes] reads: a directory or an unreadable file, on
    which it raises, has no value of this type. *)
Definition filesystem := pystr -> option (list N).

Definition b64_char (i : N) : char :=
  (if i <? 26 then 65 + i
   else if i <? 52 then 97 + (i - 26)
   else if i <? 62 then 48 + (i - 52)
   else if i =? 62 then 43 else 47)%N.

(** [base64.b64encode(data).decode("ascii")] *)
Fixpoint b64encode (data : list N) : pystr :=
  match data with
  | [] => []
  | [a] =>
      [b64_char (N.shiftr a 2); b64_char (N.shiftl (N.land a 3) 4);
       61; 61]%N
  | [a; b] =>
      [b64_char (N.shiftr a 2);
       b64_char (N.lor (N.shiftl (N.land a 3) 4) (N.shiftr b 4));
       b64_char (N.shiftl (N.land b 15) 2); 61]%N
  | a :: b :: c :: data' =>
      [b64_char (N.shiftr a 2);
       b64_char (N.lor (N.shiftl (N.land a 3) 4) (N.shiftr b 4));
       b64_char (N.lor (N.shiftl (N.land b 15) 2) (N.shiftr c 6));
       b64_char (N.land c 63)]%N ++ b64encode data'
  end.

Definition data_uri_for_image (fs : filesystem) (path mime : pystr)
  : option pystr :=
  match fs path with
  | None => None
  | Some data => Some (py "data:" ++ mime ++ py ";base64," ++ b64encode data)
  end.

Section builders.
Context `{UnicodeTables}.

(** The pair [(clipping_art, art_img)]; [art_path] is [card.get("art_path")]. *)
Definition build_art_str (fs : filesystem) (theme : gmap string value)
  (art_path : option pystr) : result (pystr * pystr) :=
  '(x, y, w, h) ← theme_get theme "art_rec" ≫= unpack4;
  art_bg ← fmt theme "art_bg";
  frame_border ← fmt theme "frame_border";
  let box := concat [
    fstr "x=`"; str_of_Z x; fstr "` y=`"; str_of_Z y;
    fstr "` width=`"; str_of_Z w; fstr "` height=`"; str_of_Z h; fstr "`" ] in
  let clipping_art := concat [
    fstr "<clipPath id=`artClip`><rect x=`"; str_of_Z x;
    fstr "` y=`"; str_of_Z y; fstr "` rx=`10` ry=`10` width=`"; str_of_Z w;
    fstr "` height=`"; str_of_Z h; fstr "` /></clipPath>" ] in
  let art_img := concat [
    fstr "<rect "; box; fstr " rx=`10` ry=`10` fill=`"; art_bg;
    fstr "` stroke=`"; frame_border; fstr "` stroke-width=`2`/>" ] in
  let art_img :=
    match art_path with
    | Some (c :: p) =>
        let art_path := c :: p in
        let ap := str_lower art_path in
        let mime :=
          if endswith ap (py ".jpg") || endswith ap (py ".jpeg")
          then py "image/jpeg" else py "image/png" in
        match data_uri_for_image fs art_path mime with
        | Some (u :: ri) =>
            concat [
              fstr "<image href=`"; u :: ri; fstr "` "; box;
              fstr " preserveAspectRatio=`xMidYMid slice` clip-path=`url(#artClip)` />" ]
        | _ => art_img
        end
    | _ => art_img
    end in
  let art_img := art_img ++ concat [
    fstr "<rect "; box; fstr " rx=`10` ry=`10` fill-opacity=`0` stroke=`";
    frame_border; fstr "` stroke-width=`2`/>" ] in
  Ok (clipping_art, art_img).

Definition build_type_str (theme : gmap string value) (type : pystr)
  : result pystr :=
  '(x, y, w, h) ← theme_get theme "type_rec" ≫= unpack4;
  type_bg ← fmt theme "type_bg";
  frame_border ← fmt theme "frame_border";
  '(tx, ty, fs) ← theme_get theme "type_txt_rec" ≫= unpack3;
  font_sans ← fmt theme "font_sans";
  type_fg ← fmt theme "type_fg";
  Ok (concat [
    fstr "<rect x=`"; str_of_Z x; fstr "` y=`"; str_of_Z y;
    fstr "` width=`"; str_of_Z w; fstr "` height=`"; str_of_Z h;
    fstr "` rx=`6` ry=`6` fill=`"; type_bg;
    fstr "` stroke=`"; frame_border; fstr "` stroke-width=`2`/>";
    fstr "<text x=`"; str_of_Z tx; fstr "` y=`"; str_of_Z ty;
    fstr "` font-family=`"; font_sans;
    fstr "` font-size=`"; str_of_Z fs;
    fstr "` font-weight=`600` fill=`"; type_fg; fstr "`>"; type;
    fstr "</text>" ]).

(** The rectangle element that opens [build_rules_str]. *)
Definition rules_rect_str (x y w h : Z) (rules_bg frame_border : pystr)
  : pystr :=
  concat [
    fstr "<rect x=`"; str_of_Z x; fstr "` y=`"; str_of_Z y;
    fstr "` width=`"; str_of_Z w; fstr "` height=`"; str_of_Z h;
    fstr "` rx=`10` ry=`10` fill=`"; rules_bg;
    fstr "` stroke=`"; frame_border; fstr "` stroke-width=`2`/>" ].

(** The text [build_rules_str] wraps for a flavor: the flavor between a
    left and a right curly quotation mark. *)
Definition quoted (flavor : pystr) : pystr :=
  [8220%N] ++ flavor ++ [8221%N].

(** [flavor_lines]: empty when the flavor is empty. *)
Definition flavor_lines (flavor : pystr) (x fs : Z) : result pystr :=
  match flavor with
  | [] => Ok []
  | _ => wrap_svg_text (inl (quoted flavor)) 60 fs x
  end.

Definition build_rules_str (theme : gmap string value)
  (rules : pystr + list pystr) (flavor : pystr) : result pystr :=
  '(x, y, w, h) ← theme_get theme "rules_rec" ≫= unpack4;
  rules_bg ← fmt theme "rules_bg";
  frame_border ← fmt theme "frame_border";
  let rules_str := rules_rect_str x y w h rules_bg frame_border in
  '(x, y, fs) ← theme_get theme "rules_txt_rec" ≫= unpack3;
  rules_lines ← wrap_svg_text rules 60 fs x;
  font_serif ← fmt theme "font_serif";
  rules_fg ← fmt theme "rules_fg";
  let rules_str := rules_str ++ concat [
    fstr "<text x=`"; str_of_Z x; fstr "` y=`"; str_of_Z y;
    fstr "` font-family=`"; font_serif;
    fstr "` font-size=`"; str_of_Z fs;
    fstr "` fill=`"; rules_fg; fstr "`>"; rules_lines; fstr "</text>" ] in
  '(x, y, fs) ← theme_get theme "flavor_txt_rec" ≫= unpack3;
  flavor_lines ← flavor_lines flavor x fs;
  flavor_fg ← fmt theme "flavor_fg";
  Ok (rules_str ++ concat [
    fstr "<text x=`"; str_of_Z x; fstr "` y=`"; str_of_Z y;
    fstr "` font-family=`"; font_serif;
    fstr "` font-size=`"; str_of_Z fs;
    fstr "` font-style=`italic` fill=`"; flavor_fg; fstr "`>";
    flavor_lines; fstr "</text>" ]).

End builders.

(** ** Stat badges, footer and the document *)

(** [if el:] for an optional field: present and not the empty string. *)
Definition truthy (el : option pystr) : bool :=
  match el with
  | Some (_ :: _) => true
  | _ => false
  end.

(** The loop of [build_optional_str]: for each truthy field one badge
    [(x - w, tx, el)], the left edge of its box, the anchor of its text and
    its text; then [x] and [tx] move left by [w + 6]. *)
Fixpoint badges (x tx w : Z) (els : list (option pystr))
  : list (Z * Z * pystr) :=
  match els with
  | [] => []
  | Some (c :: el) :: els' =>
      (x - w, tx, c :: el) :: badges (x - (w + 6)) (tx - (w + 6)) w els'
  | _ :: els' => badges x tx w els'
  end.

(** The [<g>] element of one badge. *)
Definition badge_str (theme : gmap string value) (y w h ty fs : Z)
  (badge : Z * Z * pystr) : result pystr :=
  let '(bx, tx, el) := badge in
  pt_bg ← fmt theme "pt_bg";
  frame_border ← fmt theme "frame_border";
  font_serif ← fmt theme "font_serif";
  pt_fg ← fmt theme "pt_fg";
  Ok (concat [
    fstr "<g><rect x=`"; str_of_Z bx; fstr "` y=`"; str_of_Z y;
    fstr "` width=`"; str_of_Z w; fstr "` height=`"; str_of_Z h;
    fstr "` rx=`8` ry=`8` fill=`"; pt_bg;
    fstr "` stroke=`"; frame_border; fstr "` stroke-width=`2`/>";
    fstr "<text x=`"; str_of_Z tx; fstr "` y=`"; str_of_Z ty;
    fstr "` font-family=`"; font_serif;
    fstr "` font-size=`"; str_of_Z fs;
    fstr "` font-weight=`700` text-anchor=`middle` fill=`"; pt_fg;
    fstr "`>"; el; fstr "</text></g>" ]).

(** The badges [build_optional_str] emits for a theme and three fields. *)
Definition optional_badges (theme : gmap string value)
  (pt price weight : option pystr) : result (list (Z * Z * pystr)) :=
  '(x, y, w, h) ← theme_get theme "opt_box" ≫= unpack4;
  '(tx, ty, fs) ← theme_get theme "opt_txt_rec" ≫= unpack3;
  Ok (badges x tx w [pt; price; weight]).

Definition build_optional_str (theme : gmap string value)
  (pt price weight : option pystr) : result pystr :=
  '(x, y, w, h) ← theme_get theme "opt_box" ≫= unpack4;
  '(tx, ty, fs) ← theme_get theme "opt_txt_rec" ≫= unpack3;
  (fun strs => concat strs) <$>
    result_list (badge_str theme y w h ty fs)
      (badges x tx w [pt; price; weight]).

Definition build_footer_str (theme : gmap string value)
  (set_code collector author copyright_str : pystr) : result pystr :=
  '(x, y, fs) ← theme_get theme "footer_txt_rec_l" ≫= unpack3;
  font_sans ← fmt theme "font_sans";
  footer_fg ← fmt theme "footer_fg";
  '(rx, ry, rfs) ← theme_get theme "footer_txt_rec_r" ≫= unpack3;
  Ok (concat [
    fstr "<g><text x=`"; str_of_Z x; fstr "` y=`"; str_of_Z y;
    fstr "` font-family=`"; font_sans;
    fstr "` font-size=`"; str_of_Z fs;
    fstr "` fill=`"; footer_fg; fstr "`>";
    set_code; [32; 8226; 32]%N; collector; [32; 8226; 32]%N; author;
    fstr "</text>";
    fstr "<text x=`"; str_of_Z rx; fstr "` y=`"; str_of_Z ry;
    fstr "` font-family=`"; font_sans;
    fstr "` font-size=`"; str_of_Z rfs;
    fstr "` text-anchor=`end` fill=`"; footer_fg; fstr "`>";
    copyright_str; fstr "</text></g>" ]).

(** One entry of the ["cards"] list. The fields hold strings, as the card
    files of the repository do; [None] is a key the entry does not have. *)
Record card := {
  card_theme : option (gmap string value);
  card_rarity : option pystr;
  card_name : option pystr;
  card_art_path : option pystr;
  card_type_line : option pystr;
  card_rules_text : option (pystr + list pystr);
  card_flavor_text : option pystr;
  card_pt : option pystr;
  card_price : option pystr;
  card_weight : option pystr;
  card_set_code : option pystr;
  card_collector : option pystr;
  card_author : option pystr;
  card_copyright : option pystr
}.

(** The theme [build_svg] resolves for a card. *)
Definition resolved_theme (c : card) : gmap string value :=
  get_theme (default ∅ (card_theme c)) (default (py "Common") (card_rarity c)).

(** A card with other stat fields. *)
Definition with_stats (c : card) (pt price weight : option pystr) : card :=
  {| card_theme := card_theme c; card_rarity := card_rarity c;
     card_name := card_name c; card_art_path := card_art_path c;
     card_type_line := card_type_line c;
     card_rules_text := card_rules_text c;
     card_flavor_text := card_flavor_text c;
     card_pt := pt; card_price := price; card_weight := weight;
     card_set_code := card_set_code c; card_collector := card_collector c;
     card_author := card_author c; card_copyright := card_copyright c |}.

(** A field the card has, whatever its value. *)
Definition present (el : option pystr) : bool :=
  match el with
  | Some _ => true
  | None => false
  end.

(** The texts of the truthy fields, in order. *)
Definition field_texts (els : list (option pystr)) : list pystr :=
  els ≫= fun el =>
    match el with
    | Some (c :: s) => [c :: s]
    | _ => []
    end.

(** The keys of a theme by the shape the builders expect of their value. *)
Definition rect_keys : list string :=
  ["inner_rec"; "title_rec"; "art_rec"; "type_rec"; "rules_rec"; "opt_box"].

Definition anchor_keys : list string :=
  ["title_txt_rec"; "title_rarity_rec"; "type_txt_rec"; "rules_txt_rec";
   "flavor_txt_rec"; "footer_txt_rec_l"; "footer_txt_rec_r"; "opt_txt_rec"].

Definition style_keys : list string :=
  ["frame_bg"; "frame_inner"; "frame_border"; "title_bg"; "title_fg";
   "art_bg"; "type_bg"; "type_fg"; "rules_bg"; "rules_fg"; "flavor_fg";
   "footer_fg"; "pt_bg"; "pt_fg"; "font_serif"; "font_sans"].

(** A theme that has every key, with a value of the shape unpacked. *)
Definition theme_shaped (theme : gmap string value) : Prop :=
  (exists a b, theme !! "card_sz" = Some (VPair a b)) /\
  (forall key, key ∈ rect_keys ->
     exists x y w h, theme !! key = Some (VRect x y w h)) /\
  (forall key, key ∈ anchor_keys ->
     exists x y fs, theme !! key = Some (VTriple x y fs)) /\
  (forall key, key ∈ style_keys -> exists v, theme !! key = Some v).

(** One badge for each field the card has. *)
Definition badge_per_present_field (theme : gmap string value) : Prop :=
  forall pt price weight,
  exists bs,
    optional_badges theme pt price weight = Ok bs /\
    length bs = length (filter (fun el => present el = true) [pt; price; weight]).

Definition nl : pystr := [10%N].

(** [Template(SVG_TEMPLATE).substitute(...)] *)
Definition svg_template (card_w card_h : Z)
  (clipping_art frame_str title_str art_img type_str rules_str opt_str
   footer_str : pystr) : pystr :=
  concat [
    fstr "<?xml version=`1.0` encoding=`UTF-8` standalone=`no`?>"; nl;
    fstr "<svg width=`"; str_of_Z card_w; fstr "px` height=`";
    str_of_Z card_h; fstr "px` viewBox=`0 0 "; str_of_Z card_w; py " ";
    str_of_Z card_h; fstr "` xmlns=`http://www.w3.org/2000/svg`>"; nl;
    py "  <defs>"; nl;
    py "    "; clipping_art; nl;
    py "  </defs>"; nl;
    nl;
    py "  <!-- frame -->"; nl;
    py "  "; frame_str; nl;
    py "  "; nl;
    py "  <!-- Title bar -->"; nl;
    py "  "; title_str; nl;
    nl;
    py "  <!-- Art -->"; nl;
    py "  "; art_img; nl;
    nl;
    py "  <!-- Type line -->"; nl;
    py "  "; type_str; nl;
    nl;
    py "  <!-- Rules text box -->"; nl;
    py "  "; rules_str; nl;
    nl;
    py "  <!-- Optional -->"; nl;
    py "  "; opt_str; nl;
    nl;
    py "  <!-- Footer -->"; nl;
    py "  "; footer_str; nl;
    py "</svg>"; nl ].

Definition safe_char (c : char) : bool :=
  ((97 <=? c) && (c <=? 122) || (65 <=? c) && (c <=? 90)
   || (48 <=? c) && (c <=? 57) || (c =? 95) || (c =? 45))%N.

(** [re.sub(r"[^a-zA-Z0-9_-]+", "_", s)]: each maximal run of other
    characters becomes one underscore. *)
Fixpoint sub_unsafe (in_run : bool) (s : pystr) : pystr :=
  match s with
  | [] => []
  | c :: s' =>
      if safe_char c then c :: sub_unsafe false s'
      else if in_run then sub_unsafe true s'
      else 95%N :: sub_unsafe true s'
  end.

Fixpoint lstrip_char (ch : char) (s : pystr) : pystr :=
  match s with
  | c :: s' => if (c =? ch)%N then lstrip_char ch s' else s
  | [] => []
  end.

(** [s.strip("_")] *)
Definition strip_underscores (s : pystr) : pystr :=
  reverse (lstrip_char 95 (reverse (lstrip_char 95 s))).

Section build_svg.
Context `{UnicodeTables}.

(** [build_svg(card, out_dir)]: the name of the file written under
    [out_dir] and the text written to it. The write itself,
    [out.write_text], is left to the caller, where it is the event
    [WriteText]; an error of the write is not described. *)
Definition build_svg (fs : filesystem) (c : card) : result (pystr * pystr) :=
  let rarity := default (py "Common") (card_rarity c) in
  let theme := resolved_theme c in
  frame_str ← build_frame_str theme;
  title_str ←
    build_title_str theme (default (py "Unnamed Item") (card_name c)) rarity;
  '(clipping_art, art_img) ← build_art_str fs theme (card_art_path c);
  type_str ←
    build_type_str theme
      (default (py "Item " ++ [8212%N] ++ py " Wondrous") (card_type_line c));
  rules_str ←
    build_rules_str theme
      (default (inl [8212%N]) (card_rules_text c))
      (strip (default [] (card_flavor_text c)));
  opt_str ←
    build_optional_str theme (card_pt c) (card_price c) (card_weight c);
  footer_str ←
    build_footer_str theme
      (default (py "DND") (card_set_code c))
      (default (py "001/001") (card_collector c))
      (default [] (card_author c))
      (default ([169%N] ++ py " 2025") (card_copyright c));
  '(w, h) ← theme_get theme "card_sz" ≫= unpack2;
  let svg :=
    svg_template w h clipping_art frame_str title_str art_img type_str
      rules_str opt_str footer_str in
  let safe :=
    strip_underscores (sub_unsafe false (default (py "card") (card_name c))) in
  Ok (safe ++ py ".svg", svg).

End build_svg.

(** ** Sheets ([collect_and_print.py]) *)

(** *** Page size *)

(** [float(n)] of an [int]: the nearest double, ties to even. *)
Definition float_of_Z (n : Z) : float :=
  SF2Prim (binary_normalize prec emax n 0 false).

(** [int(round(x))]: the nearest integer, ties to even; infinities and
    NaN raise. *)
Definition round_float (x : float) : result Z :=
  match Prim2SF x with
  | S754_zero _ => Ok 0
  | S754_finite s m e =>
      let n :=
        match e with
        | Z0 => Zpos m
        | Zpos _ => Zpos m * 2 ^ e
        | Zneg _ =>
            let d := 2 ^ (- e) in
            let q := Zpos m / d in
            let r := Zpos m mod d in
            if 2 * r <? d then q
            else if d <? 2 * r then q + 1
            else if Z.even q then q else q + 1
        end in
      Ok (if s then - n else n)
  | S754_infinity _ => Raise OverflowError
  | S754_nan => Raise ValueError
  end.

#[warnings="-inexact-float"]
Definition a4_short_in : float := 8.267716535%float.
#[warnings="-inexact-float"]
Definition a4_long_in : float := 11.692913386%float.

(** [w_in * dpi] of a float and an [int]; an [int] too large for a double
    raises. *)
Definition mul_float_int (x : float) (n : Z) : result float :=
  let f := float_of_Z n in
  match Prim2SF f with
  | S754_infinity _ => Raise OverflowError
  | _ => Ok (PrimFloat.mul x f)
  end.

Definition a4_dimensions (dpi : Z) (orientation : pystr) : result (Z * Z) :=
  let '(w_in, h_in) :=
    if bool_decide (orientation = py "a4portrait")
    then (a4_short_in, a4_long_in) else (a4_long_in, a4_short_in) in
  w ← mul_float_int w_in dpi ≫= round_float;
  h ← mul_float_int h_in dpi ≫= round_float;
  Ok (w, h).

(** *** The grid *)

(** [range(n)] *)
Definition range (n : Z) : list Z := seqZ 0 n.

(** [range(start, stop, step)]; a zero step raises. *)
Definition range3 (start stop step : Z) : result (list Z) :=
  if step =? 0 then Raise ValueError
  else
    let n :=
      if 0 <? step then (stop - start + step - 1) / step
      else (start - stop - step - 1) / (- step) in
    Ok ((fun k => start + k * step) <$> range n).

Definition layout_positions
  (sheet_w sheet_h card_w card_h cols rows margin_px gutter_px : Z)
  : list (Z * Z) :=
  let total_cards_w := cols * card_w + (cols - 1) * gutter_px in
  let total_cards_h := rows * card_h + (rows - 1) * gutter_px in
  let x0 := (sheet_w - total_cards_w) / 2 in
  let y0 := (sheet_h - total_cards_h) / 2 in
  r ← range rows;
  c ← range cols;
  let x := x0 + c * (card_w + gutter_px) in
  let y := y0 + r * (card_h + gutter_px) in
  [(x, y)].

(** The eight segments of [draw_crop_marks], in drawing order. *)
Definition draw_crop_marks (x y w h len_px offset : Z)
  : list ((Z * Z) * (Z * Z)) :=
  [ ((x - offset - len_px, y - offset), (x - offset, y - offset));
    ((x - offset, y - offset - len_px), (x - offset, y - offset));
    ((x + w + offset, y - offset), (x + w + offset + len_px, y - offset));
    ((x + w + offset, y - offset - len_px), (x + w + offset, y - offset));
    ((x - offset - len_px, y + h + offset), (x - offset, y + h + offset));
    ((x - offset, y + h + offset), (x - offset, y + h + offset + len_px));
    ((x + w + offset, y + h + offset),
     (x + w + offset + len_px, y + h + offset));
    ((x + w + offset, y + h + offset),
     (x + w + offset, y + h + offset + len_px)) ].

(** [l[lo:hi]] *)
Definition slice {A} (l : list A) (lo hi : Z) : list A :=
  let n := Z.of_nat (length l) in
  let clamp i := if i <? 0 then Z.max 0 (i + n) else Z.min i n in
  let lo := clamp lo in
  let hi := clamp hi in
  take (Z.to_nat (hi - lo)) (drop (Z.to_nat lo) l).

(** A page: its size, the images pasted on it with their origins, in
    pasting order, and the crop marks drawn on it. *)
Record page := {
  page_size : Z * Z;
  page_pasted : list (pystr * (Z * Z));
  page_marks : list ((Z * Z) * (Z * Z))
}.

(** One turn of the page loop of [make_sheets]: a chunk zipped with the
    cell origins. *)
Definition make_page (sheet_w sheet_h card_w card_h : Z) (add_crop : bool)
  (positions : list (Z * Z)) (chunk : list pystr) : page :=
  let placed := zip chunk positions in
  {| page_size := (sheet_w, sheet_h);
     page_pasted := placed;
     page_marks :=
       if add_crop then
         '(_, (x, y)) ← placed; draw_crop_marks x y card_w card_h 28 8
       else [] |}.

(** The page loop of [make_sheets]:
    [for i in range(0, len(pngs), per_page)]. *)
Definition make_pages (sheet_w sheet_h card_w card_h : Z) (add_crop : bool)
  (positions : list (Z * Z)) (per_page : Z) (pngs : list pystr)
  : result (list page) :=
  starts ← range3 0 (Z.of_nat (length pngs)) per_page;
  Ok ((fun i =>
         make_page sheet_w sheet_h card_w card_h add_crop positions
           (slice pngs i (i + per_page))) <$> (starts : list Z)).

(** *** The run: external collaborators and their trace *)

(** What a run finds outside the program. *)
Record world := {
  (** [cards_dir.glob("*.svg")], in the order the directory yields them *)
  glob_svg : pystr -> list pystr;
  (** [find_inkscape()]: the empty string when there is none *)
  inkscape_exe : pystr;
  (** the directory [tempfile.mkdtemp] creates *)
  mkdtemp : pystr;
  (** whether Inkscape exits with code 0 on a file *)
  inkscape_ok : pystr -> bool
}.

(** What a run does outside the program, in order. *)
Inductive event :=
| MakeTempDir (dir : pystr)
| Rasterize (svg png : pystr) (width_px height_px dpi : Z)
| SavePdf (out_pdf : pystr) (dpi : Z) (pages : list page)
| Print (line : pystr).

(** A computation with a trace: the events so far and the outcome. *)
Definition io (A : Type) : Type := list event * result A.

Definition io_ret {A} (a : A) : io A := ([], Ok a).
Definition io_raise {A} (e : exn) : io A := ([], Raise e).
Definition io_emit (ev : event) : io unit := ([ev], Ok tt).
Definition io_lift {A} (r : result A) : io A := ([], r).
Definition io_bind {A B} (m : io A) (f : A -> io B) : io B :=
  match m with
  | (tr, Ok a) => let '(tr', r) := f a in (tr ++ tr', r)
  | (tr, Raise e) => (tr, Raise e)
  end.

#[export] Instance io_mret : MRet io := fun A a => io_ret a.
#[export] Instance io_mbind : MBind io := fun A B f m => io_bind m f.

(** The last component of a path. *)
Definition path_name (p : pystr) : pystr :=
  default [] (last (split_on 47 p)).

(** Index of the last dot of a name. *)
Fixpoint rfind_dot (i : nat) (s : pystr) : option nat :=
  match s with
  | [] => None
  | c :: s' =>
      match rfind_dot (S i) s' with
      | Some j => Some j
      | None => if (c =? 46)%N then Some i else None
      end
  end.

(** [Path.stem]: the name without its last suffix. *)
Definition path_stem (p : pystr) : pystr :=
  let name := path_name p in
  match rfind_dot 0 name with
  | Some i =>
      if bool_decide (0 < i < length name - 1)%nat then take i name else name
  | None => name
  end.

(** [f"card_{i:04d}.png"] *)
Definition card_png (i : Z) : pystr :=
  let d := str_of_Z i in
  py "card_" ++ replicate (4 - length d) 48%N ++ d ++ py ".png".

(** Fifteen card images, as the rasterization loop names them. *)
Definition fifteen_pngs : list pystr :=
  (fun i => py "tmp/" ++ card_png i) <$> seqZ 1 15.

(** [rasterize_svg]: one run of Inkscape, which may fail. *)
Definition rasterize_svg (w : world) (svg_path out_png : pystr)
  (width_px height_px dpi : Z) : io unit :=
  io_emit (Rasterize svg_path out_png width_px height_px dpi);;
  if inkscape_ok w svg_path then io_ret tt
  else io_raise (RuntimeError (path_name svg_path)).

(** The rasterization loop of [make_sheets], from index [i]. *)
Fixpoint rasterize_all (w : world) (tmpdir : pystr) (card_w card_h dpi : Z)
  (i : Z) (svg_paths : list pystr) : io (list pystr) :=
  match svg_paths with
  | [] => io_ret []
  | svg :: svg_paths' =>
      let png := tmpdir ++ py "/" ++ card_png i in
      rasterize_svg w svg png card_w card_h dpi;;
      pngs ← rasterize_all w tmpdir card_w card_h dpi (i + 1) svg_paths';
      io_ret (png :: pngs)
  end.

(** [make_sheets]. The calls of the imaging library ([Image.new],
    [Image.open], [paste], [save]) are pure steps here and [SavePdf] is the
    saved document: the library is taken to accept the pages, which asks
    for a sheet of positive width and height (a positive [dpi]). *)
Definition make_sheets (w : world) (svg_paths : list pystr) (out_pdf : pystr)
  (dpi : Z) (orientation : pystr)
  (cols rows margin_px gutter_px card_w card_h : Z) (add_crop : bool)
  : io unit :=
  match inkscape_exe w with
  | [] => io_raise EnvironmentError
  | _ =>
      '(sheet_w, sheet_h) ← io_lift (a4_dimensions dpi orientation);
      let positions :=
        layout_positions sheet_w sheet_h card_w card_h cols rows
          margin_px gutter_px in
      let per_page := cols * rows in
      let tmpdir := mkdtemp w in
      io_emit (MakeTempDir tmpdir);;
      pngs ← rasterize_all w tmpdir card_w card_h dpi 1 svg_paths;
      pages ← io_lift (make_pages sheet_w sheet_h card_w card_h add_crop
                         positions per_page pngs);
      match pages with
      | [] => io_raise IndexError
      | _ => io_emit (SavePdf out_pdf dpi pages)
      end
  end.

Section run.
Context `{UnicodeTables}.

(** The [index] dictionary of [collect_files]: a later file of the same
    lowered stem replaces an earlier one. *)
Definition card_index (files : list pystr) : gmap pystr pystr :=
  foldl (fun index p => <[str_lower (path_stem p) := p]> index) ∅ files.

(** The request loop of [collect_files]. *)
Fixpoint collect_requests (index : gmap pystr pystr)
  (requests : list (pystr * Z)) : result (list pystr) :=
  match requests with
  | [] => Ok []
  | (base, count) :: requests' =>
      match index !! str_lower base with
      | None => Raise (FileNotFoundError base)
      | Some p =>
          out ← collect_requests index requests';
          Ok (replicate (Z.to_nat count) p ++ out)
      end
  end.

Definition collect_files (w : world) (cards_dir : pystr)
  (requests : list (pystr * Z)) : result (list pystr) :=
  collect_requests (card_index (glob_svg w cards_dir)) requests.

(** [item.split("=", 1)] when [item] has an equals sign. *)
Fixpoint split_eq (item : pystr) : option (pystr * pystr) :=
  match item with
  | [] => None
  | c :: item' =>
      if (c =? 61)%N then Some ([], item')
      else '(name, cnt) ← split_eq item'; Some (c :: name, cnt)
  end.

Fixpoint parse_adds (add_list : list pystr) : result (list (pystr * Z)) :=
  match add_list with
  | [] => Ok []
  | item :: add_list' =>
      match split_eq item with
      | None => Raise ValueError
      | Some (name, cnt) =>
          match int_of_str cnt with
          | None => Raise ValueError
          | Some cnt =>
              out ← parse_adds add_list';
              Ok (if cnt <=? 0 then out else (strip name, cnt) :: out)
          end
      end
  end.

(** The parsed command line. *)
Record args := {
  args_cards : pystr;
  args_add : list pystr;
  args_out : pystr;
  args_dpi : Z;
  args_orientation : pystr;
  args_cols : Z;
  args_rows : Z;
  args_margin : Z;
  args_gutter : Z;
  args_crop : bool
}.

(** [main()] of [collect_and_print.py], after [parse_args]. *)
Definition main (w : world) (a : args) : io unit :=
  let cards_dir := args_cards a in
  requests ← io_lift (parse_adds (args_add a));
  match requests with
  | [] => io_raise SystemExit
  | _ =>
      svg_list ← io_lift (collect_files w cards_dir requests);
      make_sheets w svg_list (args_out a) (args_dpi a) (args_orientation a)
        (args_cols a) (args_rows a) (args_margin a) (args_gutter a)
        744 1039 (args_crop a);;
      io_emit (Print (py "Created: " ++ args_out a))
  end.

End run.

(** The tables on ASCII: letters and digits as Unicode has them there, no
    other character counted as a letter or a digit. *)
Definition ascii_lower (s : pystr) : pystr :=
  (fun c => if (65 <=? c) && (c <=? 90) then c + 32 else c)%N <$> s.

Definition ascii_isdecimal (c : char) : bool := ((48 <=? c) && (c <=? 57))%N.

Definition ascii_isalnum (c : char) : bool :=
  (ascii_isdecimal c || (65 <=? c) && (c <=? 90)
   || (97 <=? c) && (c <=? 122))%N.

(** [int(s)] for a string of ASCII digits. *)
Definition ascii_int (s : pystr) : option Z :=
  match s with
  | [] => None
  | _ =>
      if forallb ascii_isdecimal s
      then Some (foldl (fun n c => 10 * n + (Z.of_N c - 48)) 0 s)
      else None
  end.

Definition ascii_tables : UnicodeTables := {|
  str_lower := ascii_lower;
  int_of_str := ascii_int;
  uni_isalnum := ascii_isalnum;
  uni_isdecimal := ascii_isdecimal;
  uni_isalnum_hyphen := eq_refl
|}.


(** The files a trace rasterized, and the page sizes, in cards, of the
    documents it saved. *)
Definition rasterized (trace : list event) : list pystr :=
  trace ≫= fun ev =>
    match ev with
    | Rasterize svg _ _ _ _ => [svg]
    | _ => []
    end.

Definition saved_page_sizes (trace : list event) : list (list nat) :=
  trace ≫= fun ev =>
    match ev with
    | SavePdf _ _ pages => [(fun page => length (page_pasted page)) <$> pages]
    | _ => []
    end.

(** The world and the command line of the end-to-end scenarios: a
    directory with the two cards, Inkscape installed and working. *)
Definition scenario_world : world := {|
  glob_svg := fun _ =>
    [py "cards/Sword_of_the_Autumn_Wolf.svg";
     py "cards/Potion_of_Brightmind.svg"];
  inkscape_exe := py "/usr/bin/inkscape";
  mkdtemp := py "/tmp/cards_ras_0";
  inkscape_ok := fun _ => true
|}.

Definition scenario_args (add : list pystr) : args := {|
  args_cards := py "cards";
  args_add := add;
  args_out := py "cards_print.pdf";
  args_dpi := 300;
  args_orientation := py "a4portrait";
  args_cols := 3;
  args_rows := 3;
  args_margin := 60;
  args_gutter := 18;
  args_crop := false
|}.

(** Forty letters, a hyphen, forty letters: one word of 81 characters. *)
Definition hyphenated_word : pystr :=
  replicate 40 97%N ++ [45%N] ++ replicate 40 98%N.

(** A card with an art file, and two file systems that hold the same bytes
    for that file and differ elsewhere. *)
Definition sample_card : card := {|
  card_theme := None;
  card_rarity := Some (py "Legendary");
  card_name := Some (py "Sword of the Autumn Wolf");
  card_art_path := Some (py "art/sword.png");
  card_type_line := None;
  card_rules_text := Some (inl (py "Reach. When this enters, draw a card."));
  card_flavor_text := Some (py "It howls.");
  card_pt := Some (py "2/3");
  card_price := None;
  card_weight := Some (py "1 lb");
  card_set_code := None;
  card_collector := None;
  card_author := None;
  card_copyright := None
|}.

Definition sample_fs1 : filesystem := fun path =>
  if bool_decide (path = py "art/sword.png") then Some [137; 80; 78; 71]%N
  else None.

Definition sample_fs2 : filesystem := fun path =>
  if bool_decide (path = py "art/sword.png") then Some [137; 80; 78; 71]%N
  else Some [255]%N.

(** ** Vocabulary for the wrapped text *)

(** A character [strip] keeps: one that is not white space. *)
Definition visible (c : char) : bool := negb (isspace c).

(** ** Vocabulary for the sheet *)

(** The pixels a [w] by [h] image pasted at [origin] covers. *)
Definition covers (origin : Z * Z) (w h : Z) (p : Z * Z) : Prop :=
  origin.1 <= p.1 < origin.1 + w /\ origin.2 <= p.2 < origin.2 + h.

(** The pixels of a horizontal or vertical line of width 1, both ends
    included. *)
Definition on_segment (p : Z * Z) (seg : (Z * Z) * (Z * Z)) : Prop :=
  seg.1.1 <= p.1 <= seg.2.1 /\ seg.1.2 <= p.2 <= seg.2.2.

(** The card rectangle at a cell origin. *)
Definition card_rect (origin : Z * Z) (w h : Z) : rect :=
  (origin.1, origin.2, w, h).

(** The sheet as a rectangle at the origin. *)
Definition sheet_rect (sheet_w sheet_h : Z) : rect := (0, 0, sheet_w, sheet_h).

(** The [Rasterize] events of a list of files numbered from [i]. *)
Fixpoint rasterize_events (tmpdir : pystr) (card_w card_h dpi : Z) (i : Z)
  (svg_paths : list pystr) : list event :=
  match svg_paths with
  | [] => []
  | svg :: svg_paths' =>
      Rasterize svg (tmpdir ++ py "/" ++ card_png i) card_w card_h dpi
        :: rasterize_events tmpdir card_w card_h dpi (i + 1) svg_paths'
  end.

(** The number of copies a list of requests asks for. *)
Definition total_count (requests : list (pystr * Z)) : nat :=
  foldr (fun r n => (Z.to_nat r.2 + n)%nat) O requests.

(** ** [find_inkscape] *)

Definition inkscape_candidates : list pystr :=
  [ py "C:\Program Files\Inkscape\bin\inkscape.exe";
    py "C:\Program Files\Inkscape\inkscape.exe";
    py "C:\Program Files (x86)\Inkscape\bin\inkscape.exe";
    py "C:\Program Files (x86)\Inkscape\inkscape.exe" ].

(** The loop over the candidates: the first that exists. *)
Fixpoint first_existing (path_exists : pystr -> bool) (candidates : list pystr)
  : pystr :=
  match candidates with
  | [] => []
  | c :: candidates' =>
      if path_exists c then c else first_existing path_exists candidates'
  end.

(** [find_inkscape()], given the answer of [shutil.which("inkscape")] and
    the paths that exist. *)
Definition find_inkscape (which : option pystr) (path_exists : pystr -> bool)
  : pystr :=
  match which with
  | Some (c :: exe) => c :: exe
  | _ => first_existing path_exists inkscape_candidates
  end.

(** ** The run of the card generator ([main] of [generate_cards.py]) *)

Module GenerateCards.

(** What the generator finds outside the program. *)
Record files := {
  (** [cards_path.is_file()] and [cards_path.is_dir()] *)
  is_file : pystr -> bool;
  is_dir : pystr -> bool;
  (** [cards_path.glob("*.json")], in the order the directory yields them *)
  glob_json : pystr -> list pystr;
  (** [json.loads(p.read_text(encoding="utf-8")).get("cards", [])]: the
      cards, or the text of the exception raised on the way *)
  read_cards : pystr -> pystr + list card;
  (** [output_path.resolve()] *)
  resolve : pystr -> pystr;
  (** the art files the cards name *)
  art_files : filesystem
}.

(** What the generator does outside the program, in order: the directory
    made, a text written to [dir / name], a line printed. *)
Inductive event :=
| Mkdir (dir : pystr)
| WriteText (dir name text : pystr)
| Print (line : pystr).

(** An exception that ends the run: one raised while a file of cards is
    read, or one raised by [build_svg]. *)
Inductive failure :=
| LoadError (msg : pystr)
| BuildError (e : exn).

Inductive outcome (A : Type) :=
| Done (a : A)
| Failed (e : failure).
Arguments Done {A} a.
Arguments Failed {A} e.

(** A computation with a trace. *)
Definition run (A : Type) : Type := list event * outcome A.

Definition run_bind {A B} (m : run A) (f : A -> run B) : run B :=
  match m with
  | (tr, Done a) => let '(tr', r) := f a in (tr ++ tr', r)
  | (tr, Failed e) => (tr, Failed e)
  end.

#[export] Instance run_mret : MRet run := fun A a => ([], Done a).
#[export] Instance run_mbind : MBind run := fun A B f m => run_bind m f.

Definition emit (ev : event) : run unit := ([ev], Done tt).
Definition fail {A} (e : failure) : run A := ([], Failed e).

(** The order of strings: code point by code point. *)
Fixpoint str_le (a b : pystr) : bool :=
  match a, b with
  | [], _ => true
  | _ :: _, [] => false
  | x :: a', y :: b' => (x <? y)%N || ((x =? y)%N && str_le a' b')
  end.

(** The order of the paths of one directory: that of their names. *)
Definition path_le (p q : pystr) : Prop :=
  str_le (path_name p) (path_name q) = true.

#[export] Instance path_le_dec : RelDecision path_le.
Proof. intros p q. unfold path_le. apply _. Defined.

(** [sorted(paths)] *)
Definition sorted (paths : list pystr) : list pystr :=
  merge_sort path_le paths.

(** The loop over the files of a directory: a file that fails to load is
    reported and skipped. *)
Fixpoint load_dir (w : files) (paths : list pystr) : run (list card) :=
  match paths with
  | [] => mret []
  | json_path :: paths' =>
      cards_in_file ←
        match read_cards w json_path with
        | inr cards_in_file =>
            emit (Print (py "Loaded "
                           ++ str_of_Z (Z.of_nat (length cards_in_file))
                           ++ py " cards from " ++ path_name json_path));;
            mret cards_in_file
        | inl e =>
            emit (Print (py "Fehler in " ++ path_name json_path
                           ++ py ": " ++ e));;
            mret []
        end;
      cards ← load_dir w paths';
      mret (cards_in_file ++ cards)
  end.

(** The [cards] list of [main]. *)
Definition load_cards (w : files) (cards_path : pystr) : run (list card) :=
  if is_file w cards_path then
    match read_cards w cards_path with
    | inr cards => mret cards
    | inl e => fail (LoadError e)
    end
  else if is_dir w cards_path then load_dir w (sorted (glob_json w cards_path))
  else mret [].

Section main.
Context `{UnicodeTables}.

(** The loop [for card in cards: made.append(build_svg(card, output_path))]:
    each card's document is written as it is built; [made] holds the names
    of the files under [output_path]. *)
Fixpoint write_cards (fs : filesystem) (output_path : pystr)
  (cards : list card) : run (list pystr) :=
  match cards with
  | [] => mret []
  | c :: cards' =>
      match build_svg fs c with
      | Raise e => fail (BuildError e)
      | Ok (name, svg) =>
          emit (WriteText output_path name svg);;
          made ← write_cards fs output_path cards';
          mret (name :: made)
      end
  end.

Fixpoint print_names (made : list pystr) : run unit :=
  match made with
  | [] => mret tt
  | name :: made' => emit (Print (py " - " ++ name));; print_names made'
  end.

(** [main(cards_path, output_path)] *)
Definition main (w : files) (cards_path output_path : pystr) : run unit :=
  cards ← load_cards w cards_path;
  emit (Mkdir output_path);;
  made ← write_cards (art_files w) output_path cards;
  emit (Print (py "Generated " ++ str_of_Z (Z.of_nat (length made))
                 ++ py " cards into: " ++ resolve w output_path));;
  print_names made.

End main.

(** The files a trace leaves: what was last written under each path. *)
Definition written (trace : list event) : gmap (pystr * pystr) pystr :=
  foldl (fun m ev =>
           match ev with
           | WriteText dir name text => <[(dir, name) := text]> m
           | _ => m
           end) ∅ trace.

(** The lines a trace printed. *)
Definition printed (trace : list event) : list pystr :=
  trace ≫= fun ev =>
    match ev with
    | Print line => [line]
    | _ => []
    end.

End GenerateCards.

(** A card that has a name and, perhaps, a theme, and nothing else. *)
Definition named_card (name : pystr) (theme : option (gmap string value))
  : card := {|
  card_theme := theme; card_rarity := None; card_name := Some name;
  card_art_path := None; card_type_line := None; card_rules_text := None;
  card_flavor_text := None; card_pt := None; card_price := None;
  card_weight := None; card_set_code := None; card_collector := None;
  card_author := None; card_copyright := None
|}.

(** Two cards whose names differ only in an unsafe character. *)
Definition twin_cards : list card :=
  [named_card (py "Fire Bolt") None; named_card (py "Fire/Bolt") None].

(** Three cards, the second with a canvas size that does not unpack. *)
Definition broken_cards : list card :=
  [ named_card (py "Fire Bolt") None;
    named_card (py "Ice") (Some {["card_sz" := VStr (py "big")]});
    named_card (py "Storm") None ].

(** A directory [card-db] with a file that loads and a file that does not,
    and a file [cards.json] that does not load. *)
Definition sample_files : GenerateCards.files := {|
  GenerateCards.is_file := fun p => bool_decide (p = py "cards.json");
  GenerateCards.is_dir := fun p => bool_decide (p = py "card-db");
  GenerateCards.glob_json := fun _ =>
    [py "card-db/spells.json"; py "card-db/items.json"];
  GenerateCards.read_cards := fun p =>
    if bool_decide (p = py "card-db/spells.json") then inr twin_cards
    else inl (py "Expecting value: line 1 column 1 (char 0)");
  GenerateCards.resolve := fun p => py "/home/" ++ p;
  GenerateCards.art_files := fun _ => None
|}.

Definition broken_files : GenerateCards.files := {|
  GenerateCards.is_file := fun _ => true;
  GenerateCards.is_dir := fun _ => false;
  GenerateCards.glob_json := fun _ => [];
  GenerateCards.read_cards := fun _ => inr broken_cards;
  GenerateCards.resolve := fun p => py "/home/" ++ p;
  GenerateCards.art_files := fun _ => None
|}.

(** The document [build_svg] gives for a card, empty where it raises. *)
Definition built (fs : filesystem) (c : card) : pystr * pystr :=
  match build_svg (H := ascii_tables) fs c with
  | Ok d => d
  | Raise _ => ([], [])
  end.

(** * Properties *)

(** * Properties *)

(** ** Themes *)

Lemma get_theme_lookup_ne (name : gmap string value) rarity key :
  key <> "frame_inner" ->
  get_theme name rarity !! key = (name ∪ default_theme) !! key.
Proof.
  intros Hne. unfold get_theme.
  destruct (rarity_colors !! rarity); [|done].
  by rewrite lookup_insert_ne.
Qed.

Lemma get_theme_lookup_default (name : gmap string value) rarity key :
  key <> "frame_inner" -> name !! key = None ->
  get_theme name rarity !! key = default_theme !! key.
Proof.
  intros Hne Hnone. rewrite get_theme_lookup_ne by done.
  by apply lookup_union_r.
Qed.

(** C7: a rarity of the palette sets the inner accent colour to its palette
    entry, whatever the override map holds; any other rarity keeps the
    colour of the merged theme, which is the default ["#B0B0B0"] when the
    override map has no ["frame_inner"]. ["Legendary"] with no override
    resolves to ["#CF9F9F"]; ["VeryRare"], which is no key of the palette,
    keeps the default. *)
Theorem get_theme_rarity_accent (name : gmap string value) (rarity : pystr) :
  (forall colour,
      rarity_colors !! rarity = Some colour ->
      get_theme name rarity !! "frame_inner" = Some (VStr colour)) /\
  (rarity_colors !! rarity = None ->
      get_theme name rarity !! "frame_inner"
      = (name ∪ default_theme) !! "frame_inner") /\
  (rarity_colors !! rarity = None -> name !! "frame_inner" = None ->
      get_theme name rarity !! "frame_inner" = Some (VStr (py "#B0B0B0"))) /\
  rarity_colors !! py "Legendary" = Some (py "#CF9F9F") /\
  get_theme ∅ (py "Legendary") !! "frame_inner" = Some (VStr (py "#CF9F9F")) /\
  rarity_colors !! py "VeryRare" = None /\
  get_theme ∅ (py "VeryRare") !! "frame_inner" = Some (VStr (py "#B0B0B0")).
Proof.
  repeat split.
  - intros colour Hc. unfold get_theme. rewrite Hc. apply lookup_insert_eq.
  - intros Hn. unfold get_theme. by rewrite Hn.
  - intros Hn Hname. unfold get_theme. rewrite Hn.
    by rewrite lookup_union_r.
Qed.

Lemma get_theme_rarity_accent_witness :
  get_theme {[ "frame_inner" := VStr (py "#000") ]} (py "Rare")
    !! "frame_inner" = Some (VStr (py "#B8D8F1")) /\
  get_theme {[ "title_bg" := VStr (py "#fff") ]} (py "Mythic")
    !! "frame_inner" = Some (VStr (py "#B0B0B0")).
Proof.
  split.
  - apply (proj1 (get_theme_rarity_accent
                    {[ "frame_inner" := VStr (py "#000") ]} (py "Rare"))).
    reflexivity.
  - apply (proj1 (proj2 (proj2 (get_theme_rarity_accent
                    {[ "title_bg" := VStr (py "#fff") ]} (py "Mythic")))));
      reflexivity.
Defined.

Lemma elem_of_region_keys_inner : "inner_rec" ∈ region_keys.
Proof. unfold region_keys. set_solver. Qed.

Lemma elem_of_region_keys_title : "title_rec" ∈ region_keys.
Proof. unfold region_keys. set_solver. Qed.

(** C1, as stated, fails on the default theme: the inner frame is the
    backdrop of every band, so it overlaps the title bar. *)
Lemma default_theme_frame_overlaps_title :
  ~ regions_disjoint_in_canvas (get_theme ∅ (py "Common")).
Proof.
  intros [Hdisjoint _].
  apply (Hdisjoint "inner_rec" "title_rec" (12, 12, 720, 1015) (18, 18, 708, 52)).
  - apply elem_of_region_keys_inner.
  - apply elem_of_region_keys_title.
  - discriminate.
  - reflexivity.
  - reflexivity.
  - unfold overlaps. lia.
Qed.

Lemma geometry_keys_not_accent : "frame_inner" ∉ geometry_keys.
Proof.
  unfold geometry_keys, region_keys. intros Hin.
  repeat (apply elem_of_cons in Hin as [Hin | Hin]; [discriminate|]).
  by apply elem_of_nil in Hin.
Qed.

Lemma get_theme_geometry (name : gmap string value) rarity key :
  (forall key, key ∈ geometry_keys -> name !! key = None) ->
  key ∈ geometry_keys ->
  get_theme name rarity !! key = default_theme !! key.
Proof.
  intros Hname Hin. apply get_theme_lookup_default; [|by apply Hname].
  intros ->. by apply geometry_keys_not_accent.
Qed.

(** C1, amended: when the override map leaves the geometry keys alone, the
    canvas is 744 by 1039, the inner frame lies inside it, and the title,
    art, type and rules bands and the three badge boxes as drawn lie inside
    the inner frame and are pairwise disjoint, whatever the rarity. *)
Theorem default_geometry_bands_disjoint
  (name : gmap string value) (rarity : pystr) :
  (forall key, key ∈ geometry_keys -> name !! key = None) ->
  let theme := get_theme name rarity in
  exists frame bands,
    canvas theme = Some (0, 0, 744, 1039) /\
    region theme "inner_rec" = Some frame /\
    band_rects theme = Some <$> bands /\
    inside frame (0, 0, 744, 1039) /\
    (forall b, b ∈ bands -> inside b frame) /\
    (forall i j b1 b2,
        i <> j -> bands !! i = Some b1 -> bands !! j = Some b2 ->
        ~ overlaps b1 b2).
Proof.
  intros Hname theme.
  pose proof (fun key => get_theme_geometry name rarity key Hname) as Hkey.
  fold theme in Hkey.
  exists (12, 12, 720, 1015).
  exists [ (18, 18, 708, 52); (18, 76, 708, 430); (18, 512, 708, 52);
           (18, 570, 708, 360); (576, 936, 150, 54); (420, 936, 150, 54);
           (264, 936, 150, 54) ].
  assert (Hsz : theme !! "card_sz" = Some (VPair 744 1039))
    by (rewrite Hkey; [reflexivity | by apply list_elem_of_In; simpl; tauto]).
  assert (Hinner : theme !! "inner_rec" = Some (VRect 12 12 720 1015))
    by (rewrite Hkey; [reflexivity | by apply list_elem_of_In; simpl; tauto]).
  assert (Htitle : theme !! "title_rec" = Some (VRect 18 18 708 52))
    by (rewrite Hkey; [reflexivity | by apply list_elem_of_In; simpl; tauto]).
  assert (Hart : theme !! "art_rec" = Some (VRect 18 76 708 430))
    by (rewrite Hkey; [reflexivity | by apply list_elem_of_In; simpl; tauto]).
  assert (Htype : theme !! "type_rec" = Some (VRect 18 512 708 52))
    by (rewrite Hkey; [reflexivity | by apply list_elem_of_In; simpl; tauto]).
  assert (Hrules : theme !! "rules_rec" = Some (VRect 18 570 708 360))
    by (rewrite Hkey; [reflexivity | by apply list_elem_of_In; simpl; tauto]).
  assert (Hopt : theme !! "opt_box" = Some (VRect 726 936 150 54))
    by (rewrite Hkey; [reflexivity | by apply list_elem_of_In; simpl; tauto]).
  clearbody theme. clear Hkey.
  unfold band_rects, region, badge_box, canvas.
  rewrite Hsz, Hinner, Htitle, Hart, Htype, Hrules, Hopt.
  split; [reflexivity|]. split; [reflexivity|]. split; [reflexivity|].
  split; [unfold inside; lia|]. split.
  - intros b Hb. unfold inside.
    repeat (apply elem_of_cons in Hb as [-> | Hb]; [lia|]).
    by apply elem_of_nil in Hb.
  - intros i j b1 b2 Hij Hi Hj. unfold overlaps.
    destruct i as [|[|[|[|[|[|[|i]]]]]]];
      destruct j as [|[|[|[|[|[|[|j]]]]]]];
      simpl in Hi, Hj; try discriminate; try congruence;
      injection Hi as <-; injection Hj as <-; lia.
Qed.

Lemma default_geometry_bands_disjoint_witness :
  exists frame bands,
    canvas (get_theme {[ "title_bg" := VStr (py "#fff") ]} (py "Rare"))
      = Some (0, 0, 744, 1039) /\
    region (get_theme {[ "title_bg" := VStr (py "#fff") ]} (py "Rare"))
      "inner_rec" = Some frame /\
    band_rects (get_theme {[ "title_bg" := VStr (py "#fff") ]} (py "Rare"))
      = Some <$> bands /\
    inside frame (0, 0, 744, 1039) /\
    (forall b, b ∈ bands -> inside b frame) /\
    (forall i j b1 b2,
        i <> j -> bands !! i = Some b1 -> bands !! j = Some b2 ->
        ~ overlaps b1 b2).
Proof.
  apply (default_geometry_bands_disjoint
           {[ "title_bg" := VStr (py "#fff") ]} (py "Rare")).
  intros key Hin. unfold geometry_keys, region_keys in Hin.
  apply lookup_singleton_ne. intros <-.
  repeat (apply elem_of_cons in Hin as [Hin | Hin]; [discriminate|]).
  by apply elem_of_nil in Hin.
Defined.

(** ** Sheets *)

(** Python's [//] is [Z]'s floor division: the origin leaves at most one
    pixel more on the right than on the left. *)
Lemma floor_centering (sheet total : Z) :
  let x0 := (sheet - total) / 2 in
  0 <= sheet - (2 * x0 + total) <= 1.
Proof.
  intros x0. unfold x0.
  pose proof (Z.div_mod (sheet - total) 2 ltac:(lia)) as Hdm.
  pose proof (Z.mod_pos_bound (sheet - total) 2 ltac:(lia)) as Hb.
  lia.
Qed.

(** C3: an A4 portrait page at 300 dpi is 2480 pixels wide (8.267716535
    inches times 300, rounded); for three columns of 744 pixels and an
    18-pixel gutter the first cell origin is the floor of half the free
    width, 106, and [2*x0 + 3*744 + 2*18] is within one pixel of 2481. *)
Theorem a4_grid_centered (margin_px : Z) :
  exists sheet_w sheet_h x0 y0 rest,
    a4_dimensions 300 (py "a4portrait") = Ok (sheet_w, sheet_h) /\
    layout_positions sheet_w sheet_h 744 1039 3 3 margin_px 18
      = (x0, y0) :: rest /\
    sheet_w = 2480 /\
    x0 = (sheet_w - (3 * 744 + 2 * 18)) / 2 /\
    Z.abs (2 * x0 + 3 * 744 + 2 * 18 - 2481) <= 1.
Proof.
  exists 2480, 3508, 106, 177.
  eexists. split; [vm_compute; reflexivity|].
  split; [vm_compute; reflexivity|].
  split; [reflexivity|]. split; [reflexivity|]. vm_compute. discriminate.
Qed.

(** C10: the outer margin is accepted and never used: the cell origins, and
    with them the whole run of [make_sheets], are the same for any two
    margins. *)
Theorem margin_never_affects_placement
  (w : world) (svg_paths : list pystr) (out_pdf : pystr) (dpi : Z)
  (orientation : pystr) (sheet_w sheet_h card_w card_h cols rows gutter_px : Z)
  (add_crop : bool) (margin1 margin2 : Z) :
  layout_positions sheet_w sheet_h card_w card_h cols rows margin1 gutter_px
  = layout_positions sheet_w sheet_h card_w card_h cols rows margin2 gutter_px
  /\
  make_sheets w svg_paths out_pdf dpi orientation cols rows margin1 gutter_px
    card_w card_h add_crop
  = make_sheets w svg_paths out_pdf dpi orientation cols rows margin2 gutter_px
      card_w card_h add_crop.
Proof. split; reflexivity. Qed.

(** *** Pagination *)

Lemma length_bind_const {A B} (f : A -> list B) (l : list A) (k : nat) :
  (forall a, length (f a) = k) -> length (l ≫= f) = (length l * k)%nat.
Proof.
  intros Hf. induction l as [|a l IH]; [done|].
  rewrite bind_cons, length_app, Hf, IH. simpl. lia.
Qed.

Lemma length_range (n : Z) : length (range n) = Z.to_nat n.
Proof. unfold range. by rewrite length_seqZ. Qed.

Lemma length_layout_positions sheet_w sheet_h card_w card_h cols rows m g :
  length (layout_positions sheet_w sheet_h card_w card_h cols rows m g)
  = (Z.to_nat rows * Z.to_nat cols)%nat.
Proof.
  unfold layout_positions.
  rewrite (length_bind_const _ _ (Z.to_nat cols)).
  - by rewrite length_range.
  - intros r. rewrite (length_bind_const _ _ 1%nat); [|done].
    rewrite length_range. lia.
Qed.

Lemma range3_forward (stop step : Z) :
  0 < step ->
  range3 0 stop step
  = Ok ((fun k => Z.of_nat k * step) <$> seq 0 (Z.to_nat ((stop + step - 1) / step))).
Proof.
  intros Hstep. unfold range3.
  destruct (Z.eqb_spec step 0); [lia|].
  destruct (Z.ltb_spec 0 step); [|lia].
  f_equal. unfold range, seqZ. rewrite <- list_fmap_compose.
  replace (stop - 0 + step - 1) with (stop + step - 1) by lia.
  apply list_fmap_ext. intros i k _. simpl. lia.
Qed.

Lemma slice_chunk {A} (l : list A) (k pp : nat) (lo per : Z) :
  lo = Z.of_nat (k * pp) -> per = Z.of_nat pp ->
  (k * pp <= length l)%nat ->
  slice l lo (lo + per) = take pp (drop (k * pp) l).
Proof.
  intros -> -> Hle. unfold slice.
  destruct (Z.ltb_spec (Z.of_nat (k * pp)) 0); [lia|].
  destruct (Z.ltb_spec (Z.of_nat (k * pp) + Z.of_nat pp) 0); [lia|].
  rewrite (Z.min_l (Z.of_nat (k * pp))) by lia.
  rewrite Nat2Z.id.
  destruct (decide (k * pp + pp <= length l)%nat) as [Hfit | Hover].
  - rewrite Z.min_l by lia. f_equal. lia.
  - rewrite Z.min_r by lia.
    rewrite !take_ge; [done | rewrite length_drop; lia | rewrite length_drop; lia].
Qed.

Lemma concat_chunks {A} (l : list A) (pp m : nat) :
  concat ((fun k => take pp (drop (k * pp) l)) <$> seq 0 m) = take (m * pp) l.
Proof.
  induction m as [|m IH]; [done|].
  rewrite seq_S, fmap_app, concat_app, IH. simpl.
  rewrite app_nil_r, take_take_drop. f_equal. lia.
Qed.

Lemma pasted_images sheet_w sheet_h card_w card_h add_crop
  (positions : list (Z * Z)) (chunk : list pystr) :
  (length chunk <= length positions)%nat ->
  (page_pasted
     (make_page sheet_w sheet_h card_w card_h add_crop positions chunk)).*1
  = chunk.
Proof. intros Hle. simpl. by apply fst_zip. Qed.

Lemma ceil_div_bounds (n pp : Z) :
  0 < pp -> 0 <= n ->
  let m := (n + pp - 1) / pp in
  (m - 1) * pp < n <= m * pp /\ 0 <= m.
Proof.
  intros Hpp Hn m. unfold m.
  pose proof (Z.div_mod (n + pp - 1) pp ltac:(lia)) as Hdm.
  pose proof (Z.mod_pos_bound (n + pp - 1) pp Hpp) as Hb.
  assert (0 <= (n + pp - 1) / pp) by (apply Z.div_pos; lia).
  nia.
Qed.

Lemma make_pages_forward sheet_w sheet_h card_w card_h add_crop
  (positions : list (Z * Z)) (per_page : Z) (pngs : list pystr) :
  0 < per_page ->
  let pp := Z.to_nat per_page in
  let m := Z.to_nat ((Z.of_nat (length pngs) + per_page - 1) / per_page) in
  make_pages sheet_w sheet_h card_w card_h add_crop positions per_page pngs
  = Ok ((fun k =>
           make_page sheet_w sheet_h card_w card_h add_crop positions
             (take pp (drop (k * pp) pngs))) <$> seq 0 m).
Proof.
  intros Hpp pp m. unfold make_pages.
  rewrite range3_forward by done. simpl. f_equal.
  rewrite <- list_fmap_compose.
  apply list_fmap_ext. intros k k' Hk. simpl.
  apply lookup_seq in Hk as [Hkk Hk]. simpl in Hkk. subst k'. fold m in Hk.
  pose proof (ceil_div_bounds (Z.of_nat (length pngs)) per_page Hpp
                ltac:(lia)) as [[Hlo _] Hm].
  f_equal.
  apply slice_chunk; unfold m, pp in *; nia.
Qed.

(** C2: for a non-empty sequence of images and a grid of at least one
    column and one row, the page loop yields ceil(len/(cols*rows)) pages;
    page k holds the images from k*cols*rows on, in input order, every page
    but the last holds cols*rows of them and the last the remainder, and
    the pages together hold the input sequence. (At fifteen images on a
    3 by 3 grid: two pages, of nine and of six.) *)
Theorem make_pages_partition
  (sheet_w sheet_h card_w card_h cols rows margin_px gutter_px : Z)
  (add_crop : bool) (pngs : list pystr) :
  pngs <> [] -> 1 <= cols -> 1 <= rows ->
  let positions :=
    layout_positions sheet_w sheet_h card_w card_h cols rows
      margin_px gutter_px in
  let per_page := cols * rows in
  let n := Z.of_nat (length pngs) in
  exists pages,
    make_pages sheet_w sheet_h card_w card_h add_crop positions per_page pngs
      = Ok pages /\
    Z.of_nat (length pages) = (n + per_page - 1) / per_page /\
    (Z.of_nat (length pages) - 1) * per_page < n
      <= Z.of_nat (length pages) * per_page /\
    (forall k page,
        pages !! k = Some page ->
        (page_pasted page).*1
        = take (Z.to_nat per_page) (drop (k * Z.to_nat per_page) pngs)) /\
    (forall k page,
        pages !! k = Some page -> (S k < length pages)%nat ->
        Z.of_nat (length (page_pasted page)) = per_page) /\
    (forall page,
        last pages = Some page ->
        Z.of_nat (length (page_pasted page))
        = n - (Z.of_nat (length pages) - 1) * per_page) /\
    concat ((fun page => (page_pasted page).*1) <$> pages) = pngs.
Proof.
  intros Hne Hcols Hrows positions per_page n.
  assert (Hpp : 0 < per_page) by (unfold per_page; nia).
  assert (Hn : 0 < n) by (unfold n; destruct pngs; simpl; [done | lia]).
  set (pp := Z.to_nat per_page).
  set (m := Z.to_nat ((n + per_page - 1) / per_page)).
  pose proof (ceil_div_bounds n per_page Hpp ltac:(lia)) as [Hceil Hm].
  assert (Hpos : length positions = pp).
  { unfold positions, pp, per_page.
    rewrite length_layout_positions. nia. }
  assert (Hpaste : forall k,
             (page_pasted
                (make_page sheet_w sheet_h card_w card_h add_crop positions
                   (take pp (drop (k * pp) pngs)))).*1
             = take pp (drop (k * pp) pngs)).
  { intros k. apply pasted_images. rewrite length_take, Hpos. lia. }
  eexists. split; [by apply make_pages_forward|].
  fold n. fold pp m. rewrite length_fmap, length_seq.
  assert (Hmz : Z.of_nat m = (n + per_page - 1) / per_page)
    by (unfold m; lia).
  split; [done|]. split; [lia|].
  assert (Hchunk : forall k, (S k < m)%nat ->
                     length (take pp (drop (k * pp) pngs)) = pp).
  { intros k Hk. rewrite length_take, length_drop.
    assert (Z.of_nat (S k * pp) <= n - 0); [|unfold n in *; lia].
    unfold pp. nia. }
  split; [|split; [|split]].
  - intros k page Hk.
    apply list_lookup_fmap_Some in Hk as (k' & -> & Hk).
    apply lookup_seq in Hk as [Hkk _]. simpl in Hkk. subst k'. apply Hpaste.
  - intros k page Hk Hlt.
    apply list_lookup_fmap_Some in Hk as (k' & -> & Hk).
    apply lookup_seq in Hk as [Hkk _]. simpl in Hkk. subst k'.
    rewrite <- (length_fmap fst), Hpaste, Hchunk by done. unfold pp. lia.
  - intros page Hlast.
    rewrite last_lookup, length_fmap, length_seq in Hlast.
    apply list_lookup_fmap_Some in Hlast as (k' & -> & Hk).
    apply lookup_seq in Hk as [Hkk Hk]. simpl in Hkk. subst k'.
    rewrite <- (length_fmap fst), Hpaste, length_take, length_drop.
    unfold pp, n in *. nia.
  - rewrite <- list_fmap_compose.
    rewrite (list_fmap_ext _ (fun k => take pp (drop (k * pp) pngs))
               (seq 0 m)) by (intros i k _; apply Hpaste).
    rewrite concat_chunks. apply take_ge. unfold pp, n in *. nia.
Qed.

Lemma make_pages_partition_witness :
  exists pages,
    make_pages 2480 3508 744 1039 false
      (layout_positions 2480 3508 744 1039 3 3 60 18) (3 * 3) fifteen_pngs
    = Ok pages /\
    length pages = 2%nat /\
    (forall page, pages !! 0%nat = Some page ->
       length (page_pasted page) = 9%nat) /\
    (forall page, pages !! 1%nat = Some page ->
       length (page_pasted page) = 6%nat) /\
    concat ((fun page => (page_pasted page).*1) <$> pages) = fifteen_pngs.
Proof.
  destruct (make_pages_partition 2480 3508 744 1039 3 3 60 18 false
              fifteen_pngs ltac:(discriminate) ltac:(lia) ltac:(lia))
    as (pages & Hpages & Hlen & _ & _ & Hfull & Hlast & Hall).
  exists pages. split; [exact Hpages|].
  assert (Hlen2 : length pages = 2%nat).
  { change (Z.of_nat (length fifteen_pngs)) with 15 in Hlen.
    change ((15 + 3 * 3 - 1) / (3 * 3)) with 2 in Hlen. lia. }
  split; [exact Hlen2|]. split; [|split; [|exact Hall]].
  - intros page Hp.
    pose proof (Hfull 0%nat page Hp ltac:(lia)) as H9. lia.
  - intros page Hp.
    assert (Hl : last pages = Some page)
      by (rewrite last_lookup, Hlen2; exact Hp).
    pose proof (Hlast page Hl) as H6.
    change (Z.of_nat (length fifteen_pngs)) with 15 in H6. lia.
Defined.

(** ** Requests *)

Section collect.
Context `{UnicodeTables}.

Lemma card_index_snoc (files : list pystr) (p : pystr) :
  card_index (files ++ [p])
  = <[str_lower (path_stem p) := p]> (card_index files).
Proof. unfold card_index. by rewrite foldl_app. Qed.

(** A key of the index maps to a file of the directory with that lowered
    stem. *)
Lemma card_index_sound (files : list pystr) (key p : pystr) :
  card_index files !! key = Some p ->
  p ∈ files /\ str_lower (path_stem p) = key.
Proof.
  induction files as [|q files IH] using rev_ind; [done|].
  rewrite card_index_snoc.
  destruct (decide (str_lower (path_stem q) = key)) as [<- | Hne].
  - rewrite lookup_insert_eq. intros [= ->].
    split; [apply elem_of_app; right; apply list_elem_of_here | done].
  - rewrite lookup_insert_ne by done. intros Hp.
    destruct (IH Hp) as [Hin Hkey].
    split; [apply elem_of_app; by left | done].
Qed.

(** Every lowered stem of the directory is a key of the index. *)
Lemma card_index_complete (files : list pystr) (p : pystr) :
  p ∈ files -> is_Some (card_index files !! str_lower (path_stem p)).
Proof.
  induction files as [|q files IH] using rev_ind; [by intros ?%elem_of_nil|].
  rewrite card_index_snoc. intros Hin.
  destruct (decide (str_lower (path_stem q) = str_lower (path_stem p)))
    as [-> | Hne].
  - rewrite lookup_insert_eq. by eexists.
  - rewrite lookup_insert_ne by done. apply IH.
    apply elem_of_app in Hin as [Hin | Hin]; [done|].
    apply list_elem_of_singleton in Hin as ->. done.
Qed.

Lemma card_index_unresolved (files : list pystr) (base : pystr) :
  (forall p, p ∈ files -> str_lower (path_stem p) <> str_lower base) <->
  card_index files !! str_lower base = None.
Proof.
  split.
  - intros Hnone. destruct (card_index files !! str_lower base) as [p|] eqn:Hp;
      [|done].
    apply card_index_sound in Hp as [Hin Hkey]. by destruct (Hnone p Hin).
  - intros Hnone p Hin Heq.
    destruct (card_index_complete files p Hin) as [q Hq].
    rewrite Heq, Hnone in Hq. done.
Qed.

Lemma collect_requests_ok (index : gmap pystr pystr)
  (requests : list (pystr * Z)) (out : list pystr) :
  collect_requests index requests = Ok out ->
  exists ps,
    Forall2 (fun r p => index !! str_lower r.1 = Some p) requests ps /\
    out = concat (zip_with (fun r p => replicate (Z.to_nat r.2) p) requests ps).
Proof.
  revert out. induction requests as [|[base count] requests IH];
    intros out Hout; simpl in Hout.
  - injection Hout as <-. exists []. split; [constructor | done].
  - destruct (index !! str_lower base) as [p|] eqn:Hp; [|done].
    destruct (collect_requests index requests) as [out'|] eqn:Hrest; [|done].
    injection Hout as <-.
    destruct (IH out' eq_refl) as (ps & Hall & ->).
    exists (p :: ps). split; [by constructor | done].
Qed.

Lemma collect_requests_raise (index : gmap pystr pystr)
  (requests : list (pystr * Z)) (base : pystr) (count : Z) :
  (base, count) ∈ requests -> index !! str_lower base = None ->
  exists b c,
    (b, c) ∈ requests /\ index !! str_lower b = None /\
    collect_requests index requests = Raise (FileNotFoundError b).
Proof.
  induction requests as [|[b c] requests IH]; [by intros ?%elem_of_nil|].
  intros Hin Hnone. simpl.
  destruct (index !! str_lower b) as [p|] eqn:Hb.
  - apply elem_of_cons in Hin as [[= -> ->] | Hin]; [congruence|].
    destruct (IH Hin Hnone) as (b' & c' & Hin' & Hnone' & ->).
    exists b', c'. split; [by apply list_elem_of_further | done].
  - exists b, c. split; [apply list_elem_of_here | done].
Qed.

Lemma collect_requests_complete (files : list pystr)
  (requests : list (pystr * Z)) :
  Forall (fun r => exists p,
            p ∈ files /\ str_lower (path_stem p) = str_lower r.1) requests ->
  exists ps,
    Forall2 (fun r p =>
               p ∈ files /\ str_lower (path_stem p) = str_lower r.1)
      requests ps /\
    collect_requests (card_index files) requests
    = Ok (concat (zip_with (fun r p => replicate (Z.to_nat r.2) p)
                    requests ps)).
Proof.
  induction 1 as [|[base count] requests (q & Hq & Hstem) _ (ps & Hall & Hout)].
  { exists []. split; [constructor | done]. }
  simpl in Hstem.
  destruct (card_index_complete files q Hq) as [p Hp].
  rewrite Hstem in Hp.
  exists (p :: ps). split.
  - constructor; [|done]. by apply card_index_sound in Hp.
  - simpl. by rewrite Hp, Hout.
Qed.

(** C8: a request list that [collect_files] accepts resolves every
    identifier to a file of the directory whose lowered stem is the lowered
    identifier, repeated by its count; when a request of the parsed
    list has no such file, [main] raises [FileNotFoundError] for an
    unresolvable identifier with an empty trace: no temporary directory,
    no rasterization, no document, no output line; and a request list of
    which every identifier has such a file is accepted: [collect_files]
    returns, for files matching the identifiers without regard to case,
    each file repeated by its count. *)
Theorem unresolved_request_fails_before_rasterizing (w : world) (a : args) :
  (forall requests out,
      collect_files w (args_cards a) requests = Ok out ->
      exists ps,
        Forall2 (fun r p =>
                   p ∈ glob_svg w (args_cards a) /\
                   str_lower (path_stem p) = str_lower r.1) requests ps /\
        out = concat (zip_with (fun r p => replicate (Z.to_nat r.2) p)
                        requests ps)) /\
  (forall requests base count,
      parse_adds (args_add a) = Ok requests ->
      (base, count) ∈ requests ->
      (forall p, p ∈ glob_svg w (args_cards a) ->
                 str_lower (path_stem p) <> str_lower base) ->
      exists b c,
        (b, c) ∈ requests /\
        (forall p, p ∈ glob_svg w (args_cards a) ->
                   str_lower (path_stem p) <> str_lower b) /\
        main w a = ([], Raise (FileNotFoundError b))) /\
  (forall requests,
      Forall (fun r => exists p,
                p ∈ glob_svg w (args_cards a) /\
                str_lower (path_stem p) = str_lower r.1) requests ->
      exists ps,
        Forall2 (fun r p =>
                   p ∈ glob_svg w (args_cards a) /\
                   str_lower (path_stem p) = str_lower r.1) requests ps /\
        collect_files w (args_cards a) requests
        = Ok (concat (zip_with (fun r p => replicate (Z.to_nat r.2) p)
                        requests ps))).
Proof.
  split; [|split].
  - intros requests out Hout.
    apply collect_requests_ok in Hout as (ps & Hall & ->).
    exists ps. split; [|done].
    eapply Forall2_impl; [exact Hall|].
    intros r p Hp. by apply card_index_sound in Hp.
  - intros requests base count Hparse Hin Hnone.
    apply card_index_unresolved in Hnone.
    destruct (collect_requests_raise _ _ _ _ Hin Hnone)
      as (b & c & Hin' & Hnone' & Hraise).
    exists b, c. split; [done|]. split; [by apply card_index_unresolved|].
    unfold main. rewrite Hparse. simpl.
    destruct requests as [|r requests]; [by apply elem_of_nil in Hin|].
    unfold collect_files. rewrite Hraise. reflexivity.
  - intros requests Hall. by apply collect_requests_complete.
Qed.

End collect.

Lemma unresolved_request_fails_before_rasterizing_witness :
  (exists b c,
     (b, c) ∈ [(py "sword_of_the_autumn_wolf", 2); (py "Nope", 1)] /\
     (forall p, p ∈ glob_svg scenario_world (py "cards") ->
                ascii_lower (path_stem p) <> ascii_lower b) /\
     main (H := ascii_tables) scenario_world
       (scenario_args [py "sword_of_the_autumn_wolf=2"; py "Nope=1"])
     = ([], Raise (FileNotFoundError b))) /\
  (exists ps,
     Forall2 (fun r p =>
                p ∈ glob_svg scenario_world (py "cards") /\
                ascii_lower (path_stem p) = ascii_lower r.1)
       [(py "SWORD_of_the_autumn_wolf", 2); (py "potion_OF_brightmind", 1)]
       ps /\
     collect_files (H := ascii_tables) scenario_world (py "cards")
       [(py "SWORD_of_the_autumn_wolf", 2); (py "potion_OF_brightmind", 1)]
     = Ok (concat (zip_with (fun r p => replicate (Z.to_nat r.2) p)
                     [(py "SWORD_of_the_autumn_wolf", 2);
                      (py "potion_OF_brightmind", 1)] ps))).
Proof.
  pose proof (unresolved_request_fails_before_rasterizing
                (H := ascii_tables) scenario_world
                (scenario_args [py "sword_of_the_autumn_wolf=2"; py "Nope=1"]))
    as (_ & Hfail & Hfound).
  split.
  - apply (Hfail _ (py "Nope") 1).
    + reflexivity.
    + apply list_elem_of_further, list_elem_of_here.
    + intros p Hp. simpl in Hp.
      apply elem_of_cons in Hp as [-> | Hp]; [discriminate|].
      apply elem_of_cons in Hp as [-> | Hp]; [discriminate|].
      by apply elem_of_nil in Hp.
  - apply Hfound. repeat constructor.
    + exists (py "cards/Sword_of_the_Autumn_Wolf.svg"). split; [|reflexivity].
      apply list_elem_of_here.
    + exists (py "cards/Potion_of_Brightmind.svg"). split; [|reflexivity].
      apply list_elem_of_further, list_elem_of_here.
Defined.

(** Scenario A: ten and five copies of two cards on a 3 by 3 grid are
    rasterized one by one, fifteen times, and saved as one document of two
    pages, with nine and six cards. *)
Example scenario_A_two_pages :
  let run :=
    main (H := ascii_tables) scenario_world
      (scenario_args [py "Sword_of_the_Autumn_Wolf=10";
                      py "Potion_of_Brightmind=5"]) in
  run.2 = Ok tt /\
  length (rasterized run.1) = 15%nat /\
  saved_page_sizes run.1 = [[9; 6]%nat].
Proof. vm_compute. done. Qed.

(** ** Stat badges *)

Lemma badges_positions (els : list (option pystr)) (x tx w : Z) :
  badges x tx w els
  = imap (fun i el =>
            (x - Z.of_nat i * (w + 6) - w, tx - Z.of_nat i * (w + 6), el))
      (field_texts els).
Proof.
  revert x tx. induction els as [|el els IH]; intros x tx; [done|].
  unfold field_texts. rewrite bind_cons. fold (field_texts els).
  destruct el as [[|c s]|]; simpl; try apply IH.
  rewrite IH. apply (f_equal2 cons).
  - repeat (f_equal; try lia).
  - apply imap_ext. intros i el _. simpl. repeat (f_equal; try lia).
Qed.

Lemma length_field_texts (els : list (option pystr)) :
  length (field_texts els) = length (filter (fun el => truthy el = true) els).
Proof.
  induction els as [|el els IH]; [done|].
  unfold field_texts. rewrite bind_cons. fold (field_texts els).
  rewrite filter_cons.
  destruct el as [[|c s]|]; simpl; rewrite ?IH; done.
Qed.

(** C6, as stated, fails for a field that is present and empty: [if el:]
    skips it, so a card with ["pt": ""] and no other stat field has a
    present field and no badge. *)
Lemma empty_field_has_no_badge :
  optional_badges (get_theme ∅ (py "Common")) (Some []) None None = Ok [] /\
  ~ badge_per_present_field (get_theme ∅ (py "Common")).
Proof.
  split; [reflexivity|].
  intros Hclaim. destruct (Hclaim (Some []) None None) as (bs & Hbs & Hlen).
  change (optional_badges (get_theme ∅ (py "Common")) (Some []) None None)
    with (@Ok (list (Z * Z * pystr)) []) in Hbs.
  injection Hbs as <-. discriminate Hlen.
Qed.

(** C6, amended: for the three stat fields, one badge is emitted for each
    field that is present and not empty, in field order; the i-th emitted
    badge's box starts at [x - i*(w + 6) - w], so the first ends at the
    right edge [x] of the region and each next one lies [w + 6] further
    left, with no gap for a skipped field; when no field is truthy there is
    no badge and the optional string is empty; the rules rectangle of the
    resolved theme does not depend on the stat fields. *)
Theorem badges_right_to_left
  (theme : gmap string value) (x y w h tx ty fs : Z)
  (pt price weight : option pystr) :
  theme !! "opt_box" = Some (VRect x y w h) ->
  theme !! "opt_txt_rec" = Some (VTriple tx ty fs) ->
  exists bs,
    optional_badges theme pt price weight = Ok bs /\
    build_optional_str theme pt price weight
      = (fun strs => concat strs)
          <$> result_list (badge_str theme y w h ty fs) bs /\
    length bs
      = length (filter (fun el => truthy el = true) [pt; price; weight]) /\
    bs.*2 = field_texts [pt; price; weight] /\
    (forall i b, bs !! i = Some b ->
       b.1.1 = x - Z.of_nat i * (w + 6) - w) /\
    (forall b, bs !! 0%nat = Some b -> b.1.1 + w = x) /\
    (forall i b b', bs !! i = Some b -> bs !! S i = Some b' ->
       b'.1.1 = b.1.1 - (w + 6)) /\
    (truthy pt = false -> truthy price = false -> truthy weight = false ->
       bs = [] /\ build_optional_str theme pt price weight = Ok []) /\
    (forall c,
       region (resolved_theme (with_stats c pt price weight)) "rules_rec"
       = region (resolved_theme c) "rules_rec").
Proof.
  intros Hbox Htxt.
  assert (Hpos : forall i b,
             badges x tx w [pt; price; weight] !! i = Some b ->
             b.1.1 = x - Z.of_nat i * (w + 6) - w).
  { intros i b. rewrite badges_positions, list_lookup_imap.
    destruct (field_texts [pt; price; weight] !! i); [|done].
    by intros [= <-]. }
  exists (badges x tx w [pt; price; weight]).
  split; [|split; [|split; [|split; [|split; [|split; [|split; [|split]]]]]]].
  - unfold optional_badges, theme_get. rewrite Hbox, Htxt. reflexivity.
  - unfold build_optional_str, theme_get. rewrite Hbox, Htxt. reflexivity.
  - rewrite badges_positions, length_imap. apply length_field_texts.
  - rewrite badges_positions, fmap_imap.
    generalize (field_texts [pt; price; weight]). intros l.
    rewrite <- (imap_ext (fun _ el => el)); [|done].
    clear. revert l. induction l as [|el l IH]; [done|].
    simpl. f_equal. exact IH.
  - exact Hpos.
  - intros b Hb. rewrite (Hpos _ _ Hb). lia.
  - intros i b b' Hb Hb'. rewrite (Hpos _ _ Hb), (Hpos _ _ Hb'). lia.
  - intros Hpt Hprice Hweight.
    unfold build_optional_str, theme_get. rewrite Hbox, Htxt.
    destruct pt as [[|? ?]|], price as [[|? ?]|], weight as [[|? ?]|];
      try discriminate; split; reflexivity.
  - intros c. reflexivity.
Qed.

Lemma badges_right_to_left_witness :
  exists bs,
    optional_badges (get_theme ∅ (py "Common"))
      (Some (py "2/3")) None (Some (py "1 lb")) = Ok bs /\
    bs.*1.*1 = [576; 420] /\ bs.*2 = [py "2/3"; py "1 lb"].
Proof.
  assert (Hbox : get_theme ∅ (py "Common") !! "opt_box"
                 = Some (VRect 726 936 150 54)) by reflexivity.
  assert (Htxt : get_theme ∅ (py "Common") !! "opt_txt_rec"
                 = Some (VTriple 651 972 24)) by reflexivity.
  destruct (badges_right_to_left (get_theme ∅ (py "Common"))
              726 936 150 54 651 972 24
              (Some (py "2/3")) None (Some (py "1 lb")) Hbox Htxt)
    as (bs & Hbs & _).
  exists bs. split; [exact Hbs|].
  change (optional_badges (get_theme ∅ (py "Common"))
            (Some (py "2/3")) None (Some (py "1 lb")))
    with (@Ok (list (Z * Z * pystr))
            [(576, 651, py "2/3"); (420, 495, py "1 lb")]) in Hbs.
  injection Hbs as <-. split; reflexivity.
Defined.

(** ** Determinism *)

Section determinism.
Context `{UnicodeTables}.

Lemma data_uri_ext (fs1 fs2 : filesystem) (path mime : pystr) :
  fs1 path = fs2 path ->
  data_uri_for_image fs1 path mime = data_uri_for_image fs2 path mime.
Proof. intros Heq. unfold data_uri_for_image. by rewrite Heq. Qed.

Lemma build_art_str_ext (fs1 fs2 : filesystem) (theme : gmap string value)
  (art_path : option pystr) :
  (forall p, art_path = Some p -> fs1 p = fs2 p) ->
  build_art_str fs1 theme art_path = build_art_str fs2 theme art_path.
Proof.
  intros Hfs. unfold build_art_str.
  destruct art_path as [[|c p]|]; try reflexivity.
  by rewrite (data_uri_ext fs1 fs2 (c :: p)) by (by apply Hfs).
Qed.

(** C9: the file name and the document [build_svg] produces are a function
    of the card record and of the bytes of the art file it names: two runs
    on the same card, in file systems that agree on that one file, give the
    same result, character by character. *)
Theorem build_svg_deterministic (fs1 fs2 : filesystem) (c : card) :
  (forall p, card_art_path c = Some p -> fs1 p = fs2 p) ->
  build_svg fs1 c = build_svg fs2 c.
Proof.
  intros Hfs. unfold build_svg.
  by rewrite (build_art_str_ext fs1 fs2 _ _ Hfs).
Qed.

End determinism.

Lemma build_svg_deterministic_witness :
  build_svg (H := ascii_tables) sample_fs1 sample_card
  = build_svg (H := ascii_tables) sample_fs2 sample_card.
Proof.
  apply (build_svg_deterministic (H := ascii_tables)
           sample_fs1 sample_fs2 sample_card).
  intros p Hp. injection Hp as <-. reflexivity.
Defined.

(** ** Text: strings *)

Lemma lstrip_nil (s : pystr) :
  lstrip s = [] <-> Forall (fun c => isspace c = true) s.
Proof.
  induction s as [|c s IH]; [by split; [constructor|]|].
  simpl. destruct (isspace c) eqn:Hc.
  - rewrite IH. split; [by constructor | by inversion 1].
  - split; [done|]. inversion 1. congruence.
Qed.

Lemma lstrip_suffix (s : pystr) : exists pre, s = pre ++ lstrip s.
Proof.
  induction s as [|c s [pre IH]]; [by exists []|].
  simpl. destruct (isspace c).
  - exists (c :: pre). simpl. by f_equal.
  - by exists [].
Qed.

Lemma lstrip_head (s : pystr) (c : char) (t : pystr) :
  lstrip s = c :: t -> isspace c = false.
Proof.
  induction s as [|d s IH]; [done|].
  simpl. destruct (isspace d) eqn:Hd; [done|]. by intros [= <- _].
Qed.

Lemma strip_nil (s : pystr) :
  strip s = [] <-> Forall (fun c => isspace c = true) s.
Proof.
  unfold strip, rstrip. split.
  - intros Hnil. apply lstrip_nil.
    destruct (lstrip s) as [|c t] eqn:Hl; [done|].
    apply (f_equal reverse) in Hnil. rewrite reverse_involutive in Hnil.
    rewrite reverse_nil in Hnil. apply lstrip_nil in Hnil.
    rewrite Forall_reverse in Hnil. apply Forall_cons in Hnil as [Hc _].
    apply lstrip_head in Hl. congruence.
  - intros Hall. apply lstrip_nil in Hall. by rewrite Hall.
Qed.

Lemma blank_all (s : pystr) :
  blank s = true <-> Forall (fun c => isspace c = true) s.
Proof. unfold blank. rewrite bool_decide_eq_true. apply strip_nil. Qed.

Lemma blank_exists (s : pystr) (c : char) :
  c ∈ s -> isspace c = false -> blank s = false.
Proof.
  intros Hin Hc. destruct (blank s) eqn:Hb; [|done].
  apply blank_all in Hb. rewrite Forall_forall in Hb.
  specialize (Hb c Hin). congruence.
Qed.

(** *** Escaping *)

Lemma replace_char_app old new (s t : pystr) :
  replace_char old new (s ++ t)
  = replace_char old new s ++ replace_char old new t.
Proof. unfold replace_char. apply bind_app. Qed.

Lemma escape_app (s t : pystr) : escape (s ++ t) = escape s ++ escape t.
Proof. unfold escape. by rewrite !replace_char_app. Qed.

Lemma replace_char_absent old new (s : pystr) :
  old ∉ s -> replace_char old new s = s.
Proof.
  unfold replace_char. induction s as [|c s IH]; [done|].
  intros Hnot. apply not_elem_of_cons in Hnot as [Hne Hnot].
  rewrite bind_cons. destruct (N.eqb_spec c old); [congruence|].
  simpl. f_equal. by apply IH.
Qed.

(** Text without ampersand and angle brackets is escaped to itself. *)
Lemma escape_plain (s : pystr) :
  38%N ∉ s -> 60%N ∉ s -> 62%N ∉ s -> escape s = s.
Proof.
  intros H38 H60 H62. unfold escape.
  by rewrite (replace_char_absent 38), (replace_char_absent 60),
       (replace_char_absent 62).
Qed.

(** *** Splitting and joining lines *)

Lemma split_on_nonempty sep (s : pystr) : split_on sep s <> [].
Proof.
  destruct s as [|c s]; [done|]. simpl.
  destruct (c =? sep)%N; [done|]. by destruct (split_on sep s).
Qed.

Lemma split_on_absent sep (s : pystr) : sep ∉ s -> split_on sep s = [s].
Proof.
  induction s as [|c s IH]; [done|].
  intros Hnot. apply not_elem_of_cons in Hnot as [Hne Hnot].
  simpl. destruct (N.eqb_spec c sep); [congruence|].
  by rewrite IH.
Qed.

Lemma split_on_app sep (s t : pystr) :
  split_on sep (s ++ sep :: t) = split_on sep s ++ split_on sep t.
Proof.
  induction s as [|c s IH]; simpl.
  - by rewrite N.eqb_refl.
  - destruct (c =? sep)%N; [by rewrite IH|].
    rewrite IH. pose proof (split_on_nonempty sep s).
    by destruct (split_on sep s).
Qed.

Lemma join_cons sep (p : pystr) (ps : list pystr) :
  ps <> [] -> join sep (p :: ps) = p ++ sep ++ join sep ps.
Proof. by destruct ps. Qed.

Lemma split_on_join sep (lines : list pystr) :
  lines <> [] -> Forall (fun l => sep ∉ l) lines ->
  split_on sep (join [sep] lines) = lines.
Proof.
  induction lines as [|l lines IH]; [done|].
  intros _ Hall. inversion Hall as [|? ? Hl Hrest]; subst.
  destruct lines as [|l' lines].
  - simpl. by apply split_on_absent.
  - rewrite join_cons by done. simpl app.
    rewrite split_on_app, split_on_absent by done.
    simpl. f_equal. by apply IH.
Qed.

(** *** Lists of results *)

Lemma result_list_app {A B} (f : A -> result B) (l1 l2 : list A) :
  result_list f (l1 ++ l2)
  = (r1 ← result_list f l1; r2 ← result_list f l2; Ok (r1 ++ r2)).
Proof.
  induction l1 as [|a l1 IH]; simpl.
  - by destruct (result_list f l2).
  - destruct (f a); [|done]. simpl. rewrite IH.
    destruct (result_list f l1); [|done]. simpl.
    by destruct (result_list f l2).
Qed.

Lemma result_list_ok {A B} (f : A -> result B) (g : A -> B) (l : list A) :
  Forall (fun a => f a = Ok (g a)) l -> result_list f l = Ok (g <$> l).
Proof.
  induction 1 as [|a l Ha _ IH]; [done|].
  simpl. by rewrite Ha, IH.
Qed.

Lemma result_list_inv {A B} (f : A -> result B) (l : list A) (bs : list B) :
  result_list f l = Ok bs -> Forall2 (fun a b => f a = Ok b) l bs.
Proof.
  revert bs. induction l as [|a l IH]; intros bs; simpl.
  - intros [= <-]. constructor.
  - destruct (f a) as [b|] eqn:Ha; [|done]. simpl.
    destruct (result_list f l) as [bs'|]; [|done]. simpl.
    intros [= <-]. constructor; [done | by apply IH].
Qed.

(** ** Text: the chunks of [_split] *)

Lemma count_while_le (p : char -> bool) (s : pystr) :
  (count_while p s <= length s)%nat.
Proof.
  induction s as [|c s IH]; simpl; [lia|]. destruct (p c); simpl; lia.
Qed.

Lemma count_while_take (p : char -> bool) (s : pystr) (n : nat) :
  (n <= count_while p s)%nat -> Forall (fun c => p c = true) (take n s).
Proof.
  revert n. induction s as [|c s IH]; intros n Hn.
  - rewrite take_nil. constructor.
  - destruct n as [|n]; [constructor|]. simpl in *.
    destruct (p c) eqn:Hc; [|lia].
    constructor; [done | apply IH; lia].
Qed.

Lemma count_while_drop (p : char -> bool) (s : pystr) (c : char) (t : pystr) :
  drop (count_while p s) s = c :: t -> p c = false.
Proof.
  induction s as [|d s IH]; [done|]. simpl.
  destruct (p d) eqn:Hd; [exact IH|]. simpl. by intros [= <- _].
Qed.

Lemma count_while_all (p : char -> bool) (s : pystr) :
  Forall (fun c => p c = true) s -> count_while p s = length s.
Proof.
  induction 1 as [|c s Hc _ IH]; [done|]. simpl. by rewrite Hc, IH.
Qed.

Lemma count_while_app_stop (p : char -> bool) (s t : pystr) (c : char) :
  p c = false -> (count_while p (s ++ c :: t) <= length s)%nat.
Proof.
  intros Hc. induction s as [|d s IH]; simpl.
  - by rewrite Hc.
  - destruct (p d); simpl; lia.
Qed.

Section chunks.
Context `{UnicodeTables}.

Lemma hyphen_nonws (c : char) : is_hyphen c = true -> tw_whitespace c = false.
Proof. unfold is_hyphen. intros ->%N.eqb_eq. reflexivity. Qed.

Lemma re_w_hyphen : re_w 45 = false.
Proof. unfold re_w. by rewrite uni_isalnum_hyphen. Qed.

Lemma re_letter_hyphen : re_letter 45 = false.
Proof. unfold re_letter. by rewrite re_w_hyphen. Qed.

Lemma re_word_punct_hyphen : re_word_punct 45 = false.
Proof. unfold re_word_punct. by rewrite re_w_hyphen. Qed.

(** A word never runs past the whitespace that follows it. *)
Lemma word_more_le_nonws (before rest : pystr) :
  (word_more before rest <= count_while nonws rest)%nat.
Proof.
  revert before. induction rest as [|c rest IH]; intros before; simpl; [lia|].
  unfold nonws at 1.
  destruct (is_hyphen c && letters_behind before && letters_ahead rest) eqn:Ha.
  - apply andb_true_iff in Ha as [Ha _]. apply andb_true_iff in Ha as [Ha _].
    rewrite (hyphen_nonws c Ha). simpl. lia.
  - destruct (tw_whitespace c); simpl; [lia|].
    destruct (punct_behind before && dashes_then_word (c :: rest)); [lia|].
    specialize (IH (c :: before)). lia.
Qed.

Lemma count_hyphens_le_nonws (rest : pystr) :
  (count_hyphens rest <= count_while nonws rest)%nat.
Proof.
  unfold count_hyphens. induction rest as [|c rest IH]; simpl; [lia|].
  destruct (is_hyphen c) eqn:Hc; [|lia].
  unfold nonws at 1. rewrite (hyphen_nonws c Hc). simpl. lia.
Qed.

Lemma chunk_len_ws (before rest : pystr) (c : char) (rest' : pystr) :
  rest = c :: rest' -> tw_whitespace c = true ->
  chunk_len before rest = count_while tw_whitespace rest.
Proof. intros -> Hc. unfold chunk_len. by rewrite Hc. Qed.

Lemma chunk_len_nonws (before rest : pystr) (c : char) (rest' : pystr) :
  rest = c :: rest' -> tw_whitespace c = false ->
  (chunk_len before rest <= count_while nonws rest)%nat.
Proof.
  intros -> Hc. unfold chunk_len. rewrite Hc.
  destruct (punct_behind before && dashes_then_word (c :: rest')).
  - apply count_hyphens_le_nonws.
  - pose proof (word_more_le_nonws (c :: before) rest').
    simpl. unfold nonws at 1. rewrite Hc. simpl. lia.
Qed.

Lemma chunk_len_pos (before rest : pystr) :
  rest <> [] -> (1 <= chunk_len before rest)%nat.
Proof.
  destruct rest as [|c rest]; [done|]. intros _. unfold chunk_len.
  destruct (tw_whitespace c) eqn:Hc.
  - simpl. rewrite Hc. lia.
  - destruct (punct_behind before && dashes_then_word (c :: rest)) eqn:Hd;
      [|lia].
    apply andb_true_iff in Hd as [_ Hd]. unfold dashes_then_word in Hd.
    apply andb_true_iff in Hd as [Hd _]. apply Nat.leb_le in Hd. lia.
Qed.

Lemma chunk_len_le (before rest : pystr) :
  (chunk_len before rest <= length rest)%nat.
Proof.
  destruct rest as [|c rest]; [simpl; lia|].
  destruct (tw_whitespace c) eqn:Hc.
  - rewrite (chunk_len_ws before _ c rest eq_refl Hc). apply count_while_le.
  - pose proof (chunk_len_nonws before _ c rest eq_refl Hc).
    pose proof (count_while_le nonws (c :: rest)). lia.
Qed.

(** A chunk is not empty, and is whitespace throughout or free of it. *)
Lemma chunk_uniform (c : pystr) :
  is_chunk c ->
  c <> [] /\
  (ws_chunk c = true -> Forall (fun x => tw_whitespace x = true) c) /\
  (ws_chunk c = false -> Forall (fun x => tw_whitespace x = false) c).
Proof.
  intros (before & rest & Hne & ->).
  destruct rest as [|x rest]; [done|].
  pose proof (chunk_len_pos before (x :: rest) Hne) as Hpos.
  destruct (chunk_len before (x :: rest)) as [|n] eqn:Hn; [lia|].
  split; [done|]. simpl. split; intros Hx.
  - rewrite (chunk_len_ws before _ x rest eq_refl Hx) in Hn.
    change (x :: take n rest) with (take (S n) (x :: rest)).
    apply count_while_take. lia.
  - pose proof (chunk_len_nonws before _ x rest eq_refl Hx) as Hle.
    change (x :: take n rest) with (take (S n) (x :: rest)).
    eapply Forall_impl; [apply (count_while_take nonws); lia|].
    intros y. unfold nonws. by destruct (tw_whitespace y).
Qed.

(** [split_go] unfolds by one chunk. *)
Lemma split_go_cons (fuel : nat) (before : pystr) (c : char) (rest : pystr) :
  split_go (S fuel) before (c :: rest)
  = let n := chunk_len before (c :: rest) in
    take n (c :: rest)
      :: split_go fuel (reverse (take n (c :: rest)) ++ before)
           (drop n (c :: rest)).
Proof. reflexivity. Qed.

Lemma split_go_nil (fuel : nat) (before : pystr) : split_go fuel before [] = [].
Proof. by destruct fuel. Qed.

(** The chunks are the text, cut. *)
Lemma concat_split_go (fuel : nat) (before rest : pystr) :
  (length rest <= fuel)%nat -> concat (split_go fuel before rest) = rest.
Proof.
  revert before rest. induction fuel as [|fuel IH]; intros before rest Hfuel.
  - destruct rest; [done | simpl in Hfuel; lia].
  - destruct rest as [|c rest]; [done|].
    rewrite split_go_cons. cbv zeta. rewrite concat_cons.
    pose proof (chunk_len_pos before (c :: rest) ltac:(discriminate)).
    rewrite IH; [apply take_drop|].
    rewrite length_drop. simpl in *. lia.
Qed.

Lemma split_go_chunks (fuel : nat) (before rest : pystr) :
  Forall is_chunk (split_go fuel before rest).
Proof.
  revert before rest. induction fuel as [|fuel IH]; intros before rest;
    [constructor|].
  destruct rest as [|c rest]; [constructor|].
  rewrite split_go_cons. constructor; [|apply IH].
  exists before, (c :: rest). by split.
Qed.

Lemma split_go_head_ws (fuel : nat) (before rest : pystr) (a : pystr)
  (chunks : list pystr) :
  split_go fuel before rest = a :: chunks ->
  ws_chunk a = match rest with x :: _ => tw_whitespace x | [] => false end.
Proof.
  destruct fuel as [|fuel]; [done|]. destruct rest as [|x rest]; [done|].
  rewrite split_go_cons. cbv zeta.
  generalize (chunk_len_pos before (x :: rest) ltac:(discriminate)).
  generalize (chunk_len before (x :: rest)). intros n Hn [= <- _].
  destruct n; [lia | reflexivity].
Qed.

(** After a whitespace chunk comes a word. *)
Lemma split_go_separated (fuel : nat) (before rest : pystr) :
  separated (split_go fuel before rest).
Proof.
  revert before rest. induction fuel as [|fuel IH]; intros before rest;
    [done|].
  destruct rest as [|x rest]; [done|].
  rewrite split_go_cons. cbv zeta.
  set (n := chunk_len before (x :: rest)).
  specialize (IH (reverse (take n (x :: rest)) ++ before) (drop n (x :: rest))).
  destruct (split_go fuel _ (drop n (x :: rest))) as [|b chunks] eqn:Hnext;
    [done|].
  split; [|exact IH]. intros [Ha Hb].
  rewrite (split_go_head_ws _ _ _ _ _ Hnext) in Hb.
  pose proof (chunk_len_pos before (x :: rest) ltac:(discriminate)) as Hpos.
  fold n in Hpos.
  assert (Hx : tw_whitespace x = true).
  { destruct n as [|n']; [lia|]. exact Ha. }
  unfold n in Hb.
  rewrite (chunk_len_ws before _ x rest eq_refl Hx) in Hb.
  destruct (drop (count_while tw_whitespace (x :: rest)) (x :: rest))
    as [|y t] eqn:Hdrop; [done|].
  apply count_while_drop in Hdrop. congruence.
Qed.

(** *** A word chunk is split the same way on its own *)

Lemma letters_behind_prefix (bef' bef : pystr) :
  bef' `prefix_of` bef ->
  letters_behind bef' = true -> letters_behind bef = true.
Proof.
  intros [ext ->]. unfold letters_behind.
  destruct bef' as [|l1 [|l2 [|l3 r]]]; simpl; try done.
  destruct (re_letter l1); simpl; [|done].
  destruct (re_letter l2); simpl; [done|].
  by rewrite andb_false_r.
Qed.

Lemma punct_behind_prefix (bef' bef : pystr) :
  bef' `prefix_of` bef ->
  punct_behind bef' = true -> punct_behind bef = true.
Proof. intros [ext ->]. by destruct bef'. Qed.

Lemma letters_ahead_take (k : nat) (r : pystr) :
  letters_ahead (take k r) = true -> letters_ahead r = true.
Proof.
  unfold letters_ahead.
  destruct r as [|l [|c [|l' r]]], k as [|[|[|k]]]; simpl; try done.
  all: destruct (re_letter l), (re_letter c), (c =? 45)%N; simpl;
    try done; by destruct (re_letter l').
Qed.

Lemma after_hyphens_take (k : nat) (r : pystr) (c : char) (t : pystr) :
  drop (count_hyphens (take k r)) (take k r) = c :: t ->
  count_hyphens (take k r) = count_hyphens r /\
  exists t', drop (count_hyphens r) r = c :: t'.
Proof.
  unfold count_hyphens. revert k.
  induction r as [|x r IH]; intros k; [by rewrite take_nil|].
  destruct k as [|k]; [done|]. simpl.
  destruct (is_hyphen x); simpl.
  - intros Hd. destruct (IH k Hd) as [-> Ht]. by split.
  - intros [= <- _]. split; [done | by eexists].
Qed.

Lemma dashes_then_word_take (k : nat) (r : pystr) :
  dashes_then_word (take k r) = true -> dashes_then_word r = true.
Proof.
  unfold dashes_then_word. intros Hd.
  apply andb_true_iff in Hd as [Hcount Hw].
  destruct (drop (count_hyphens (take k r)) (take k r)) as [|c t] eqn:Hdrop;
    [done|].
  apply after_hyphens_take in Hdrop as [Heq [t' Ht']].
  rewrite Ht', <- Heq, Hcount. exact Hw.
Qed.

Lemma word_more_le (before rest : pystr) :
  (word_more before rest <= length rest)%nat.
Proof.
  pose proof (word_more_le_nonws before rest).
  pose proof (count_while_le nonws rest). lia.
Qed.

(** The part of a word the regular expression matched is matched again,
    whole, when less is known of what came before and nothing follows. *)
Lemma word_more_take (rest bef bef' : pystr) :
  bef' `prefix_of` bef ->
  word_more bef' (take (word_more bef rest) rest) = word_more bef rest.
Proof.
  revert bef bef'. induction rest as [|c rest IH]; intros bef bef' Hpre;
    [done|].
  simpl.
  destruct (is_hyphen c && letters_behind bef && letters_ahead rest) eqn:Ha.
  - apply andb_true_iff in Ha as [Ha _]. apply andb_true_iff in Ha as [Hc _].
    simpl. rewrite take_0. simpl.
    rewrite (hyphen_nonws c Hc), andb_false_r. simpl.
    unfold dashes_then_word, count_hyphens. simpl. rewrite Hc. simpl.
    by rewrite andb_false_r.
  - destruct (tw_whitespace c) eqn:Hws; [done|].
    destruct (punct_behind bef && dashes_then_word (c :: rest)) eqn:Hd;
      [done|].
    simpl. rewrite Hws.
    assert (Ha' : is_hyphen c && letters_behind bef'
                    && letters_ahead (take (word_more (c :: bef) rest) rest)
                  = false).
    { destruct (is_hyphen c) eqn:Hc; [|done]. simpl in *.
      destruct (letters_behind bef') eqn:Hb; [|done].
      rewrite (letters_behind_prefix _ _ Hpre Hb) in Ha. simpl in *.
      destruct (letters_ahead (take _ rest)) eqn:Hl; [|done].
      by rewrite (letters_ahead_take _ _ Hl) in Ha. }
    rewrite Ha'.
    assert (Hd' : punct_behind bef'
                    && dashes_then_word
                         (c :: take (word_more (c :: bef) rest) rest)
                  = false).
    { destruct (punct_behind bef') eqn:Hb; [|done].
      rewrite (punct_behind_prefix _ _ Hpre Hb) in Hd. simpl in *.
      destruct (dashes_then_word (c :: take _ rest)) eqn:Hl; [|done].
      change (c :: take (word_more (c :: bef) rest) rest)
        with (take (S (word_more (c :: bef) rest)) (c :: rest)) in Hl.
      by rewrite (dashes_then_word_take _ _ Hl) in Hd. }
    rewrite Hd'. f_equal. apply IH.
    destruct Hpre as [ext ->]. by exists ext.
Qed.

Lemma word_more_hyphens (k : nat) (bef : pystr) :
  Forall (fun x => x = 45%N) bef ->
  word_more bef (replicate k 45%N) = k.
Proof.
  revert bef. induction k as [|k IH]; intros bef Hbef; [done|].
  simpl.
  assert (Hb : letters_behind bef = false).
  { destruct Hbef as [|x bef -> _]; [done|]. simpl.
    destruct bef; [done|]. by rewrite re_letter_hyphen. }
  assert (Hp : punct_behind bef = false).
  { destruct Hbef as [|x bef -> _]; [done|]. simpl.
    apply re_word_punct_hyphen. }
  rewrite Hb, Hp. simpl. f_equal. apply IH. by constructor.
Qed.

Lemma take_count_hyphens (rest : pystr) :
  take (count_hyphens rest) rest = replicate (count_hyphens rest) 45%N.
Proof.
  unfold count_hyphens. induction rest as [|x rest IH]; [done|]. simpl.
  destruct (is_hyphen x) eqn:Hx; [|done]. simpl.
  apply N.eqb_eq in Hx as ->. by rewrite IH.
Qed.

(** A chunk that is not whitespace is one chunk on its own. *)
Lemma chunk_stable (c : pystr) :
  is_chunk c -> ws_chunk c = false -> chunk_len [] c = length c.
Proof.
  intros (before & rest & Hne & ->) Hws.
  destruct rest as [|x rest]; [done|].
  pose proof (chunk_len_pos before (x :: rest) ltac:(discriminate)) as Hpos.
  assert (Hx : tw_whitespace x = false).
  { destruct (chunk_len before (x :: rest)); [lia | exact Hws]. }
  clear Hws. revert Hpos. unfold chunk_len at 1 3 4. rewrite Hx.
  destruct (punct_behind before && dashes_then_word (x :: rest)) eqn:Hd.
  - intros Hpos. rewrite take_count_hyphens.
    destruct (count_hyphens (x :: rest)) as [|h]; [lia|].
    simpl. rewrite word_more_hyphens by (by constructor).
    by rewrite length_replicate.
  - intros _. simpl. rewrite Hx. f_equal.
    rewrite word_more_take by (by exists before).
    rewrite length_take. pose proof (word_more_le (x :: before) rest). lia.
Qed.

Lemma tw_split_chunk (c : pystr) :
  is_chunk c -> ws_chunk c = false -> tw_split c = [c].
Proof.
  intros Hc Hws. pose proof (chunk_stable c Hc Hws) as Hlen.
  destruct (chunk_uniform c Hc) as [Hne _].
  unfold tw_split. destruct c as [|x c]; [done|].
  change (length (x :: c)) with (S (length c)) at 1.
  rewrite split_go_cons. cbv zeta. rewrite Hlen.
  rewrite take_ge, drop_ge by done. by rewrite split_go_nil.
Qed.

(** *** A word without hyphens is one chunk *)

Lemma ws_not_hyphen (x : char) : tw_whitespace x = true -> is_hyphen x = false.
Proof.
  intros Hx. destruct (is_hyphen x) eqn:Hh; [|done].
  apply hyphen_nonws in Hh. congruence.
Qed.

Lemma dashes_then_word_no_hyphen (x : char) (r : pystr) :
  is_hyphen x = false -> dashes_then_word (x :: r) = false.
Proof. intros Hx. unfold dashes_then_word, count_hyphens. simpl. by rewrite Hx. Qed.

Lemma word_more_word (w before post : pystr) :
  Forall (fun x => tw_whitespace x = false /\ is_hyphen x = false) w ->
  ws_chunk post = true \/ post = [] ->
  word_more before (w ++ post) = length w.
Proof.
  intros Hw Hpost. revert before.
  induction Hw as [|x w [Hws Hhy] _ IH]; intros before; simpl.
  - destruct Hpost as [Hpost | ->]; [|done].
    destruct post as [|y post]; [done|]. simpl in *.
    by rewrite (ws_not_hyphen y Hpost), Hpost.
  - rewrite Hhy, Hws, (dashes_then_word_no_hyphen _ _ Hhy), andb_false_r.
    simpl. by rewrite IH.
Qed.

Lemma chunk_len_word (w before post : pystr) :
  w <> [] ->
  Forall (fun x => tw_whitespace x = false /\ is_hyphen x = false) w ->
  ws_chunk post = true \/ post = [] ->
  chunk_len before (w ++ post) = length w.
Proof.
  intros Hne Hw Hpost. destruct w as [|x w]; [done|].
  apply Forall_cons in Hw as [[Hws Hhy] Hw]. simpl.
  rewrite Hws, (dashes_then_word_no_hyphen _ _ Hhy), andb_false_r.
  by rewrite word_more_word.
Qed.

(** A word between whitespace, or at an end of the text, is a chunk. *)
Lemma split_go_word (w post : pystr) (fuel : nat) (pre before : pystr) :
  w <> [] ->
  Forall (fun x => tw_whitespace x = false /\ is_hyphen x = false) w ->
  ws_chunk post = true \/ post = [] ->
  ws_chunk (reverse pre) = true \/ pre = [] ->
  (length (pre ++ w ++ post) <= fuel)%nat ->
  w ∈ split_go fuel before (pre ++ w ++ post).
Proof.
  intros Hne Hw Hpost. revert pre before.
  induction fuel as [|fuel IH]; intros pre before Hpre Hfuel.
  { destruct w; [done|]. rewrite !length_app in Hfuel. simpl in Hfuel. lia. }
  destruct pre as [|x pre].
  - simpl app. destruct (w ++ post) as [|y r] eqn:Hwp.
    { by destruct w. }
    rewrite split_go_cons. cbv zeta. rewrite <- Hwp.
    rewrite chunk_len_word, take_app_length by done.
    apply list_elem_of_here.
  - destruct Hpre as [Hpre | Hpre]; [|done].
    assert (Hlast : exists p y, x :: pre = p ++ [y] /\ tw_whitespace y = true).
    { destruct (reverse (x :: pre)) as [|y q] eqn:Hrev; [done|].
      exists (reverse q), y. split; [|exact Hpre].
      rewrite <- (reverse_involutive (x :: pre)), Hrev.
      by rewrite reverse_cons. }
    destruct Hlast as (p & y & Hp & Hy).
    simpl app. rewrite split_go_cons. cbv zeta.
    set (rest := x :: pre ++ w ++ post).
    set (n := chunk_len before rest).
    apply list_elem_of_further.
    assert (Hpos : (1 <= n)%nat) by (apply chunk_len_pos; done).
    assert (Hn : (n <= length (x :: pre))%nat).
    { destruct w as [|x0 w']; [done|].
      apply Forall_cons in Hw as [[Hx0 _] _].
      destruct (tw_whitespace x) eqn:Hx.
      - unfold n. rewrite (chunk_len_ws before rest x _ eq_refl Hx).
        unfold rest. change (x :: pre ++ (x0 :: w') ++ post)
          with ((x :: pre) ++ x0 :: (w' ++ post)).
        by apply count_while_app_stop.
      - pose proof (chunk_len_nonws before rest x _ eq_refl Hx) as Hle.
        fold n in Hle. unfold rest in Hle.
        change (x :: pre ++ (x0 :: w') ++ post)
          with ((x :: pre) ++ (x0 :: w') ++ post) in Hle.
        rewrite Hp, <- app_assoc in Hle. simpl in Hle.
        pose proof (count_while_app_stop nonws p ((x0 :: w') ++ post) y
                      ltac:(unfold nonws; by rewrite Hy)) as Hstop.
        simpl in Hstop. rewrite Hp, length_app. simpl. lia. }
    unfold rest.
    change (x :: pre ++ w ++ post) with ((x :: pre) ++ w ++ post).
    rewrite drop_app_le by done.
    apply IH.
    + destruct (decide (n = length (x :: pre))) as [-> | Hlt].
      * right. by rewrite drop_all.
      * left. rewrite Hp. rewrite Hp, length_app in Hn, Hlt. simpl in *.
        rewrite drop_app_le by lia. by rewrite reverse_app.
    + rewrite !length_app, length_drop. rewrite !length_app in Hfuel.
      simpl in *. lia.
Qed.

End chunks.

(** ** Text: the lines of [_wrap_chunks] *)

Lemma tw_whitespace_isspace (x : char) :
  tw_whitespace x = true -> isspace x = true.
Proof.
  unfold tw_whitespace. rewrite !orb_true_iff, !N.eqb_eq.
  intros [[[[[-> | ->] | ->] | ->] | ->] | ->]; reflexivity.
Qed.

Lemma munged_isspace (x : char) :
  munged_char x -> isspace x = tw_whitespace x.
Proof.
  intros [Hsp _]. destruct (isspace x) eqn:Hx.
  - by rewrite (Hsp eq_refl).
  - destruct (tw_whitespace x) eqn:Hw; [|done].
    apply tw_whitespace_isspace in Hw. congruence.
Qed.

Lemma separated_tail (a : pystr) (chunks : list pystr) :
  separated (a :: chunks) -> separated chunks.
Proof. destruct chunks; [done|]. by intros [_ ?]. Qed.

Lemma separated_app_r (l1 l2 : list pystr) :
  separated (l1 ++ l2) -> separated l2.
Proof.
  induction l1 as [|a l1 IH]; [done|].
  intros Hs. apply IH. by apply separated_tail in Hs.
Qed.

Lemma separated_mid (l1 : list pystr) (a c : pystr) (l2 : list pystr) :
  separated (l1 ++ a :: c :: l2) ->
  ~ (ws_chunk a = true /\ ws_chunk c = true).
Proof. intros Hs. apply separated_app_r in Hs. by destruct Hs. Qed.

Section lines.
Context `{UnicodeTables}.

(** For munged text a chunk is blank exactly when it is whitespace. *)
Lemma chunk_blank (c : pystr) :
  is_chunk c -> Forall munged_char c -> blank c = ws_chunk c.
Proof.
  intros Hc Hm. destruct (chunk_uniform c Hc) as (Hne & Hws & Hword).
  destruct (ws_chunk c) eqn:Hk.
  - apply blank_all. eapply Forall_impl; [exact (Hws eq_refl)|].
    intros x. apply tw_whitespace_isspace.
  - destruct c as [|x c]; [done|].
    specialize (Hword eq_refl).
    apply Forall_cons in Hword as [Hx _]. apply Forall_cons in Hm as [Hm _].
    apply (blank_exists _ x); [apply list_elem_of_here|].
    by rewrite (munged_isspace x Hm).
Qed.

Lemma fill_line_spec (chunks : list pystr) (width cur_len : Z)
  (line rest : list pystr) :
  fill_line width cur_len chunks = (line, rest) ->
  chunks = line ++ rest /\
  (line <> [] -> cur_len + Z.of_nat (length (concat line)) <= width) /\
  (forall c rest', rest = c :: rest' ->
     width < cur_len + Z.of_nat (length (concat line))
             + Z.of_nat (length c)).
Proof.
  revert cur_len line rest.
  induction chunks as [|c chunks IH]; intros cur_len line rest; simpl.
  - intros [= <- <-]. by repeat split.
  - destruct (Z.leb_spec (cur_len + Z.of_nat (length c)) width) as [Hfit | Hno].
    + destruct (fill_line width (cur_len + Z.of_nat (length c)) chunks)
        as [line' rest'] eqn:Hfill.
      intros [= <- <-]. destruct (IH _ _ _ Hfill) as (-> & Hlen & Hstop).
      split; [done|]. rewrite concat_cons, length_app. split.
      * intros _. destruct line' as [|c' line'].
        -- simpl. lia.
        -- specialize (Hlen ltac:(done)). lia.
      * intros c' rest'' Hr. specialize (Hstop c' rest'' Hr). lia.
    + intros [= <- <-]. split; [done|]. split; [done|].
      intros c' rest' [= <- <-]. simpl. lia.
Qed.

Lemma fill_line_all (chunks : list pystr) (width cur_len : Z) :
  cur_len + Z.of_nat (length (concat chunks)) <= width ->
  fill_line width cur_len chunks = (chunks, []).
Proof.
  revert cur_len. induction chunks as [|c chunks IH]; intros cur_len Hfit;
    [done|].
  simpl. rewrite concat_cons, length_app in Hfit.
  destruct (Z.leb_spec (cur_len + Z.of_nat (length c)) width); [|lia].
  rewrite IH by lia. done.
Qed.

Lemma drop_trailing_blank_snoc (p : list pystr) (a : pystr) :
  drop_trailing_blank (p ++ [a]) = if blank a then p else p ++ [a].
Proof.
  unfold drop_trailing_blank. rewrite last_snoc.
  destruct (blank a); [|done]. apply removelast_last.
Qed.

(** What one turn of the loop does to the chunk list: it drops at most one
    blank chunk [d] in front, takes the chunks [cur] of the line, drops at
    most one blank chunk [b] behind them, and leaves [rest]; it takes or
    drops at least one chunk. *)
Lemma line_step_spec (width : Z) (started : bool) (chunks : list pystr)
  (cur rest : list pystr) :
  chunks <> [] ->
  line_step width started chunks = (cur, rest) ->
  exists d b,
    chunks = d ++ cur ++ b ++ rest /\
    (d = [] \/ exists c, d = [c] /\ blank c = true) /\
    ((b = [] /\ (cur = [] \/ exists p a, cur = p ++ [a] /\ blank a = false))
     \/ exists c, b = [c] /\ blank c = true) /\
    (cur = [] \/ Z.of_nat (length (concat cur)) <= width
     \/ exists c, cur = [c]) /\
    d ++ cur ++ b <> [].
Proof.
  intros Hne. unfold line_step.
  destruct chunks as [|c0 tl]; [done|].
  set (chunks1 := if blank c0 && started then tl else c0 :: tl).
  assert (Hd : exists d, c0 :: tl = d ++ chunks1 /\
                 (d = [] \/ exists c, d = [c] /\ blank c = true) /\
                 (d = [] -> chunks1 <> [])).
  { unfold chunks1. destruct (blank c0 && started) eqn:Hb.
    - exists [c0]. split; [done|]. split; [|done]. right. exists c0.
      split; [done|]. by apply andb_true_iff in Hb as [? _].
    - exists []. split; [done|]. split; [by left | done]. }
  destruct Hd as (d & -> & Hdblank & Hdne). clearbody chunks1.
  destruct (fill_line width 0 chunks1) as [line rest1] eqn:Hfill.
  destruct (fill_line_spec _ _ _ _ _ Hfill) as (-> & Hfit & Hstop).
  set (handled := match rest1 with
                  | c :: _ =>
                      if width <? Z.of_nat (length c)
                      then handle_long_word line rest1 else (line, rest1)
                  | [] => (line, rest1)
                  end).
  assert (Hcases : (handled = (line, rest1) /\ (line = [] -> rest1 = []))
                   \/ exists c, line = [] /\ rest1 = c :: snd handled
                                /\ fst handled = [c]).
  { unfold handled. destruct rest1 as [|c rest1']; [by left|].
    specialize (Hstop c rest1' eq_refl).
    destruct (Z.ltb_spec width (Z.of_nat (length c))) as [Hlong | Hshort].
    - destruct line as [|l0 line']; simpl.
      + right. by exists c.
      + left. done.
    - left. split; [done|]. intros ->. simpl in Hstop. lia. }
  fold handled. destruct handled as [cur0 rest0] eqn:Hhandled.
  intros [= <- <-].
  assert (Hsplit : exists b,
             cur0 = drop_trailing_blank cur0 ++ b /\
             ((b = [] /\ (drop_trailing_blank cur0 = []
                          \/ exists p a, drop_trailing_blank cur0 = p ++ [a]
                                         /\ blank a = false))
              \/ exists c, b = [c] /\ blank c = true)).
  { destruct cur0 as [|x cur0'] using rev_ind.
    - exists []. split; [done|]. left. split; [done | by left].
    - rewrite drop_trailing_blank_snoc. destruct (blank x) eqn:Hx.
      + exists [x]. split; [done|]. right. by exists x.
      + exists []. rewrite app_nil_r. split; [done|]. left. split; [done|].
        right. by exists cur0', x. }
  destruct Hsplit as (b & Hcur0 & Hb).
  revert Hcur0 Hb. generalize (drop_trailing_blank cur0). intros cur Hcur0 Hb.
  exists d, b. destruct Hcases as [[[= Hl Hr] Hnil] | (c & Hl & Hr & Hfst)].
  - subst line rest1 cur0.
    split; [by rewrite <- app_assoc|].
    split; [done|]. split; [done|]. split.
    + destruct cur as [|l0 cur']; [by left|]. right. left.
      specialize (Hfit ltac:(done)).
      rewrite concat_app, length_app in Hfit. lia.
    + intros Hnil'.
      apply app_eq_nil in Hnil' as [-> Hcb]. rewrite Hcb in Hnil, Hdne.
      rewrite (Hnil eq_refl) in Hdne. by destruct (Hdne eq_refl).
  - simpl in Hfst, Hr. subst line rest1 cur0. simpl.
    split; [by rewrite (app_assoc cur b), <- Hcur0|].
    split; [done|]. split; [done|]. split.
    + destruct cur as [|x [|y cur']]; [by left | | ].
      * right. right. by exists x.
      * apply (f_equal length) in Hcur0. rewrite length_app in Hcur0.
        simpl in Hcur0. lia.
    + rewrite <- Hcur0. by destruct d.
Qed.

Lemma wrap_loop_nil (fuel : nat) (width : Z) (started : bool) :
  wrap_loop fuel width started [] = [].
Proof. by destruct fuel. Qed.

Lemma wrap_loop_step (fuel : nat) (width : Z) (started : bool)
  (chunks cur rest : list pystr) :
  chunks <> [] ->
  line_step width started chunks = (cur, rest) ->
  wrap_loop (S fuel) width started chunks
  = match cur with
    | [] => wrap_loop fuel width started rest
    | _ => concat cur :: wrap_loop fuel width true rest
    end.
Proof.
  intros Hne Hstep. destruct chunks as [|c0 tl]; [done|].
  simpl. by rewrite Hstep.
Qed.

Lemma word_chunk_last (a : pystr) :
  is_chunk a -> ws_chunk a = false ->
  exists s x, a = s ++ [x] /\ tw_whitespace x = false.
Proof.
  intros Ha Hws. destruct (chunk_uniform a Ha) as (Hne & _ & Hword).
  specialize (Hword Hws).
  destruct (exists_last Hne) as (a' & y & ->).
  exists a', y. split; [done|].
  apply Forall_app in Hword as [_ Hy]. by apply Forall_cons in Hy as [Hy _].
Qed.

(** Every line of the loop ends in a word chunk, and fits the width or is
    one chunk. *)
Lemma wrap_loop_settled (fuel : nat) (width : Z) (started : bool)
  (chunks : list pystr) :
  Forall is_chunk chunks -> separated chunks ->
  Forall (Forall munged_char) chunks ->
  Forall (settled_line width) (wrap_loop fuel width started chunks).
Proof.
  revert started chunks.
  induction fuel as [|fuel IH]; intros started chunks Hchunks Hsep Hmung;
    [constructor|].
  destruct (decide (chunks = [])) as [-> | Hne]; [constructor|].
  destruct (line_step width started chunks) as [cur rest] eqn:Hstep.
  rewrite (wrap_loop_step _ _ _ _ _ _ Hne Hstep).
  destruct (line_step_spec _ _ _ _ _ Hne Hstep)
    as (d & b & -> & Hd & Hb & Hfit & _).
  assert (Hrest : Forall (settled_line width)
                    (wrap_loop fuel width true rest)
                  /\ Forall (settled_line width)
                       (wrap_loop fuel width started rest)).
  { split; apply IH.
    all: try (by repeat (apply Forall_app in Hchunks as [_ Hchunks])).
    all: try (by repeat (apply separated_app_r in Hsep)).
    all: by repeat (apply Forall_app in Hmung as [_ Hmung]). }
  destruct Hrest as [Htrue Hsame].
  destruct cur as [|l0 cur'] eqn:Hcur; [exact Hsame|].
  rewrite <- Hcur in *. assert (Hcne : cur <> []) by (by rewrite Hcur).
  clear Hcur l0 cur'. constructor; [|exact Htrue].
  destruct (exists_last Hcne) as (p & a & ->). clear Hcne.
  assert (Ha : is_chunk a /\ Forall munged_char a).
  { apply Forall_app in Hchunks as [_ Hchunks].
    apply Forall_app in Hchunks as [Hchunks _].
    apply Forall_app in Hchunks as [_ Hchunks].
    apply Forall_cons in Hchunks as [Hchunks _].
    apply Forall_app in Hmung as [_ Hmung].
    apply Forall_app in Hmung as [Hmung _].
    apply Forall_app in Hmung as [_ Hmung].
    by apply Forall_cons in Hmung as [Hmung _]. }
  destruct Ha as [Ha Hma].
  assert (Hword : ws_chunk a = false).
  { destruct Hb as [[-> [Hnil | (p' & a' & Heq & Hblank)]] | (c & -> & Hc)].
    - by destruct p.
    - apply app_inj_tail in Heq as [_ ->].
      by rewrite <- (chunk_blank a' Ha Hma).
    - assert (Hcc : is_chunk c /\ Forall munged_char c).
      { apply Forall_app in Hchunks as [_ Hchunks].
        apply Forall_app in Hchunks as [_ Hchunks].
        apply Forall_app in Hchunks as [Hchunks _].
        apply Forall_cons in Hchunks as [Hchunks _].
        apply Forall_app in Hmung as [_ Hmung].
        apply Forall_app in Hmung as [_ Hmung].
        apply Forall_app in Hmung as [Hmung _].
        by apply Forall_cons in Hmung as [Hmung _]. }
      destruct Hcc as [Hcc Hmc]. rewrite (chunk_blank c Hcc Hmc) in Hc.
      replace (d ++ (p ++ [a]) ++ [c] ++ rest)
        with ((d ++ p) ++ a :: c :: rest) in Hsep
        by (by rewrite <- !app_assoc).
      apply separated_mid in Hsep.
      destruct (ws_chunk a); [|done]. by destruct Hsep. }
  split.
  - destruct (word_chunk_last a Ha Hword) as (s & x & -> & Hx).
    exists (concat p ++ s), x. split; [|done].
    rewrite concat_app. simpl. by rewrite app_nil_r, app_assoc.
  - destruct Hfit as [Hnil | [Hfit | [c Hc]]].
    + by destruct p.
    + by left.
    + right. destruct p as [|? [|? ?]]; try done.
      simpl. rewrite app_nil_r. done.
Qed.

Lemma wrap_loop_chars (P : char -> Prop) (fuel : nat) (width : Z)
  (started : bool) (chunks : list pystr) :
  Forall (Forall P) chunks ->
  Forall (Forall P) (wrap_loop fuel width started chunks).
Proof.
  revert started chunks.
  induction fuel as [|fuel IH]; intros started chunks HP; [constructor|].
  destruct (decide (chunks = [])) as [-> | Hne]; [constructor|].
  destruct (line_step width started chunks) as [cur rest] eqn:Hstep.
  rewrite (wrap_loop_step _ _ _ _ _ _ Hne Hstep).
  destruct (line_step_spec _ _ _ _ _ Hne Hstep) as (d & b & -> & _).
  apply Forall_app in HP as [_ HP]. apply Forall_app in HP as [Hcur HP].
  apply Forall_app in HP as [_ HP].
  destruct cur as [|l0 cur']; [by apply IH|].
  constructor; [by apply Forall_concat | by apply IH].
Qed.

(** A chunk that is not blank reaches some line. *)
Lemma wrap_loop_nonempty (fuel : nat) (width : Z) (started : bool)
  (chunks : list pystr) :
  Exists (fun c => blank c = false) chunks ->
  (length chunks <= fuel)%nat ->
  wrap_loop fuel width started chunks <> [].
Proof.
  revert started chunks.
  induction fuel as [|fuel IH]; intros started chunks Hex Hfuel.
  { destruct chunks; [by apply Exists_nil in Hex | simpl in Hfuel; lia]. }
  destruct (decide (chunks = [])) as [-> | Hne];
    [by apply Exists_nil in Hex|].
  destruct (line_step width started chunks) as [cur rest] eqn:Hstep.
  rewrite (wrap_loop_step _ _ _ _ _ _ Hne Hstep).
  destruct (line_step_spec _ _ _ _ _ Hne Hstep)
    as (d & b & -> & Hd & Hb & _ & Hprog).
  destruct cur as [|l0 cur']; [|done].
  simpl in *. apply IH.
  - apply Exists_app in Hex as [Hex | Hex].
    { destruct Hd as [-> | (c & -> & Hc)]; [by apply Exists_nil in Hex|].
      apply Exists_cons in Hex as [Hex | Hex]; [congruence|].
      by apply Exists_nil in Hex. }
    apply Exists_app in Hex as [Hex | Hex]; [|done].
    destruct Hb as [[-> _] | (c & -> & Hc)]; [by apply Exists_nil in Hex|].
    apply Exists_cons in Hex as [Hex | Hex]; [congruence|].
    by apply Exists_nil in Hex.
  - rewrite !length_app in Hfuel.
    assert (length d + length b <> 0)%nat; [|lia].
    intros Hz. apply Hprog.
    destruct d, b; simpl in Hz; try lia. done.
Qed.

(** *** Wrapping a line again *)

Lemma munged_not_tab (l : pystr) :
  Forall munged_char l -> forall col, expandtabs col l = l.
Proof.
  induction 1 as [|x l [Hx _] _ IH]; intros col; [done|].
  simpl. destruct (N.eqb_spec x 9) as [-> | Hne].
  - by specialize (Hx eq_refl).
  - by rewrite IH.
Qed.

Lemma munge_whitespace_munged (l : pystr) :
  Forall munged_char l -> munge_whitespace l = l.
Proof.
  intros Hl. unfold munge_whitespace. rewrite (munged_not_tab l Hl).
  induction Hl as [|x l Hx _ IH]; [done|].
  rewrite fmap_cons, IH. f_equal.
  destruct (tw_whitespace x) eqn:Hws; [|done].
  destruct Hx as [Hx _]. symmetry. apply Hx.
  by apply tw_whitespace_isspace.
Qed.

Lemma munged_space : munged_char 32.
Proof. by repeat split. Qed.

Lemma munge_whitespace_plain (s : pystr) :
  Forall plain_char s -> Forall munged_char (munge_whitespace s).
Proof.
  unfold munge_whitespace. generalize 0%nat.
  intros col Hs. revert col.
  induction Hs as [|x s Hx _ IH]; intros col; [constructor|].
  simpl. destruct (N.eqb_spec x 9) as [-> | Hne].
  - rewrite fmap_app. apply Forall_app. split; [|apply IH].
    rewrite fmap_replicate. apply Forall_replicate. apply munged_space.
  - rewrite fmap_cons. constructor; [|apply IH].
    destruct (tw_whitespace x) eqn:Hws; [apply munged_space|].
    destruct Hx as (Hsp & H38 & H60 & H62). repeat split; try done.
    intros Hx. rewrite (Hsp Hx) in Hws. done.
Qed.

Lemma tw_split_props (text : pystr) :
  concat (tw_split text) = text /\
  Forall is_chunk (tw_split text) /\ separated (tw_split text).
Proof.
  unfold tw_split. split; [by apply concat_split_go|].
  split; [apply split_go_chunks | apply split_go_separated].
Qed.

(** A settled line of munged text wraps to itself. *)
Lemma settled_line_wrap (width : Z) (l : pystr) :
  0 < width -> settled_line width l -> Forall munged_char l ->
  textwrap_wrap l width = Ok [l].
Proof.
  intros Hwidth [(s & x & Hl & Hx) Hfit] Hm.
  unfold textwrap_wrap, wrap_chunks.
  rewrite (munge_whitespace_munged l Hm).
  destruct (Z.leb_spec width 0); [lia|]. f_equal.
  destruct (tw_split_props l) as (Hconcat & Hchunks & _).
  assert (Hxsp : isspace x = false).
  { apply Forall_forall with (x := x) in Hm;
      [|rewrite Hl; apply elem_of_app; right; apply list_elem_of_here].
    by rewrite (munged_isspace x Hm). }
  destruct (decide (Z.of_nat (length l) <= width)) as [Hshort | Hlong].
  - destruct (tw_split l) as [|c0 cs] eqn:Hsplit.
    { simpl in Hconcat. subst l. by destruct s. }
    assert (Hstep : line_step width false (c0 :: cs) = (c0 :: cs, [])).
    { unfold line_step. rewrite andb_false_r.
      rewrite fill_line_all by (rewrite Hconcat; lia).
      f_equal.
      destruct (@exists_last _ (c0 :: cs) ltac:(discriminate))
        as (p & b & Hpb).
      rewrite Hpb in *. rewrite drop_trailing_blank_snoc.
      assert (Hb : blank b = false); [|by rewrite Hb].
      rewrite concat_app in Hconcat. simpl in Hconcat.
      rewrite app_nil_r in Hconcat.
      apply Forall_app in Hchunks as [_ Hb].
      apply Forall_cons in Hb as [Hb _].
      destruct (chunk_uniform b Hb) as [Hbne _].
      destruct (exists_last Hbne) as (b' & y & ->).
      rewrite Hl, app_assoc in Hconcat.
      apply app_inj_tail in Hconcat as [_ ->].
      apply (blank_exists _ x); [|done].
      apply elem_of_app. right. apply list_elem_of_here. }
    simpl length.
    rewrite (wrap_loop_step _ width false (c0 :: cs) _ _
               ltac:(discriminate) Hstep).
    by rewrite wrap_loop_nil, Hconcat.
  - destruct Hfit as [Hfit | [Hchunk Hword]]; [lia|].
    rewrite (tw_split_chunk l Hchunk Hword).
    assert (Hstep : line_step width false [l] = ([l], [])).
    { unfold line_step. rewrite andb_false_r. simpl.
      destruct (Z.leb_spec (0 + Z.of_nat (length l)) width); [lia|].
      destruct (Z.ltb_spec width (Z.of_nat (length l))); [|lia].
      simpl. f_equal. change [l] with ([] ++ [l]).
      rewrite drop_trailing_blank_snoc.
      assert (Hb : blank l = false); [|by rewrite Hb].
      apply (blank_exists _ x); [|done].
      rewrite Hl. apply elem_of_app. right. apply list_elem_of_here. }
    simpl length.
    rewrite (wrap_loop_step _ width false [l] _ _ ltac:(discriminate) Hstep).
    simpl. by rewrite app_nil_r.
Qed.

End lines.

(** ** Text: wrapping the wrapped lines again *)

Lemma split_on_parts (P : char -> Prop) sep (s : pystr) :
  Forall P s ->
  Forall (fun part => Forall P part /\ sep ∉ part) (split_on sep s).
Proof.
  induction 1 as [|c s Hc _ IH]; simpl.
  - constructor; [|constructor]. split; [constructor | apply not_elem_of_nil].
  - destruct (N.eqb_spec c sep) as [-> | Hne].
    + constructor; [|exact IH].
      split; [constructor | apply not_elem_of_nil].
    + destruct (split_on sep s) as [|p ps].
      { constructor; [|constructor]. split; [by repeat constructor|].
        apply not_elem_of_cons. split; [congruence | apply not_elem_of_nil]. }
      apply Forall_cons in IH as [[Hp Hsep] IH].
      constructor; [|exact IH]. split; [by constructor|].
      apply not_elem_of_cons. by split.
Qed.

Lemma elem_of_join (x : char) sep (ls : list pystr) :
  x ∈ join sep ls -> x ∈ sep \/ exists l, l ∈ ls /\ x ∈ l.
Proof.
  induction ls as [|l ls IH]; [by intros ?%elem_of_nil|].
  destruct ls as [|l' ls].
  - simpl. intros Hx. right. exists l. split; [apply list_elem_of_here | done].
  - rewrite join_cons by done. rewrite !elem_of_app.
    intros [Hx | [Hx | Hx]].
    + right. exists l. split; [apply list_elem_of_here | done].
    + by left.
    + destruct (IH Hx) as [? | (l0 & Hl0 & ?)]; [by left|].
      right. exists l0. split; [by apply list_elem_of_further | done].
Qed.

Lemma elem_of_concat {A} (x : A) (ls : list (list A)) :
  x ∈ concat ls <-> exists l, l ∈ ls /\ x ∈ l.
Proof.
  rewrite list_elem_of_In, in_concat. split; intros (l & Hl & Hx); exists l.
  - by rewrite !list_elem_of_In.
  - by rewrite <- !list_elem_of_In.
Qed.

Lemma concat_singletons {A} (l : list A) :
  concat ((fun x => [x]) <$> l) = l.
Proof.
  induction l as [|x l IH]; [done|]. by rewrite fmap_cons, concat_cons, IH.
Qed.

Lemma munged_plain (x : char) : munged_char x -> plain_char x.
Proof.
  intros (Hsp & ?). split; [|done]. intros Hx. by rewrite (Hsp Hx).
Qed.

Lemma munged_not_newline (l : pystr) : Forall munged_char l -> 10%N ∉ l.
Proof.
  intros Hl Hin. rewrite Forall_forall in Hl.
  destruct (Hl _ Hin) as [Hsp _]. by specialize (Hsp eq_refl).
Qed.

Section rewrap.
Context `{UnicodeTables}.

Lemma expandtabs_keeps (x : char) (s : pystr) (col : nat) :
  x ∈ s -> x <> 9%N -> x ∈ expandtabs col s.
Proof.
  revert col. induction s as [|c s IH]; intros col Hin Hx;
    [by apply elem_of_nil in Hin|].
  simpl. apply elem_of_cons in Hin as [<- | Hin].
  - destruct (N.eqb_spec x 9); [done|]. apply list_elem_of_here.
  - destruct (c =? 9)%N.
    + apply elem_of_app. right. by apply IH.
    + apply list_elem_of_further. by apply IH.
Qed.

Lemma munge_whitespace_keeps (x : char) (s : pystr) :
  x ∈ s -> tw_whitespace x = false -> x ∈ munge_whitespace s.
Proof.
  intros Hin Hx. unfold munge_whitespace.
  apply (list_elem_of_fmap_2' _ _ x).
  - apply expandtabs_keeps; [done|]. by intros ->.
  - by rewrite Hx.
Qed.

(** What a paragraph of plain text wraps to: at least one line, each empty
    or settled, all of munged characters. *)
Lemma para_lines_plain (width : Z) (para : pystr) (ls : list pystr) :
  Forall plain_char para ->
  para_lines width para = Ok ls ->
  ls <> [] /\
  Forall (fun l => l = [] \/ (0 < width /\ settled_line width l)) ls /\
  Forall (Forall munged_char) ls.
Proof.
  intros Hplain. unfold para_lines. case_bool_decide as Hblank.
  { intros [= <-]. split; [done|].
    split; repeat constructor. }
  unfold textwrap_wrap, wrap_chunks.
  destruct (Z.leb_spec width 0) as [|Hwidth]; [done|]. intros [= <-].
  pose proof (munge_whitespace_plain para Hplain) as Hmunged.
  destruct (tw_split_props (munge_whitespace para))
    as (Hconcat & Hchunks & Hsep).
  assert (Hchars : Forall (Forall munged_char)
                     (tw_split (munge_whitespace para))).
  { apply Forall_concat. by rewrite Hconcat. }
  split; [|split].
  - apply wrap_loop_nonempty; [|done].
    assert (Hex : exists x, x ∈ para /\ isspace x = false).
    { destruct (decide (Forall (fun c => isspace c = true) para)) as [Hall|Hn].
      - by apply strip_nil in Hall.
      - apply not_Forall_Exists in Hn; [|intros x; apply _].
        apply Exists_exists in Hn as (x & Hin & Hx).
        exists x. split; [done|]. by apply not_true_is_false. }
    destruct Hex as (x & Hin & Hx).
    assert (Hws : tw_whitespace x = false).
    { destruct (tw_whitespace x) eqn:Hw; [|done].
      apply tw_whitespace_isspace in Hw. congruence. }
    pose proof (munge_whitespace_keeps x para Hin Hws) as Hin'.
    rewrite <- Hconcat in Hin'.
    apply elem_of_concat in Hin' as (c & Hc & Hxc).
    apply Exists_exists. exists c. split; [done|].
    by apply (blank_exists c x).
  - eapply Forall_impl; [by apply wrap_loop_settled|].
    intros l Hl. right. by split.
  - by apply wrap_loop_chars.
Qed.

(** A line of wrapped plain text is a paragraph that wraps to itself. *)
Lemma para_lines_line (width : Z) (l : pystr) :
  l = [] \/ (0 < width /\ settled_line width l) ->
  Forall munged_char l ->
  para_lines width l = Ok [l].
Proof.
  intros [-> | [Hwidth Hsettled]] Hm; [done|].
  unfold para_lines. case_bool_decide as Hblank.
  - destruct Hsettled as [(s & x & -> & Hx) _].
    apply strip_nil in Hblank.
    apply Forall_app in Hblank as [_ Hb]. apply Forall_cons in Hb as [Hb _].
    apply Forall_app in Hm as [_ Hm]. apply Forall_cons in Hm as [Hm _].
    rewrite (munged_isspace x Hm) in Hb. congruence.
  - by apply settled_line_wrap.
Qed.

(** C4, amended: for a text without ampersand and angle brackets whose
    whitespace is of the six characters [textwrap] knows, wrapping the
    lines again, joined by newlines, at the same width gives the same
    lines. *)
Theorem wrap_lines_idempotent_plain
  (text : pystr) (width : Z) (lines : list pystr) :
  Forall plain_char text ->
  wrap_lines text width = Ok lines ->
  wrap_lines (join [10%N] lines) width = Ok lines.
Proof.
  intros Hplain Hlines. unfold wrap_lines in Hlines.
  rewrite escape_plain in Hlines.
  2-4: intros Hin; rewrite Forall_forall in Hplain;
       by destruct (Hplain _ Hin) as (_ & ? & ? & ?).
  destruct (result_list (para_lines width) (split_on 10 text))
    as [lss|] eqn:Hparas; [|done].
  simpl in Hlines. injection Hlines as <-.
  apply result_list_inv in Hparas.
  pose proof (split_on_parts plain_char 10 text Hplain) as Hparts.
  assert (Hall : Forall (fun ls =>
                   ls <> [] /\
                   Forall (fun l => l = [] \/ (0 < width /\ settled_line width l)) ls /\
                   Forall (Forall munged_char) ls) lss).
  { clear -Hparas Hparts. induction Hparas as [|para ls paras lss Hp _ IH];
      [constructor|].
    apply Forall_cons in Hparts as [[Hplain _] Hparts].
    constructor; [by eapply para_lines_plain | by apply IH]. }
  assert (Hne : concat lss <> []).
  { pose proof (split_on_nonempty 10 text) as Hsplit.
    destruct Hparas as [|para ls paras lss' _ _]; [done|].
    apply Forall_cons in Hall as [[Hls _] _].
    destruct ls; [done|]. done. }
  assert (Hsettled : Forall (fun l => l = [] \/ (0 < width /\ settled_line width l))
                       (concat lss)).
  { apply Forall_concat. eapply Forall_impl; [exact Hall|]. by intros ls (_ & ? & _). }
  assert (Hmunged : Forall (Forall munged_char) (concat lss)).
  { apply Forall_concat. eapply Forall_impl; [exact Hall|]. by intros ls (_ & _ & ?). }
  clear Hall Hparas Hparts. generalize dependent (concat lss).
  intros lines Hne Hsettled Hmunged.
  unfold wrap_lines. rewrite escape_plain; cycle 1.
  1-3: intros Hin; apply elem_of_join in Hin as [Hin | (l & Hl & Hin)];
       [by apply list_elem_of_singleton in Hin|];
       rewrite Forall_forall in Hmunged; specialize (Hmunged l Hl);
       rewrite Forall_forall in Hmunged;
       by destruct (Hmunged _ Hin) as (_ & ? & ? & ?).
  rewrite split_on_join; [|done|].
  2: { eapply Forall_impl; [exact Hmunged|]. apply munged_not_newline. }
  rewrite (result_list_ok _ (fun l => [l])).
  - simpl. by rewrite concat_singletons.
  - rewrite Forall_forall in Hsettled, Hmunged. apply Forall_forall.
    intros l Hl. apply para_lines_line; [by apply Hsettled | by apply Hmunged].
Qed.

End rewrap.

(** C4, as stated, fails: the lines are escaped text, and wrapping them
    again escapes the ampersand of ["&amp;"] once more; and a trailing
    no-break space that the first pass keeps, because only the space after
    it is dropped, is dropped by the second. *)
Lemma escaped_text_not_idempotent :
  wrap_lines (H := ascii_tables) (py "a & b") 62 = Ok [py "a &amp; b"] /\
  wrap_lines (H := ascii_tables) (join [10%N] [py "a &amp; b"]) 62
    = Ok [py "a &amp;amp; b"] /\
  wrap_lines (H := ascii_tables) [97; 32; 160; 32]%N 62
    = Ok [[97; 32; 160]%N] /\
  wrap_lines (H := ascii_tables) (join [10%N] [[97; 32; 160]%N]) 62
    = Ok [[97; 32]%N] /\
  ~ wrapping_idempotent (H := ascii_tables).
Proof.
  repeat split; try (vm_compute; reflexivity).
  intros Hidem.
  specialize (Hidem (py "a & b") 62 [py "a &amp; b"] ltac:(vm_compute; reflexivity)).
  vm_compute in Hidem. discriminate Hidem.
Qed.

Lemma wrap_lines_idempotent_plain_witness :
  wrap_lines (H := ascii_tables)
    (join [10%N]
       [py "Reach. When this well-known"; py "creature enters, draw."]) 27
  = Ok [py "Reach. When this well-known"; py "creature enters, draw."].
Proof.
  apply (wrap_lines_idempotent_plain (H := ascii_tables)
           (py "Reach. When this well-known creature enters, draw.") 27).
  - vm_compute. repeat (constructor; [repeat split; discriminate|]).
    constructor.
  - vm_compute. reflexivity.
Defined.

(** ** Text: long words, blank lines, line advance, flavor *)

Lemma expandtabs_cons (c : char) (s : pystr) (col : nat) :
  expandtabs col (c :: s)
  = if (c =? 9)%N
    then replicate (8 - col mod 8) 32%N
           ++ expandtabs (col + (8 - col mod 8)) s
    else c :: expandtabs (if ((c =? 10) || (c =? 13))%N then O else S col) s.
Proof. reflexivity. Qed.

Lemma expandtabs_app (a b : pystr) (col : nat) :
  exists col', expandtabs col (a ++ b) = expandtabs col a ++ expandtabs col' b.
Proof.
  revert col. induction a as [|c a IH]; intros col; [by exists col|].
  rewrite <- app_comm_cons, !expandtabs_cons. destruct (c =? 9)%N.
  - destruct (IH (col + (8 - col mod 8))%nat) as [col' Heq].
    exists col'. by rewrite Heq, app_assoc.
  - destruct (IH (if ((c =? 10) || (c =? 13))%N then 0 else S col)%nat)
      as [col' Heq].
    exists col'. by rewrite Heq.
Qed.

Lemma tab_width (col : nat) : exists k, (8 - col mod 8 = S k)%nat.
Proof.
  pose proof (Nat.mod_upper_bound col 8 ltac:(lia)).
  exists (7 - col mod 8)%nat. lia.
Qed.

Section munged_text.
Context `{UnicodeTables}.

Lemma munge_from_app (a b : pystr) (col : nat) :
  exists col', munge_from col (a ++ b) = munge_from col a ++ munge_from col' b.
Proof.
  destruct (expandtabs_app a b col) as [col' Heq].
  exists col'. unfold munge_from. by rewrite Heq, fmap_app.
Qed.

Lemma munge_from_word (w : pystr) (col : nat) :
  Forall (fun x => tw_whitespace x = false) w -> munge_from col w = w.
Proof.
  intros Hw. revert col. unfold munge_from.
  induction Hw as [|x w Hx _ IH]; intros col; [done|].
  rewrite expandtabs_cons. destruct (N.eqb_spec x 9) as [-> | _]; [done|].
  by rewrite fmap_cons, Hx, IH.
Qed.

Lemma munge_from_ws_head (y : char) (t : pystr) (col : nat) :
  tw_whitespace y = true -> ws_chunk (munge_from col (y :: t)) = true.
Proof.
  intros Hy. unfold munge_from. rewrite expandtabs_cons.
  destruct (N.eqb_spec y 9) as [-> | _].
  - destruct (tab_width col) as [k ->]. reflexivity.
  - rewrite fmap_cons, Hy. reflexivity.
Qed.

Lemma munge_from_ws_last (a : pystr) (col : nat) :
  a = [] \/ ws_chunk (reverse a) = true ->
  munge_from col a = [] \/ ws_chunk (reverse (munge_from col a)) = true.
Proof.
  intros [-> | Ha]; [by left|]. right.
  destruct (reverse a) as [|y q] eqn:Hrev; [done|].
  assert (Heq : a = reverse q ++ [y]).
  { by rewrite <- (reverse_involutive a), Hrev, reverse_cons. }
  subst a. simpl in Ha.
  destruct (munge_from_app (reverse q) [y] col) as [col' ->].
  rewrite reverse_app.
  assert (Hy : exists k, munge_from col' [y] = replicate (S k) 32%N).
  { unfold munge_from. rewrite expandtabs_cons.
    destruct (N.eqb_spec y 9) as [-> | _].
    - destruct (tab_width col') as [k ->]. exists k.
      change (expandtabs _ []) with (@nil N).
      by rewrite app_nil_r, fmap_replicate.
    - exists 0%nat. by rewrite fmap_cons, Ha. }
  destruct Hy as [k ->]. by rewrite reverse_replicate.
Qed.

(** A word between whitespace is a chunk of its munged paragraph. *)
Lemma tw_split_word (pre w post : pystr) :
  w <> [] ->
  Forall (fun x => tw_whitespace x = false /\ is_hyphen x = false) w ->
  pre = [] \/ ws_chunk (reverse pre) = true ->
  post = [] \/ ws_chunk post = true ->
  w ∈ tw_split (munge_whitespace (pre ++ w ++ post)).
Proof.
  intros Hne Hw Hpre Hpost.
  change (munge_whitespace (pre ++ w ++ post))
    with (munge_from 0 (pre ++ w ++ post)).
  destruct (munge_from_app pre (w ++ post) 0) as [col1 ->].
  destruct (munge_from_app w post col1) as [col2 ->].
  rewrite (munge_from_word w col1)
    by (eapply Forall_impl; [exact Hw | by intros x [? _]]).
  unfold tw_split. apply split_go_word; try done.
  - destruct Hpost as [-> | Hpost]; [by right|]. left.
    destruct post as [|y t]; [done|]. by apply munge_from_ws_head.
  - destruct (munge_from_ws_last pre 0 Hpre) as [-> | Hp]; [by right|].
    by left.
Qed.

(** A chunk wider than the line, and not blank, is a line by itself. *)
Lemma wrap_loop_long_chunk (w : pystr) (fuel : nat) (width : Z)
  (started : bool) (chunks : list pystr) :
  w ∈ chunks -> width < Z.of_nat (length w) -> blank w = false ->
  (length chunks <= fuel)%nat ->
  w ∈ wrap_loop fuel width started chunks.
Proof.
  intros Hin Hlong Hblank. revert started chunks Hin.
  induction fuel as [|fuel IH]; intros started chunks Hin Hfuel.
  { destruct chunks; [by apply elem_of_nil in Hin | simpl in Hfuel; lia]. }
  destruct (decide (chunks = [])) as [-> | Hne];
    [by apply elem_of_nil in Hin|].
  destruct (line_step width started chunks) as [cur rest] eqn:Hstep.
  rewrite (wrap_loop_step _ _ _ _ _ _ Hne Hstep).
  destruct (line_step_spec _ _ _ _ _ Hne Hstep)
    as (d & b & -> & Hd & Hb & Hfit & Hprog).
  assert (Hlen : (length rest <= fuel)%nat).
  { rewrite !length_app in Hfuel.
    assert (length d + length cur + length b <> 0)%nat; [|lia].
    intros Hz. apply Hprog. destruct d, cur, b; simpl in Hz; try lia. done. }
  assert (Hcases : w ∈ cur \/ w ∈ rest).
  { rewrite !elem_of_app in Hin. destruct Hin as [Hin | [Hin | [Hin | Hin]]].
    - destruct Hd as [-> | (c & -> & Hc)]; [by apply elem_of_nil in Hin|].
      apply list_elem_of_singleton in Hin as ->. congruence.
    - by left.
    - destruct Hb as [[-> _] | (c & -> & Hc)]; [by apply elem_of_nil in Hin|].
      apply list_elem_of_singleton in Hin as ->. congruence.
    - by right. }
  destruct Hcases as [Hcur | Hrest].
  - destruct Hfit as [-> | [Hfit | [c ->]]].
    + by apply elem_of_nil in Hcur.
    + apply list_elem_of_split in Hcur as (l1 & l2 & ->).
      rewrite concat_app, concat_cons, !length_app in Hfit. lia.
    + apply list_elem_of_singleton in Hcur as ->. simpl.
      rewrite app_nil_r. apply list_elem_of_here.
  - destruct cur as [|l0 cur'].
    + by apply IH.
    + apply list_elem_of_further. by apply IH.
Qed.

End munged_text.

(** *** Paragraphs and blank lines *)

Lemma escape_cons_plain (x : char) (s : pystr) :
  x <> 38%N -> x <> 60%N -> x <> 62%N -> escape (x :: s) = x :: escape s.
Proof.
  intros H38 H60 H62. change (x :: s) with ([x] ++ s).
  rewrite escape_app, (escape_plain [x]); [done|..];
    intros Hin%list_elem_of_singleton; congruence.
Qed.

Lemma isspace_not_special (x : char) :
  isspace x = true -> x <> 38%N /\ x <> 60%N /\ x <> 62%N.
Proof. intros Hx. by repeat split; intros ->. Qed.

Section paragraphs.
Context `{UnicodeTables}.

Lemma wrap_lines_app_nl (a b : pystr) (width : Z) :
  wrap_lines (a ++ 10%N :: b) width
  = (la ← wrap_lines a width; lb ← wrap_lines b width; Ok (la ++ lb)).
Proof.
  unfold wrap_lines.
  rewrite escape_app, escape_cons_plain by done.
  rewrite split_on_app, result_list_app.
  destruct (result_list _ (split_on 10 (escape a))) as [la|]; [|done].
  destruct (result_list _ (split_on 10 (escape b))) as [lb|]; [|done].
  simpl. by rewrite concat_app.
Qed.

Lemma wrap_lines_blank (s : pystr) (width : Z) :
  Forall (fun x => isspace x = true) s -> 10%N ∉ s ->
  wrap_lines s width = Ok [[]].
Proof.
  intros Hs Hnl. unfold wrap_lines.
  rewrite escape_plain.
  2-4: intros Hin; rewrite Forall_forall in Hs;
       by destruct (isspace_not_special _ (Hs _ Hin)) as (? & ? & ?).
  rewrite split_on_absent by done. simpl. unfold para_lines.
  apply strip_nil in Hs. by rewrite bool_decide_eq_true_2.
Qed.

(** With a positive width the wrapping returns. *)
Lemma para_lines_total (width : Z) (para : pystr) :
  0 < width -> exists ls, para_lines width para = Ok ls.
Proof.
  intros Hwidth. unfold para_lines, textwrap_wrap, wrap_chunks.
  case_bool_decide; [by eexists|].
  destruct (Z.leb_spec width 0); [lia | by eexists].
Qed.

Lemma result_list_total {A B} (f : A -> result B) (l : list A) :
  (forall a, exists b, f a = Ok b) -> exists bs, result_list f l = Ok bs.
Proof.
  intros Hf. induction l as [|a l [bs IH]]; [by eexists|].
  destruct (Hf a) as [b Hb]. simpl. rewrite Hb, IH. by eexists.
Qed.

Lemma wrap_lines_total (text : pystr) (width : Z) :
  0 < width -> exists lines, wrap_lines text width = Ok lines.
Proof.
  intros Hwidth. unfold wrap_lines.
  destruct (result_list_total (para_lines width) (split_on 10 (escape text))
              (fun para => para_lines_total width para Hwidth)) as [lss ->].
  by eexists.
Qed.

(** The lines of a paragraph are among the lines of the text. *)
Lemma wrap_lines_para (text : pystr) (width : Z) (lines : list pystr)
  (para : pystr) :
  wrap_lines text width = Ok lines ->
  para ∈ split_on 10 (escape text) ->
  exists ls, para_lines width para = Ok ls /\ forall l, l ∈ ls -> l ∈ lines.
Proof.
  unfold wrap_lines. intros Hlines Hpara.
  destruct (result_list _ _) as [lss|] eqn:Hparas; [|done].
  injection Hlines as <-. apply result_list_inv in Hparas.
  apply list_elem_of_lookup in Hpara as [i Hi].
  destruct (Forall2_lookup_l _ _ _ _ _ Hparas Hi) as (ls & Hls & Hp).
  exists ls. split; [done|]. intros l Hl.
  apply elem_of_concat. exists ls. split; [|done].
  by apply list_elem_of_lookup_2 in Hls.
Qed.

(** *** The first and the last character *)

Lemma wrap_loop_first (c1 : pystr) (cs : list pystr) (fuel : nat)
  (width : Z) (started : bool) :
  blank c1 = false ->
  exists l ls, wrap_loop (S fuel) width started (c1 :: cs) = (c1 ++ l) :: ls.
Proof.
  intros Hc1.
  destruct (line_step width started (c1 :: cs)) as [cur rest] eqn:Hstep.
  rewrite (wrap_loop_step _ _ _ (c1 :: cs) _ _ ltac:(discriminate) Hstep).
  destruct (line_step_spec width started (c1 :: cs) cur rest
              ltac:(discriminate) Hstep)
    as (d & b & Heq & Hd & Hb & _ & Hprog).
  destruct Hd as [-> | (c & -> & Hc)];
    [|injection Heq as <- _; congruence].
  destruct cur as [|x cur'].
  - destruct Hb as [[-> _] | (c & -> & Hc)]; [done|].
    injection Heq as <- _. congruence.
  - injection Heq as <- _. by eexists _, _.
Qed.

Lemma wrap_loop_last (c : pystr) (fuel : nat) (width : Z) (started : bool)
  (cs : list pystr) :
  blank c = false -> (length (cs ++ [c]) <= fuel)%nat ->
  exists ls l, wrap_loop fuel width started (cs ++ [c]) = ls ++ [l ++ c].
Proof.
  intros Hc. revert started cs.
  induction fuel as [|fuel IH]; intros started cs Hfuel.
  { rewrite length_app in Hfuel. simpl in Hfuel. lia. }
  assert (Hne : cs ++ [c] <> []) by (by destruct cs).
  destruct (line_step width started (cs ++ [c])) as [cur rest] eqn:Hstep.
  rewrite (wrap_loop_step _ _ _ _ _ _ Hne Hstep).
  destruct (line_step_spec _ _ _ _ _ Hne Hstep)
    as (d & b & Heq & Hd & Hb & _ & Hprog).
  destruct (decide (rest = [])) as [-> | Hrest].
  - rewrite app_nil_r in Heq. rewrite !wrap_loop_nil.
    destruct Hb as [[-> Hcur] | (c' & -> & Hc')].
    + rewrite app_nil_r in Heq.
      destruct Hcur as [-> | (p & a & -> & _)].
      * rewrite app_nil_r in Heq.
        destruct Hd as [-> | (c' & -> & Hc')]; [by destruct cs|].
        change [c'] with ([] ++ [c']) in Heq.
        apply app_inj_tail in Heq as [_ ->]. congruence.
      * rewrite app_assoc in Heq. apply app_inj_tail in Heq as [_ ->].
        destruct (p ++ [a]) as [|x q] eqn:Hpa; [by destruct p|].
        rewrite <- Hpa. exists [], (concat p).
        rewrite concat_app. simpl. by rewrite app_nil_r.
    + rewrite !app_assoc in Heq. apply app_inj_tail in Heq as [_ ->].
      congruence.
  - destruct (exists_last Hrest) as (rs & c' & ->).
    rewrite !app_assoc in Heq. apply app_inj_tail in Heq as [Hcs <-].
    assert (Hlen : (length (rs ++ [c]) <= fuel)%nat).
    { rewrite Hcs, !length_app in Hfuel. rewrite length_app. simpl in *.
      assert (length d + length cur + length b <> 0)%nat; [|lia].
      intros Hz. apply Hprog. destruct d, cur, b; simpl in Hz; try lia.
      done. }
    destruct cur as [|x cur'].
    + by apply IH.
    + destruct (IH true rs Hlen) as (ls & l & ->).
      by exists (concat (x :: cur') :: ls), l.
Qed.

Lemma not_space_not_ws (q : char) :
  isspace q = false -> tw_whitespace q = false.
Proof.
  intros Hq. destruct (tw_whitespace q) eqn:Hw; [|done].
  apply tw_whitespace_isspace in Hw. congruence.
Qed.

Lemma para_lines_first (q : char) (p : pystr) (width : Z) (ls : list pystr) :
  isspace q = false ->
  para_lines width (q :: p) = Ok ls ->
  exists l ls', ls = (q :: l) :: ls'.
Proof.
  intros Hq. pose proof (not_space_not_ws q Hq) as Hws.
  unfold para_lines. case_bool_decide as Hblank.
  { apply strip_nil in Hblank. apply Forall_cons in Hblank as [Hb _].
    congruence. }
  unfold textwrap_wrap, wrap_chunks.
  destruct (Z.leb_spec width 0); [done|]. intros [= <-].
  change (munge_whitespace (q :: p)) with (munge_from 0 (q :: p)).
  unfold munge_from. rewrite expandtabs_cons.
  destruct (N.eqb_spec q 9) as [-> | _]; [done|].
  rewrite fmap_cons, Hws.
  set (T := _ <$> expandtabs _ p).
  assert (Hhead : exists r cs, tw_split (q :: T) = (q :: r) :: cs).
  { unfold tw_split. simpl length. rewrite split_go_cons. cbv zeta.
    pose proof (chunk_len_pos [] (q :: T) ltac:(discriminate)) as Hpos.
    destruct (chunk_len [] (q :: T)) as [|n]; [lia|]. by eexists _, _. }
  destruct Hhead as (r & cs & ->). simpl length.
  destruct (wrap_loop_first (q :: r) cs (length cs) width false)
    as (l & ls & ->).
  { apply (blank_exists _ q); [apply list_elem_of_here | done]. }
  by eexists _, _.
Qed.

Lemma para_lines_last (q : char) (p : pystr) (width : Z) (ls : list pystr) :
  isspace q = false ->
  para_lines width (p ++ [q]) = Ok ls ->
  exists ls' l, ls = ls' ++ [l ++ [q]].
Proof.
  intros Hq. pose proof (not_space_not_ws q Hq) as Hws.
  unfold para_lines. case_bool_decide as Hblank.
  { apply strip_nil in Hblank. apply Forall_app in Hblank as [_ Hb].
    apply Forall_cons in Hb as [Hb _]. congruence. }
  unfold textwrap_wrap, wrap_chunks.
  destruct (Z.leb_spec width 0); [done|]. intros [= <-].
  change (munge_whitespace (p ++ [q])) with (munge_from 0 (p ++ [q])).
  destruct (munge_from_app p [q] 0) as [col' ->].
  rewrite (munge_from_word [q]) by (by constructor).
  set (T := munge_from 0 p).
  destruct (tw_split_props (T ++ [q])) as (Hconcat & Hchunks & _).
  destruct (tw_split (T ++ [q])) as [|c0 cs0] eqn:Hsplit.
  { simpl in Hconcat. by destruct T. }
  destruct (@exists_last _ (c0 :: cs0) ltac:(discriminate)) as (cs & c & Hcs).
  rewrite Hcs in *. clear Hcs Hsplit c0 cs0.
  apply Forall_app in Hchunks as [_ Hc]. apply Forall_cons in Hc as [Hc _].
  destruct (chunk_uniform c Hc) as [Hcne _].
  destruct (exists_last Hcne) as (c' & q' & ->).
  rewrite concat_app in Hconcat. simpl in Hconcat.
  rewrite app_nil_r, app_assoc in Hconcat.
  apply app_inj_tail in Hconcat as [_ ->].
  destruct (wrap_loop_last (c' ++ [q]) (length (cs ++ [c' ++ [q]])) width
              false cs) as (ls & l & ->); [|done|].
  { apply (blank_exists _ q); [|done].
    apply elem_of_app. right. apply list_elem_of_here. }
  exists ls, (l ++ c'). by rewrite app_assoc.
Qed.

Lemma split_on_head sep (c : char) (s : pystr) :
  c <> sep -> exists p ps, split_on sep (c :: s) = (c :: p) :: ps.
Proof.
  intros Hne. simpl. destruct (N.eqb_spec c sep); [done|].
  destruct (split_on sep s); by eexists _, _.
Qed.

Lemma split_on_snoc sep (c : char) (s : pystr) :
  c <> sep -> exists ps p, split_on sep (s ++ [c]) = ps ++ [p ++ [c]].
Proof.
  intros Hne. induction s as [|x s (ps & p & IH)].
  - simpl. destruct (N.eqb_spec c sep); [done|]. by exists [], [].
  - simpl. rewrite IH. destruct (x =? sep)%N.
    + by exists ([] :: ps), p.
    + destruct ps as [|q qs].
      * by exists [], (x :: p).
      * by exists ((x :: q) :: qs), p.
Qed.

(** Text that starts and ends with characters that are neither whitespace
    nor escaped wraps to lines that start and end with them. *)
Lemma wrap_lines_ends (q1 q2 : char) (body : pystr) (width : Z)
  (lines : list pystr) :
  isspace q1 = false -> isspace q2 = false ->
  q1 <> 38%N -> q1 <> 60%N -> q1 <> 62%N ->
  q2 <> 38%N -> q2 <> 60%N -> q2 <> 62%N ->
  wrap_lines ([q1] ++ body ++ [q2]) width = Ok lines ->
  (exists l ls, lines = (q1 :: l) :: ls) /\
  (exists ls l, lines = ls ++ [l ++ [q2]]).
Proof.
  intros Hq1 Hq2 ? ? ? ? ? ? Hlines. unfold wrap_lines in Hlines.
  destruct (result_list _ _) as [lss|] eqn:Hparas; [|done].
  injection Hlines as <-. apply result_list_inv in Hparas.
  assert (Hn1 : q1 <> 10%N) by (by intros ->).
  assert (Hn2 : q2 <> 10%N) by (by intros ->).
  split.
  - simpl app in Hparas. rewrite escape_cons_plain in Hparas by done.
    destruct (split_on_head 10 q1 (escape (body ++ [q2])) Hn1)
      as (p & ps & Hsplit).
    rewrite Hsplit in Hparas.
    apply Forall2_cons_inv_l in Hparas as (ls1 & lss' & Hp & _ & ->).
    apply para_lines_first in Hp as (l & ls' & ->); [|done].
    by eexists _, _.
  - rewrite app_assoc, escape_app, (escape_cons_plain q2 []) in Hparas by done.
    destruct (split_on_snoc 10 q2 (escape ([q1] ++ body)) Hn2)
      as (ps & p & Hsplit).
    change (escape []) with (@nil N) in Hparas.
    rewrite Hsplit in Hparas.
    apply Forall2_app_inv_l in Hparas as (lss1 & lss2 & _ & Hlast & ->).
    apply Forall2_cons_inv_l in Hlast as (lsn & lss' & Hp & Hnil & ->).
    apply Forall2_nil_inv_l in Hnil as ->.
    apply para_lines_last in Hp as (ls' & l & ->); [|done].
    rewrite concat_app. simpl. rewrite app_nil_r.
    exists (concat lss1 ++ ls'), l. by rewrite app_assoc.
Qed.

End paragraphs.

(** *** The advance of the lines *)

Lemma length_tspan_dys (line_height y : Z) (lines : list pystr) :
  length (tspan_dys line_height y lines) = length lines.
Proof.
  revert y. induction lines as [|t lines IH]; intros y; [done|].
  simpl. by rewrite IH.
Qed.

Lemma tspan_dys_first (line_height y : Z) (t : pystr) (lines : list pystr) :
  tspan_dys line_height y (t :: lines) !! 0%nat = Some y.
Proof. reflexivity. Qed.

Lemma tspan_dys_next (line_height y : Z) (lines : list pystr) (k : nat)
  (t : pystr) :
  lines !! k = Some t -> (S k < length lines)%nat ->
  tspan_dys line_height y lines !! S k
  = Some (if bool_decide (t = []) then line_height + line_height
          else line_height).
Proof.
  revert y k. induction lines as [|t0 lines IH]; intros y k Ht Hk; [done|].
  destruct k as [|k].
  - simpl in Ht. injection Ht as ->. simpl in Hk.
    destruct lines as [|t1 lines]; [simpl in Hk; lia|]. reflexivity.
  - simpl in Ht, Hk. simpl. apply IH; [done | lia].
Qed.

(** ** The rules and flavor text *)

Section rules_text.
Context `{UnicodeTables}.

(** A word without hyphens, wider than the width, is a line of its own. *)
Lemma long_word_own_line (text : pystr) (width : Z) (lines : list pystr)
  (para pre w post : pystr) :
  0 < width ->
  wrap_lines text width = Ok lines ->
  para ∈ split_on 10 (escape text) ->
  para = pre ++ w ++ post ->
  pre = [] \/ ws_chunk (reverse pre) = true ->
  post = [] \/ ws_chunk post = true ->
  Forall (fun x => isspace x = false /\ is_hyphen x = false) w ->
  width < Z.of_nat (length w) ->
  w ∈ lines.
Proof.
  intros Hwidth Hlines Hpara -> Hpre Hpost Hw Hlong.
  destruct (wrap_lines_para _ _ _ _ Hlines Hpara) as (ls & Hls & Hsub).
  apply Hsub. clear Hsub Hlines Hpara.
  assert (Hne : w <> []) by (intros ->; simpl in Hlong; lia).
  assert (Hblank : blank w = false).
  { destruct w as [|x w']; [done|]. apply Forall_cons in Hw as [[Hx _] _].
    apply (blank_exists _ x); [apply list_elem_of_here | done]. }
  unfold para_lines in Hls. case_bool_decide as Hb.
  { apply strip_nil in Hb. apply Forall_app in Hb as [_ Hb].
    apply Forall_app in Hb as [Hb _]. apply blank_all in Hb. congruence. }
  unfold textwrap_wrap, wrap_chunks in Hls.
  destruct (Z.leb_spec width 0); [lia|]. injection Hls as <-.
  apply wrap_loop_long_chunk; try done.
  apply tw_split_word; try done.
  eapply Forall_impl; [exact Hw|]. intros x [Hx ?].
  split; [by apply not_space_not_ws | done].
Qed.

(** C5, amended: a word without hyphens that is wider than the width is
    emitted whole as a line of its own (a hyphen inside a word is a place
    to break); a blank paragraph between two texts gives one empty line
    between their lines; the first line has [dy] 0 and every later line
    the line height, or twice the line height when the line before it is
    empty; a flavor that is not empty is wrapped by the same function at
    the same width of 60, between a left and a right curly quotation mark,
    which open the first line and close the last. *)
Theorem rules_text_layout :
  (forall text width lines para pre w post,
      0 < width ->
      wrap_lines text width = Ok lines ->
      para ∈ split_on 10 (escape text) ->
      para = pre ++ w ++ post ->
      pre = [] \/ ws_chunk (reverse pre) = true ->
      post = [] \/ ws_chunk post = true ->
      Forall (fun x => isspace x = false /\ is_hyphen x = false) w ->
      width < Z.of_nat (length w) ->
      w ∈ lines) /\
  (forall a gap b width la lb,
      Forall (fun x => isspace x = true) gap -> 10%N ∉ gap ->
      wrap_lines a width = Ok la -> wrap_lines b width = Ok lb ->
      wrap_lines (a ++ 10%N :: gap ++ 10%N :: b) width
      = Ok (la ++ [] :: lb)) /\
  (forall text width line_height x lines,
      wrap_lines (text_of text) width = Ok lines ->
      let dys := tspan_dys line_height 0 lines in
      wrap_svg_text text width line_height x
      = Ok (join (10%N :: py "    ") (zip_with (tspan x) dys lines)) /\
      length dys = length lines /\
      (lines <> [] -> dys !! 0%nat = Some 0) /\
      (forall k t,
          lines !! k = Some t -> (S k < length lines)%nat ->
          dys !! S k
          = Some (if bool_decide (t = []) then line_height + line_height
                  else line_height))) /\
  (forall flavor x fs,
      flavor <> [] ->
      flavor_lines flavor x fs = wrap_svg_text (inl (quoted flavor)) 60 fs x /\
      exists lines,
        wrap_lines (quoted flavor) 60 = Ok lines /\
        (exists l ls, lines = (8220%N :: l) :: ls) /\
        (exists ls l, lines = ls ++ [l ++ [8221%N]])).
Proof.
  split; [|split; [|split]].
  - intros. by eapply long_word_own_line.
  - intros a gap b width la lb Hgap Hnl Ha Hb.
    rewrite wrap_lines_app_nl, Ha. simpl.
    rewrite wrap_lines_app_nl, (wrap_lines_blank gap width Hgap Hnl), Hb.
    reflexivity.
  - intros text width line_height x lines Hlines dys.
    split; [|split; [|split]].
    + unfold wrap_svg_text. rewrite Hlines. reflexivity.
    + apply length_tspan_dys.
    + destruct lines; [done|]. intros _. apply tspan_dys_first.
    + intros k t Ht Hk. by apply tspan_dys_next.
  - intros flavor x fs Hne. split; [by destruct flavor|].
    destruct (wrap_lines_total (quoted flavor) 60 ltac:(lia)) as [lines Hl].
    exists lines. split; [done|].
    by apply (wrap_lines_ends 8220 8221 flavor 60 lines).
Qed.

End rules_text.

(** C5, as stated, fails: the line after an empty line advances by twice
    the line height, and a long word with a hyphen inside is split after
    the hyphen. *)
Lemma rules_text_claim_fails :
  wrap_lines (H := ascii_tables) [97; 10; 10; 98]%N 60
    = Ok [[97%N]; []; [98%N]] /\
  tspan_dys 24 0 [[97%N]; []; [98%N]] = [0; 24; 48] /\
  ~ fixed_advance (H := ascii_tables) /\
  wrap_lines (H := ascii_tables) hyphenated_word 60
    = Ok [replicate 40 97%N ++ [45%N]; replicate 40 98%N] /\
  ~ long_word_unsplit (H := ascii_tables).
Proof.
  split; [vm_compute; reflexivity|]. split; [reflexivity|].
  split; [|split; [vm_compute; reflexivity|]].
  - intros Hfixed.
    specialize (Hfixed [97; 10; 10; 98]%N 60 24 [[97%N]; []; [98%N]] 1%nat 48
                  ltac:(vm_compute; reflexivity) ltac:(reflexivity)).
    discriminate Hfixed.
  - intros Hunsplit.
    specialize (Hunsplit hyphenated_word 60
                  [replicate 40 97%N ++ [45%N]; replicate 40 98%N]).
    assert (Hfalse : [replicate 40 97%N ++ [45%N]; replicate 40 98%N]
                     = [hyphenated_word]); [|discriminate Hfalse].
    apply Hunsplit.
    + apply Forall_forall. intros x Hx. unfold hyphenated_word in Hx.
      rewrite !elem_of_app in Hx.
      destruct Hx as [Hx | [Hx | Hx]].
      * apply elem_of_replicate in Hx as [-> _]. reflexivity.
      * apply list_elem_of_singleton in Hx as ->. reflexivity.
      * apply elem_of_replicate in Hx as [-> _]. reflexivity.
    + vm_compute. reflexivity.
    + vm_compute. reflexivity.
Qed.

Lemma rules_text_layout_witness :
  py "hello" ∈ [py "ab"; py "hello"; py "cd"] /\
  tspan_dys 24 0 [py "a"; []; py "b"] !! 2%nat = Some (24 + 24).
Proof.
  split.
  - apply (proj1 (rules_text_layout (H := ascii_tables))
             (py "ab hello cd") 3 _ (py "ab hello cd")
             (py "ab ") (py "hello") (py " cd")).
    + lia.
    + vm_compute. reflexivity.
    + vm_compute. apply list_elem_of_here.
    + reflexivity.
    + right. reflexivity.
    + right. reflexivity.
    + repeat (constructor; [split; reflexivity|]). constructor.
    + vm_compute. reflexivity.
  - apply (proj2 (proj2 (proj2 (proj1 (proj2 (proj2
             (rules_text_layout (H := ascii_tables))))
             (inl [97; 10; 10; 98]%N) 60 24 36 [py "a"; []; py "b"]
             ltac:(vm_compute; reflexivity)))) 1%nat []).
    + reflexivity.
    + simpl. lia.
Defined.

(** ** The builders return *)

Ltac in_keys := apply list_elem_of_In; simpl; tauto.

Section totality.
Context `{UnicodeTables}.

Lemma wrap_svg_text_total (text : pystr + list pystr) (width lh x : Z) :
  0 < width -> exists s, wrap_svg_text text width lh x = Ok s.
Proof.
  intros Hwidth. unfold wrap_svg_text.
  destruct (wrap_lines_total (text_of text) width Hwidth) as [lines ->].
  by eexists.
Qed.

Lemma default_theme_shaped (rarity : pystr) :
  theme_shaped (get_theme ∅ rarity).
Proof.
  assert (Hkey : forall key, key <> "frame_inner" ->
                   get_theme ∅ rarity !! key = default_theme !! key).
  { intros key Hne. by apply get_theme_lookup_default. }
  assert (Hinner : exists v, get_theme ∅ rarity !! "frame_inner" = Some v).
  { unfold get_theme. destruct (rarity_colors !! rarity).
    - rewrite lookup_insert_eq. by eexists.
    - by eexists. }
  split; [|split; [|split]].
  - rewrite Hkey by done. by eexists _, _.
  - intros key Hin. unfold rect_keys in Hin.
    repeat (apply elem_of_cons in Hin as [-> | Hin];
            [rewrite Hkey by done; by eexists _, _, _, _|]).
    by apply elem_of_nil in Hin.
  - intros key Hin. unfold anchor_keys in Hin.
    repeat (apply elem_of_cons in Hin as [-> | Hin];
            [rewrite Hkey by done; by eexists _, _, _|]).
    by apply elem_of_nil in Hin.
  - intros key Hin. unfold style_keys in Hin.
    repeat (apply elem_of_cons in Hin as [-> | Hin];
            [first [exact Hinner | rewrite Hkey by done; by eexists]|]).
    by apply elem_of_nil in Hin.
Qed.

Section shaped.
Variable theme : gmap string value.
Hypothesis Hshaped : theme_shaped theme.

Lemma shaped_pair :
  exists a b, theme !! "card_sz" = Some (VPair a b).
Proof. exact (proj1 Hshaped). Qed.

Lemma shaped_rect (key : string) :
  key ∈ rect_keys -> exists x y w h, theme !! key = Some (VRect x y w h).
Proof. exact (proj1 (proj2 Hshaped) key). Qed.

Lemma shaped_anchor (key : string) :
  key ∈ anchor_keys -> exists x y fs, theme !! key = Some (VTriple x y fs).
Proof. exact (proj1 (proj2 (proj2 Hshaped)) key). Qed.

Lemma shaped_style (key : string) :
  key ∈ style_keys -> exists v, theme !! key = Some v.
Proof. exact (proj2 (proj2 (proj2 Hshaped)) key). Qed.

Lemma build_frame_str_total : exists s, build_frame_str theme = Ok s.
Proof.
  destruct shaped_pair as (cw & ch & Hsz).
  destruct (shaped_rect "inner_rec" ltac:(in_keys)) as (? & ? & ? & ? & Hinner).
  destruct (shaped_style "frame_bg" ltac:(in_keys)) as (? & Hs1).
  destruct (shaped_style "frame_inner" ltac:(in_keys)) as (? & Hs2).
  destruct (shaped_style "frame_border" ltac:(in_keys)) as (? & Hs3).
  unfold build_frame_str, fmt, theme_get.
  rewrite Hsz, Hinner, Hs1, Hs2, Hs3. by eexists.
Qed.

Lemma build_title_str_total (name rarity : pystr) :
  exists s, build_title_str theme name rarity = Ok s.
Proof.
  destruct (shaped_rect "title_rec" ltac:(in_keys)) as (? & ? & ? & ? & Htitle).
  destruct (shaped_anchor "title_txt_rec" ltac:(in_keys)) as (? & ? & ? & Ha1).
  destruct (shaped_anchor "title_rarity_rec" ltac:(in_keys))
    as (? & ? & ? & Ha2).
  destruct (shaped_style "title_bg" ltac:(in_keys)) as (? & Hs4).
  destruct (shaped_style "title_fg" ltac:(in_keys)) as (? & Hs5).
  destruct (shaped_style "frame_border" ltac:(in_keys)) as (? & Hs3).
  destruct (shaped_style "font_serif" ltac:(in_keys)) as (? & Hs15).
  unfold build_title_str, fmt, theme_get.
  rewrite Htitle, Hs4, Hs3, Ha1, Hs15, Hs5, Ha2. by eexists.
Qed.

(** No file is read: the card has no art path, or nothing exists at it. *)
Lemma build_art_str_total (fs : filesystem) (art_path : option pystr) :
  (forall p, art_path = Some p -> fs p = None) ->
  exists clipping_art art_img,
    build_art_str fs theme art_path = Ok (clipping_art, art_img).
Proof.
  intros _.
  destruct (shaped_rect "art_rec" ltac:(in_keys)) as (? & ? & ? & ? & Hart).
  destruct (shaped_style "art_bg" ltac:(in_keys)) as (? & Hs6).
  destruct (shaped_style "frame_border" ltac:(in_keys)) as (? & Hs3).
  unfold build_art_str, fmt, theme_get.
  rewrite Hart, Hs6, Hs3. by eexists _, _.
Qed.

Lemma build_type_str_total (type : pystr) :
  exists s, build_type_str theme type = Ok s.
Proof.
  destruct (shaped_rect "type_rec" ltac:(in_keys)) as (? & ? & ? & ? & Htype).
  destruct (shaped_anchor "type_txt_rec" ltac:(in_keys)) as (? & ? & ? & Ha3).
  destruct (shaped_style "type_bg" ltac:(in_keys)) as (? & Hs7).
  destruct (shaped_style "type_fg" ltac:(in_keys)) as (? & Hs8).
  destruct (shaped_style "frame_border" ltac:(in_keys)) as (? & Hs3).
  destruct (shaped_style "font_sans" ltac:(in_keys)) as (? & Hs16).
  unfold build_type_str, fmt, theme_get.
  rewrite Htype, Hs7, Hs3, Ha3, Hs16, Hs8. by eexists.
Qed.

Lemma build_rules_str_total (rules : pystr + list pystr) (flavor : pystr) :
  exists s, build_rules_str theme rules flavor = Ok s.
Proof.
  destruct (shaped_rect "rules_rec" ltac:(in_keys)) as (? & ? & ? & ? & Hrules).
  destruct (shaped_anchor "rules_txt_rec" ltac:(in_keys))
    as (rx & ry & rfs & Ha4).
  destruct (shaped_anchor "flavor_txt_rec" ltac:(in_keys))
    as (fx & fy & ffs & Ha5).
  destruct (shaped_style "rules_bg" ltac:(in_keys)) as (? & Hs9).
  destruct (shaped_style "rules_fg" ltac:(in_keys)) as (? & Hs10).
  destruct (shaped_style "flavor_fg" ltac:(in_keys)) as (? & Hs11).
  destruct (shaped_style "frame_border" ltac:(in_keys)) as (? & Hs3).
  destruct (shaped_style "font_serif" ltac:(in_keys)) as (? & Hs15).
  unfold build_rules_str, fmt, theme_get.
  rewrite Hrules, Hs9, Hs3, Ha4, Hs15, Hs10, Ha5, Hs11.
  cbn [mbind result_bind fmap result_fmap unpack4 unpack3].
  destruct (wrap_svg_text_total rules 60 rfs rx ltac:(lia)) as [s ->].
  cbn [mbind result_bind].
  assert (Hfl : exists s', flavor_lines flavor fx ffs = Ok s').
  { unfold flavor_lines. destruct flavor; [by eexists|].
    apply wrap_svg_text_total. lia. }
  destruct Hfl as [s' ->]. by eexists.
Qed.

Lemma build_optional_str_total (pt price weight : option pystr) :
  exists s, build_optional_str theme pt price weight = Ok s.
Proof.
  destruct (shaped_rect "opt_box" ltac:(in_keys)) as (? & ? & ? & ? & Hopt).
  destruct (shaped_anchor "opt_txt_rec" ltac:(in_keys)) as (? & ? & ? & Ha8).
  destruct (shaped_style "pt_bg" ltac:(in_keys)) as (? & Hs13).
  destruct (shaped_style "pt_fg" ltac:(in_keys)) as (? & Hs14).
  destruct (shaped_style "frame_border" ltac:(in_keys)) as (? & Hs3).
  destruct (shaped_style "font_serif" ltac:(in_keys)) as (? & Hs15).
  unfold build_optional_str, theme_get. rewrite Hopt, Ha8.
  cbn [mbind result_bind unpack4 unpack3].
  match goal with
  | |- context [result_list ?f ?l] =>
      destruct (result_list_total f l) as [strs ->]; [|by eexists]
  end.
  intros [[bx tx] el]. unfold badge_str, fmt, theme_get.
  rewrite Hs13, Hs3, Hs15, Hs14. by eexists.
Qed.

Lemma build_footer_str_total (set_code collector author copyright_str : pystr) :
  exists s,
    build_footer_str theme set_code collector author copyright_str = Ok s.
Proof.
  destruct (shaped_anchor "footer_txt_rec_l" ltac:(in_keys))
    as (? & ? & ? & Ha6).
  destruct (shaped_anchor "footer_txt_rec_r" ltac:(in_keys))
    as (? & ? & ? & Ha7).
  destruct (shaped_style "font_sans" ltac:(in_keys)) as (? & Hs16).
  destruct (shaped_style "footer_fg" ltac:(in_keys)) as (? & Hs12).
  unfold build_footer_str, fmt, theme_get.
  rewrite Ha6, Hs16, Hs12, Ha7. by eexists.
Qed.

End shaped.


End totality.


(** ** Text: what wrapping keeps *)

Lemma Forall_or_Exists_bool {A} (p : A -> bool) (l : list A) :
  Forall (fun a => p a = true) l \/ Exists (fun a => p a = false) l.
Proof.
  induction l as [|a l [IH | IH]]; [by left | |].
  - destruct (p a) eqn:Ha; [left; by constructor | right; by left].
  - right. by right.
Qed.

Lemma concat_empty_lines (paras : list pystr) :
  concat ((fun _ : pystr => [[] : pystr]) <$> paras)
  = replicate (length paras) [].
Proof. induction paras as [|p ps IH]; [done|]. simpl. f_equal. exact IH. Qed.

Lemma visible_filter_app (a b : pystr) :
  filter (fun c => visible c = true) (a ++ b)
  = filter (fun c => visible c = true) a
      ++ filter (fun c => visible c = true) b.
Proof. apply filter_app. Qed.

Lemma visible_filter_blank (s : pystr) :
  Forall (fun c => isspace c = true) s ->
  filter (fun c => visible c = true) s = [].
Proof.
  induction 1 as [|c s Hc _ IH]; [done|].
  rewrite filter_cons_False; [done|]. unfold visible. by rewrite Hc.
Qed.

Lemma visible_filter_replicate_space (n : nat) :
  filter (fun c => visible c = true) (replicate n 32%N) = [].
Proof. apply visible_filter_blank. by apply Forall_replicate. Qed.

Lemma visible_filter_split_on (s : pystr) :
  filter (fun c => visible c = true) (concat (split_on 10 s))
  = filter (fun c => visible c = true) s.
Proof.
  induction s as [|c s IH]; [done|]. simpl.
  destruct (N.eqb_spec c 10) as [-> | Hc].
  - simpl. rewrite IH. by rewrite filter_cons_False.
  - destruct (split_on 10 s) as [|p ps] eqn:Hs.
    { by destruct (split_on_nonempty 10 s). }
    simpl in *. rewrite !filter_cons. by rewrite IH.
Qed.

Lemma visible_filter_expandtabs (s : pystr) (col : nat) :
  filter (fun c => visible c = true) (expandtabs col s)
  = filter (fun c => visible c = true) s.
Proof.
  revert col. induction s as [|c s IH]; intros col; [done|].
  rewrite expandtabs_cons. destruct (N.eqb_spec c 9) as [-> | Hc].
  - rewrite visible_filter_app, visible_filter_replicate_space, IH.
    by rewrite filter_cons_False.
  - rewrite !filter_cons. by rewrite IH.
Qed.

Section kept.
Context `{UnicodeTables}.

Lemma visible_filter_munge (s : pystr) :
  filter (fun c => visible c = true) (munge_whitespace s)
  = filter (fun c => visible c = true) s.
Proof.
  unfold munge_whitespace. rewrite <- (visible_filter_expandtabs s 0).
  induction (expandtabs 0 s) as [|c t IH]; [done|].
  rewrite fmap_cons. destruct (tw_whitespace c) eqn:Hc.
  - rewrite !filter_cons_False, IH; [done| |done].
    unfold visible. by rewrite (tw_whitespace_isspace c Hc).
  - rewrite !filter_cons. by rewrite IH.
Qed.

Lemma visible_filter_blank_chunk (d : list pystr) :
  (d = [] \/ exists c, d = [c] /\ blank c = true) ->
  filter (fun c => visible c = true) (concat d) = [].
Proof.
  intros [-> | (c & -> & Hc)]; [done|]. simpl. rewrite app_nil_r.
  apply visible_filter_blank. by apply blank_all.
Qed.

(** The lines of [_wrap_chunks] hold the visible characters of the chunks,
    in order. *)
Lemma wrap_loop_visible (fuel : nat) (width : Z) (started : bool)
  (chunks : list pystr) :
  (length chunks <= fuel)%nat ->
  filter (fun c => visible c = true)
    (concat (wrap_loop fuel width started chunks))
  = filter (fun c => visible c = true) (concat chunks).
Proof.
  revert started chunks.
  induction fuel as [|fuel IH]; intros started chunks Hfuel.
  { destruct chunks; [done | simpl in Hfuel; lia]. }
  destruct (decide (chunks = [])) as [-> | Hne]; [done|].
  destruct (line_step width started chunks) as [cur rest] eqn:Hstep.
  rewrite (wrap_loop_step _ _ _ _ _ _ Hne Hstep).
  destruct (line_step_spec _ _ _ _ _ Hne Hstep)
    as (d & b & -> & Hd & Hb & _ & Hprog).
  assert (Hrest : (length rest <= fuel)%nat).
  { rewrite !length_app in Hfuel.
    assert (length d + length cur + length b <> 0)%nat; [|lia].
    intros Hz. apply Hprog.
    destruct d, cur, b; simpl in Hz; try lia. done. }
  assert (Hbb : filter (fun c => visible c = true) (concat b) = []).
  { apply visible_filter_blank_chunk.
    destruct Hb as [[-> _] | Hb]; [by left | by right]. }
  rewrite !concat_app, !visible_filter_app.
  rewrite (visible_filter_blank_chunk d Hd), Hbb. simpl.
  destruct cur as [|l0 cur'].
  - simpl. by apply IH.
  - rewrite concat_cons, visible_filter_app, (IH _ _ Hrest). done.
Qed.

Lemma para_lines_visible (width : Z) (para : pystr) (ls : list pystr) :
  para_lines width para = Ok ls ->
  filter (fun c => visible c = true) (concat ls)
  = filter (fun c => visible c = true) para.
Proof.
  unfold para_lines. case_bool_decide as Hblank.
  - intros [= <-]. simpl. symmetry. apply visible_filter_blank.
    by apply strip_nil.
  - unfold textwrap_wrap, wrap_chunks.
    destruct (Z.leb_spec width 0); [done|]. intros [= <-].
    rewrite wrap_loop_visible by done.
    destruct (tw_split_props (munge_whitespace para)) as (-> & _ & _).
    apply visible_filter_munge.
Qed.

Lemma paras_visible (width : Z) (paras : list pystr) (lss : list (list pystr)) :
  Forall2 (fun para ls => para_lines width para = Ok ls) paras lss ->
  filter (fun c => visible c = true) (concat (concat lss))
  = filter (fun c => visible c = true) (concat paras).
Proof.
  induction 1 as [|para ls paras lss Hp _ IH]; [done|].
  simpl. rewrite concat_app, !visible_filter_app, IH.
  by rewrite (para_lines_visible _ _ _ Hp).
Qed.

(** X1: wrapping neither loses, adds nor reorders a visible character: the
    lines of [wrap_svg_text], read one after the other without their white
    space, are the escaped text without its white space. *)
Theorem wrapped_lines_keep_visible (text : pystr) (width : Z)
  (lines : list pystr) :
  wrap_lines text width = Ok lines ->
  filter (fun c => visible c = true) (concat lines)
  = filter (fun c => visible c = true) (escape text).
Proof.
  unfold wrap_lines. intros Hlines.
  destruct (result_list _ _) as [lss|] eqn:Hparas; [|done].
  injection Hlines as <-. apply result_list_inv in Hparas.
  rewrite (paras_visible _ _ _ Hparas). apply visible_filter_split_on.
Qed.

(** *** Lines fit the width *)

Lemma drop_trailing_blank_prefix (cur : list pystr) :
  exists b, cur = drop_trailing_blank cur ++ b.
Proof.
  destruct (decide (cur = [])) as [-> | Hne]; [by exists []|].
  destruct (exists_last Hne) as (p & a & ->).
  rewrite drop_trailing_blank_snoc. destruct (blank a).
  - by exists [a].
  - exists []. by rewrite app_nil_r.
Qed.

Lemma line_step_fit (width : Z) (started : bool) (chunks cur rest : list pystr) :
  line_step width started chunks = (cur, rest) ->
  cur = [] \/ Z.of_nat (length (concat cur)) <= width
  \/ exists c, cur = [c] /\ c ∈ chunks /\ blank c = false.
Proof.
  unfold line_step.
  set (chunks1 := match chunks with
                  | c0 :: tl => if blank c0 && started then tl else chunks
                  | [] => []
                  end).
  assert (Hsub : forall c, c ∈ chunks1 -> c ∈ chunks).
  { unfold chunks1. destruct chunks as [|c0 tl]; [done|].
    destruct (blank c0 && started); [|done].
    intros c Hc. by apply list_elem_of_further. }
  clearbody chunks1.
  destruct (fill_line width 0 chunks1) as [line rest1] eqn:Hfill.
  destruct (fill_line_spec _ _ _ _ _ Hfill) as (-> & Hfit & Hstop).
  assert (Hline : forall rest',
             (drop_trailing_blank line, rest') = (cur, rest) ->
             cur = [] \/ Z.of_nat (length (concat cur)) <= width
             \/ exists c, cur = [c] /\ c ∈ chunks /\ blank c = false).
  { intros rest' [= <- _].
    destruct (drop_trailing_blank_prefix line) as [b Hb].
    destruct (drop_trailing_blank line) as [|l0 cur'] eqn:Hcur; [by left|].
    right. left. assert (Hne : line <> []) by (by rewrite Hb).
    specialize (Hfit Hne). rewrite Hb, concat_app, length_app in Hfit. lia. }
  destruct rest1 as [|c rest1']; [apply Hline|].
  destruct (Z.ltb_spec width (Z.of_nat (length c))); [|apply Hline].
  destruct line as [|l0 line']; [|apply Hline].
  simpl. unfold drop_trailing_blank. simpl.
  destruct (blank c) eqn:Hc; intros [= <- _]; [by left|].
  right. right. exists c. split; [done|]. split; [|done].
  apply Hsub. apply list_elem_of_here.
Qed.

Lemma wrap_loop_fit (P : pystr -> Prop) (fuel : nat) (width : Z)
  (started : bool) (chunks : list pystr) :
  Forall P chunks ->
  Forall (fun l => Z.of_nat (length l) <= width \/ (P l /\ blank l = false))
    (wrap_loop fuel width started chunks).
Proof.
  revert started chunks.
  induction fuel as [|fuel IH]; intros started chunks HP; [constructor|].
  destruct (decide (chunks = [])) as [-> | Hne]; [constructor|].
  destruct (line_step width started chunks) as [cur rest] eqn:Hstep.
  rewrite (wrap_loop_step _ _ _ _ _ _ Hne Hstep).
  pose proof (line_step_fit _ _ _ _ _ Hstep) as Hfit.
  destruct (line_step_spec _ _ _ _ _ Hne Hstep) as (d & b & Hchunks & _).
  assert (Hrest : Forall P rest).
  { rewrite Hchunks in HP. apply Forall_app in HP as [_ HP].
    apply Forall_app in HP as [_ HP]. by apply Forall_app in HP as [_ HP]. }
  destruct cur as [|l0 cur']; [by apply IH|].
  constructor; [|by apply IH].
  destruct Hfit as [? | [Hle | (c & [= -> ->] & Hin & Hc)]]; [done | by left|].
  right. simpl. rewrite app_nil_r. split; [|done].
  rewrite Forall_forall in HP. by apply HP.
Qed.

Lemma para_lines_fit (width : Z) (para : pystr) (ls : list pystr) :
  0 <= width ->
  para_lines width para = Ok ls ->
  Forall (fun l => Z.of_nat (length l) <= width \/
                   (is_chunk l /\ Forall (fun x => tw_whitespace x = false) l))
    ls.
Proof.
  intros Hwidth. unfold para_lines. case_bool_decide as Hblank.
  - intros [= <-]. constructor; [|constructor]. left. simpl. lia.
  - unfold textwrap_wrap, wrap_chunks.
    destruct (Z.leb_spec width 0); [done|]. intros [= <-].
    destruct (tw_split_props (munge_whitespace para)) as (_ & Hchunks & _).
    eapply Forall_impl;
      [exact (wrap_loop_fit is_chunk _ width false _ Hchunks)|].
    intros l [Hle | [Hl Hb]]; [by left|]. right. split; [done|].
    destruct (chunk_uniform l Hl) as (_ & Hws & Hword).
    apply Hword. destruct (ws_chunk l) eqn:Hk; [|done].
    assert (blank l = true); [|congruence].
    apply blank_all. eapply Forall_impl; [exact (Hws eq_refl)|].
    intros x. apply tw_whitespace_isspace.
Qed.

(** X2: every line of [wrap_svg_text] fits the width, except a line that is
    one piece the wrapper cannot break: a match of its word pattern, with
    no white space in it. *)
Theorem wrapped_lines_fit (text : pystr) (width : Z) (lines : list pystr) :
  0 < width ->
  wrap_lines text width = Ok lines ->
  Forall (fun l => Z.of_nat (length l) <= width \/
                   (is_chunk l /\ Forall (fun x => tw_whitespace x = false) l))
    lines.
Proof.
  intros Hwidth. unfold wrap_lines. intros Hlines.
  destruct (result_list _ _) as [lss|] eqn:Hparas; [|done].
  injection Hlines as <-. apply result_list_inv in Hparas.
  apply Forall_concat.
  induction Hparas as [|para ls paras lss Hp _ IH]; constructor; [|done].
  apply (para_lines_fit width para); [lia | done].
Qed.

(** *** No markup in the lines *)

Lemma replace_char_chars (P : char -> Prop) old new (s : pystr) :
  Forall P new -> Forall (fun c => c <> old -> P c) s ->
  Forall P (replace_char old new s).
Proof.
  intros Hnew. unfold replace_char. induction 1 as [|c s Hc _ IH]; [done|].
  simpl. apply Forall_app. split; [|done].
  destruct (N.eqb_spec c old); [done|]. constructor; [by apply Hc | done].
Qed.

Lemma escape_no_markup (text : pystr) :
  Forall (fun c => c <> 60%N /\ c <> 62%N) (escape text).
Proof.
  unfold escape. apply replace_char_chars.
  { repeat constructor; done. }
  eapply Forall_impl.
  - apply (replace_char_chars (fun c => c <> 60%N) 60 (py "&lt;")).
    { repeat constructor; done. }
    apply Forall_forall. intros c _ Hc. exact Hc.
  - intros c Hc H62. done.
Qed.

Lemma expandtabs_chars (P : char -> Prop) (s : pystr) (col : nat) :
  P 32%N -> Forall P s -> Forall P (expandtabs col s).
Proof.
  intros Hsp Hs. revert col.
  induction Hs as [|c s Hc _ IH]; intros col; [done|].
  rewrite expandtabs_cons. destruct (N.eqb_spec c 9).
  - apply Forall_app. split; [by apply Forall_replicate | apply IH].
  - constructor; [done | apply IH].
Qed.

Lemma munge_whitespace_chars (P : char -> Prop) (s : pystr) :
  P 32%N -> Forall P s ->
  Forall (fun c => P c /\ (tw_whitespace c = true -> c = 32%N))
    (munge_whitespace s).
Proof.
  intros Hsp Hs. unfold munge_whitespace. apply Forall_fmap.
  eapply Forall_impl; [exact (expandtabs_chars P s 0 Hsp Hs)|].
  intros c Hc. simpl. destruct (tw_whitespace c) eqn:Hw; [done|].
  split; [done|]. congruence.
Qed.

Lemma para_lines_chars (P : char -> Prop) (width : Z) (para : pystr)
  (ls : list pystr) :
  P 32%N -> Forall P para ->
  para_lines width para = Ok ls ->
  Forall (Forall (fun c => P c /\ (tw_whitespace c = true -> c = 32%N))) ls.
Proof.
  intros Hsp Hpara. unfold para_lines. case_bool_decide as Hblank.
  - intros [= <-]. by repeat constructor.
  - unfold textwrap_wrap, wrap_chunks.
    destruct (Z.leb_spec width 0); [done|]. intros [= <-].
    apply wrap_loop_chars.
    destruct (tw_split_props (munge_whitespace para)) as (Hcat & _ & _).
    pose proof (munge_whitespace_chars P para Hsp Hpara) as Hm.
    rewrite <- Hcat in Hm. revert Hm.
    generalize (tw_split (munge_whitespace para)). intros chunks.
    induction chunks as [|c chunks IH]; [done|]. simpl.
    intros [Hc Hm]%Forall_app. constructor; [done | by apply IH].
Qed.

(** X3: no line of [wrap_svg_text] holds a [<] or a [>], and the only white
    space of [textwrap] a line holds is the space: no tab and no line
    break. *)
Theorem wrapped_lines_no_markup (text : pystr) (width : Z)
  (lines : list pystr) :
  wrap_lines text width = Ok lines ->
  Forall (Forall (fun c => (c <> 60%N /\ c <> 62%N)
                           /\ (tw_whitespace c = true -> c = 32%N))) lines.
Proof.
  unfold wrap_lines. intros Hlines.
  destruct (result_list _ _) as [lss|] eqn:Hparas; [|done].
  injection Hlines as <-. apply result_list_inv in Hparas.
  apply Forall_concat.
  pose proof (split_on_parts _ 10 _ (escape_no_markup text)) as Hparts.
  revert Hparts.
  induction Hparas as [|para ls paras lss Hp _ IH]; [done|].
  intros [[Hpara _] Hparts]%Forall_cons. constructor; [|by apply IH].
  by apply (para_lines_chars _ width para).
Qed.

(** *** The width that is not positive *)

Lemma result_list_raise {A B} (f : A -> result B) (e : exn) (l : list A) :
  (forall a, (exists b, f a = Ok b) \/ f a = Raise e) ->
  Exists (fun a => f a = Raise e) l ->
  result_list f l = Raise e.
Proof.
  intros Hf. induction 1 as [a l Ha | a l _ IH]; simpl.
  - by rewrite Ha.
  - destruct (Hf a) as [[b ->] | ->]; [|done]. simpl. by rewrite IH.
Qed.

Lemma visible_exists_part (s : pystr) :
  Exists (fun c => isspace c = false) s ->
  Exists (fun part => strip part <> []) (split_on 10 s).
Proof.
  intros Hex. apply not_Forall_Exists; [intros part; apply _|].
  intros Hall.
  assert (Hblank : filter (fun c => visible c = true) (concat (split_on 10 s))
                   = []).
  { induction Hall as [|part parts Hpart _ IH]; [done|].
    simpl. rewrite visible_filter_app, IH, app_nil_r.
    apply visible_filter_blank. apply strip_nil.
    by destruct (decide (strip part = [])). }
  rewrite visible_filter_split_on in Hblank.
  apply Exists_exists in Hex as (c & Hc & Hvis).
  assert (c ∈ filter (fun c => visible c = true) s).
  { apply list_elem_of_filter. split; [|done]. unfold visible. by rewrite Hvis. }
  rewrite Hblank in H0. by apply elem_of_nil in H0.
Qed.

Lemma escape_keeps_visible (s : pystr) :
  Exists (fun c => isspace c = false) s ->
  Exists (fun c => isspace c = false) (escape s).
Proof.
  induction 1 as [c s Hc | c s _ IH].
  - change (c :: s) with ([c] ++ s). rewrite escape_app.
    apply Exists_app. left.
    destruct (decide (c = 38%N)) as [-> | H38]; [by left|].
    destruct (decide (c = 60%N)) as [-> | H60]; [by left|].
    destruct (decide (c = 62%N)) as [-> | H62]; [by left|].
    rewrite escape_cons_plain by done. by left.
  - change (c :: s) with ([c] ++ s). rewrite escape_app.
    apply Exists_app. by right.
Qed.

(** X4: [wrap_svg_text] fails only on a width that is not positive, and then
    only when the text has a visible character: it raises [ValueError]
    (from [textwrap]); a text of white space alone gives one empty line for
    each of its paragraphs at any width. *)
Theorem wrap_lines_width (text : pystr) (width : Z) :
  (0 < width -> exists lines, wrap_lines text width = Ok lines /\ lines <> []) /\
  (width <= 0 -> Exists (fun c => isspace c = false) text ->
   wrap_lines text width = Raise ValueError) /\
  (Forall (fun c => isspace c = true) text ->
   wrap_lines text width = Ok (replicate (length (split_on 10 text)) [])).
Proof.
  split; [|split].
  - intros Hwidth. destruct (wrap_lines_total text width Hwidth) as [lines Hl].
    exists lines. split; [done|]. intros ->.
    unfold wrap_lines in Hl.
    destruct (result_list _ _) as [lss|] eqn:Hparas; [|done].
    injection Hl as Hl. apply result_list_inv in Hparas.
    destruct (split_on 10 (escape text)) as [|para paras] eqn:Hsplit.
    { by destruct (split_on_nonempty 10 (escape text)). }
    apply Forall2_cons_inv_l in Hparas as (ls & lss' & Hp & _ & ->).
    simpl in Hl. apply app_eq_nil in Hl as [-> _].
    unfold para_lines in Hp. case_bool_decide; [done|].
    unfold textwrap_wrap, wrap_chunks in Hp.
    destruct (Z.leb_spec width 0); [done|]. injection Hp as Hp.
    revert Hp. apply wrap_loop_nonempty; [|done].
    destruct (tw_split_props (munge_whitespace para)) as (Hcat & _ & _).
    destruct (Forall_or_Exists_bool blank (tw_split (munge_whitespace para)))
      as [Hall | Hex]; [|done]. exfalso.
    assert (Hb : filter (fun c => visible c = true)
                   (concat (tw_split (munge_whitespace para))) = []).
    { clear Hcat. induction Hall as [|c cs Hc _ IH]; [done|].
      simpl. rewrite visible_filter_app, IH, app_nil_r.
      apply visible_filter_blank. by apply blank_all. }
    rewrite Hcat, visible_filter_munge in Hb.
    assert (Hsp : Forall (fun c => isspace c = true) para).
    { apply Forall_forall. intros c Hc.
      destruct (isspace c) eqn:Hs; [done|].
      assert (c ∈ filter (fun c => visible c = true) para).
      { apply list_elem_of_filter. split; [|done]. unfold visible.
        by rewrite Hs. }
      rewrite Hb in H2. by apply elem_of_nil in H2. }
    apply strip_nil in Hsp. done.
  - intros Hwidth Hvis. unfold wrap_lines.
    rewrite (result_list_raise (para_lines width) ValueError); [done| |].
    + intros para. unfold para_lines, textwrap_wrap, wrap_chunks.
      case_bool_decide; [left; by eexists|]. right.
      destruct (Z.leb_spec width 0); [done | lia].
    + eapply Exists_impl;
        [exact (visible_exists_part _ (escape_keeps_visible _ Hvis))|].
      intros para Hpara. unfold para_lines, textwrap_wrap, wrap_chunks.
      case_bool_decide; [done|]. destruct (Z.leb_spec width 0); [done | lia].
  - intros Hblank. unfold wrap_lines.
    rewrite escape_plain.
    2-4: intros Hin; rewrite Forall_forall in Hblank;
         by specialize (Hblank _ Hin).
    rewrite (result_list_ok (para_lines width) (fun _ => [[]])).
    + transitivity
        (Ok (concat ((fun _ : pystr => [[] : pystr]) <$> split_on 10 text)));
        [done|].
      f_equal. apply concat_empty_lines.
    + pose proof (split_on_parts _ 10 _ Hblank) as Hparts.
      eapply Forall_impl; [exact Hparts|].
      intros para [Hpara _]. unfold para_lines.
      apply strip_nil in Hpara. by case_bool_decide.
Qed.

End kept.

Lemma wrapped_lines_keep_visible_witness :
  filter (fun c => visible c = true)
    (concat [py "Reach.  When this well-"; py "known creature enters,";
             py "draw."])
  = filter (fun c => visible c = true)
      (escape (py "Reach.  When this well-known creature enters, draw.")).
Proof.
  apply (wrapped_lines_keep_visible (H := ascii_tables) _ 27).
  vm_compute. reflexivity.
Defined.

Lemma wrapped_lines_fit_witness :
  Forall (fun l => Z.of_nat (length l) <= 10 \/
                   (is_chunk (H := ascii_tables) l /\
                    Forall (fun x => tw_whitespace x = false) l))
    [py "Reach."; py "Extraordinarily"; py "so."].
Proof.
  apply (wrapped_lines_fit (H := ascii_tables)
           (py "Reach. Extraordinarily so.") 10); [lia|].
  vm_compute. reflexivity.
Defined.

Lemma wrapped_lines_no_markup_witness :
  Forall (Forall (fun c => (c <> 60%N /\ c <> 62%N)
                           /\ (tw_whitespace c = true -> c = 32%N)))
    [py "a &lt; b"; py "&amp; c"].
Proof.
  apply (wrapped_lines_no_markup (H := ascii_tables)
           (py "a < b" ++ [9%N] ++ py "& c") 8).
  vm_compute. reflexivity.
Defined.

Lemma wrap_lines_width_witness :
  (exists lines,
     wrap_lines (H := ascii_tables) (py "a b") 1 = Ok lines /\ lines <> []) /\
  wrap_lines (H := ascii_tables) (py "a b") 0 = Raise ValueError /\
  wrap_lines (H := ascii_tables) [32; 10; 9]%N 0 = Ok [[]; []].
Proof.
  destruct (wrap_lines_width (H := ascii_tables) (py "a b") 1) as (H1 & _ & _).
  destruct (wrap_lines_width (H := ascii_tables) (py "a b") 0) as (_ & H2 & _).
  destruct (wrap_lines_width (H := ascii_tables) [32; 10; 9]%N 0)
    as (_ & _ & H3).
  split; [apply H1; lia|]. split.
  - apply H2; [lia|]. apply Exists_cons_hd. reflexivity.
  - apply H3. repeat constructor.
Defined.

(** ** File names *)

Lemma bind_ok_inv {A B} (m : result A) (f : A -> result B) (b : B) :
  m ≫= f = Ok b -> exists a, m = Ok a /\ f a = Ok b.
Proof. destruct m as [a|e]; [|done]. intros Hf. by exists a. Qed.

Lemma safe_char_underscore : safe_char 95 = true.
Proof. reflexivity. Qed.

Lemma sub_unsafe_safe (in_run : bool) (s : pystr) :
  Forall (fun c => safe_char c = true) (sub_unsafe in_run s).
Proof.
  revert in_run. induction s as [|c s IH]; intros in_run; [constructor|].
  simpl. destruct (safe_char c) eqn:Hc; [by constructor|].
  destruct in_run; [done|]. by constructor.
Qed.

Lemma sub_unsafe_id (in_run : bool) (s : pystr) :
  Forall (fun c => safe_char c = true) s -> sub_unsafe in_run s = s.
Proof.
  intros Hs. revert in_run.
  induction Hs as [|c s Hc _ IH]; intros in_run; [done|].
  simpl. by rewrite Hc, IH.
Qed.

Lemma lstrip_char_suffix (ch : char) (s : pystr) :
  exists pre, s = pre ++ lstrip_char ch s.
Proof.
  induction s as [|c s [pre IH]]; [by exists []|]. simpl.
  destruct (c =? ch)%N; [|by exists []].
  exists (c :: pre). simpl. by rewrite <- IH.
Qed.

Lemma lstrip_char_head (ch : char) (s : pystr) :
  head (lstrip_char ch s) <> Some ch.
Proof.
  induction s as [|c s IH]; [done|]. simpl.
  destruct (N.eqb_spec c ch); [done|]. simpl. congruence.
Qed.

Lemma lstrip_char_id (ch : char) (s : pystr) :
  head s <> Some ch -> lstrip_char ch s = s.
Proof.
  destruct s as [|c s]; [done|]. simpl.
  destruct (N.eqb_spec c ch) as [-> | Hc]; [by intros [] | done].
Qed.

Lemma head_reverse {A} (l : list A) : head (reverse l) = last l.
Proof.
  destruct (decide (l = [])) as [-> | Hne]; [done|].
  destruct (exists_last Hne) as (p & a & ->).
  by rewrite reverse_snoc, last_snoc.
Qed.

Lemma last_reverse {A} (l : list A) : last (reverse l) = head l.
Proof. by rewrite <- head_reverse, reverse_involutive. Qed.

Lemma head_app_suffix {A} (pre s : list A) (x : A) :
  head s = Some x -> head (pre ++ s) = Some x -> pre = [] \/ head pre = Some x.
Proof. destruct pre; [by left | by right]. Qed.

Lemma strip_underscores_spec (s : pystr) :
  (exists pre post, s = pre ++ strip_underscores s ++ post) /\
  head (strip_underscores s) <> Some 95%N /\
  last (strip_underscores s) <> Some 95%N.
Proof.
  unfold strip_underscores.
  destruct (lstrip_char_suffix 95 s) as [pre Hpre].
  pose proof (lstrip_char_head 95 s) as Hhead.
  set (t := lstrip_char 95 s) in *.
  destruct (lstrip_char_suffix 95 (reverse t)) as [post Hpost].
  pose proof (lstrip_char_head 95 (reverse t)) as Hlast.
  set (u := lstrip_char 95 (reverse t)) in *.
  assert (Ht : t = reverse u ++ reverse post).
  { rewrite <- reverse_app, <- Hpost. by rewrite reverse_involutive. }
  split; [|split].
  - exists pre, (reverse post). by rewrite <- Ht.
  - intros Hu. apply Hhead. rewrite Ht.
    destruct (reverse u) as [|x r]; [done|]. exact Hu.
  - by rewrite last_reverse.
Qed.

Lemma strip_underscores_id (s : pystr) :
  head s <> Some 95%N -> last s <> Some 95%N -> strip_underscores s = s.
Proof.
  intros Hhead Hlast. unfold strip_underscores.
  rewrite (lstrip_char_id 95 s Hhead).
  rewrite lstrip_char_id; [apply reverse_involutive|].
  by rewrite head_reverse.
Qed.

(** The last component of [dir / name] for a name without a slash. *)
Lemma path_name_join (dir name : pystr) :
  47%N ∉ name -> path_name (dir ++ py "/" ++ name) = name.
Proof.
  intros Hname. unfold path_name.
  change (dir ++ py "/" ++ name) with (dir ++ 47%N :: name).
  rewrite split_on_app, (split_on_absent 47 name Hname).
  by rewrite last_snoc.
Qed.

Lemma rfind_dot_app (a b : pystr) (i : nat) :
  46%N ∉ a -> rfind_dot i (a ++ b) = rfind_dot (i + length a) b.
Proof.
  revert i. induction a as [|c a IH]; intros i Ha.
  { simpl. f_equal. lia. }
  apply not_elem_of_cons in Ha as [Hc Ha]. simpl.
  rewrite (IH (S i) Ha).
  replace (S i + length a)%nat with (i + S (length a))%nat by lia.
  destruct (rfind_dot _ b); [done|].
  by destruct (N.eqb_spec c 46).
Qed.

Lemma safe_chars_plain (stem : pystr) :
  Forall (fun c => safe_char c = true) stem -> (47%N ∉ stem) /\ (46%N ∉ stem).
Proof.
  intros Hs. split; intros Hin; rewrite Forall_forall in Hs;
    by specialize (Hs _ Hin).
Qed.

Lemma path_stem_svg (dir stem : pystr) :
  stem <> [] -> Forall (fun c => safe_char c = true) stem ->
  path_stem (dir ++ py "/" ++ stem ++ py ".svg") = stem.
Proof.
  intros Hne Hsafe. destruct (safe_chars_plain stem Hsafe) as [Hslash Hdot].
  unfold path_stem. rewrite path_name_join.
  2:{ intros Hin. apply elem_of_app in Hin as [Hin | Hin]; [done|].
      apply list_elem_of_In in Hin. vm_compute in Hin.
      intuition discriminate. }
  rewrite (rfind_dot_app stem (py ".svg") 0 Hdot).
  change (rfind_dot (0 + length stem) (py ".svg"))
    with (Some (0 + length stem)%nat).
  rewrite length_app. change (length (py ".svg")) with 4%nat.
  destruct stem as [|c stem]; [done|].
  rewrite bool_decide_true by (simpl; lia).
  simpl. by rewrite take_app_length.
Qed.

Section names.
Context `{UnicodeTables}.

Lemma build_svg_name (fs : filesystem) (c : card) (name svg : pystr) :
  build_svg fs c = Ok (name, svg) ->
  name = strip_underscores
           (sub_unsafe false (default (py "card") (card_name c)))
         ++ py ".svg".
Proof.
  unfold build_svg. intros Hb.
  apply bind_ok_inv in Hb as (frame_str & _ & Hb).
  apply bind_ok_inv in Hb as (title_str & _ & Hb).
  apply bind_ok_inv in Hb as ([clipping_art art_img] & _ & Hb).
  apply bind_ok_inv in Hb as (type_str & _ & Hb).
  apply bind_ok_inv in Hb as (rules_str & _ & Hb).
  apply bind_ok_inv in Hb as (opt_str & _ & Hb).
  apply bind_ok_inv in Hb as (footer_str & _ & Hb).
  apply bind_ok_inv in Hb as ([w h] & _ & Hb).
  by injection Hb as <- _.
Qed.

Lemma svg_file_name_stem (fs : filesystem) (c : card) (name svg : pystr) :
  build_svg fs c = Ok (name, svg) ->
  exists stem,
    name = stem ++ py ".svg" /\ Forall (fun x => safe_char x = true) stem.
Proof.
  intros Hb. apply build_svg_name in Hb.
  set (raw := sub_unsafe false (default (py "card") (card_name c))) in *.
  exists (strip_underscores raw). split; [done|].
  destruct (strip_underscores_spec raw) as ((pre & post & Hraw) & _).
  pose proof (sub_unsafe_safe false (default (py "card") (card_name c)))
    as Hsafe.
  fold raw in Hsafe. rewrite Hraw in Hsafe.
  apply Forall_app in Hsafe as [_ Hsafe].
  by apply Forall_app in Hsafe as [Hsafe _].
Qed.

(** X5: the file [build_svg] writes is named by a stem and [.svg]; the stem
    holds only letters, digits, underscores and hyphens of ASCII, so no
    slash and no dot, and neither starts nor ends with an underscore. A
    name that already is such a stem is kept as it is. *)
Theorem svg_file_name (fs : filesystem) (c : card) (name svg : pystr) :
  build_svg fs c = Ok (name, svg) ->
  exists stem,
    name = stem ++ py ".svg" /\
    Forall (fun x => safe_char x = true) stem /\
    head stem <> Some 95%N /\ last stem <> Some 95%N /\
    (forall n, card_name c = Some n ->
       Forall (fun x => safe_char x = true) n ->
       head n <> Some 95%N -> last n <> Some 95%N -> stem = n).
Proof.
  intros Hb. apply build_svg_name in Hb.
  set (raw := sub_unsafe false (default (py "card") (card_name c))) in *.
  exists (strip_underscores raw).
  destruct (strip_underscores_spec raw) as ((pre & post & Hraw) & Hh & Hl).
  split; [done|]. split; [|split; [done|split; [done|]]].
  - pose proof (sub_unsafe_safe false (default (py "card") (card_name c)))
      as Hsafe.
    fold raw in Hsafe. rewrite Hraw in Hsafe.
    apply Forall_app in Hsafe as [_ Hsafe].
    by apply Forall_app in Hsafe as [Hsafe _].
  - intros n Hn Hsafe Hhead Hlast. unfold raw. rewrite Hn. simpl.
    rewrite (sub_unsafe_id false n Hsafe).
    by apply strip_underscores_id.
Qed.

(** X6: the two programs fit together: a file [build_svg] wrote into a
    directory is the one [collect_files] returns for a request that spells
    its stem in any letter case, as long as no other file of the directory
    has that stem up to case. *)
Theorem generated_card_is_collected (fs : filesystem) (c : card)
  (name svg : pystr) (w : world) (cards_dir base : pystr) (count : Z) :
  build_svg fs c = Ok (name, svg) ->
  name <> py ".svg" ->
  let p := cards_dir ++ py "/" ++ name in
  p ∈ glob_svg w cards_dir ->
  (forall q, q ∈ glob_svg w cards_dir ->
             str_lower (path_stem q) = str_lower (path_stem p) -> q = p) ->
  str_lower base = str_lower (path_stem p) ->
  path_stem p ++ py ".svg" = name /\
  collect_files w cards_dir [(base, count)] = Ok (replicate (Z.to_nat count) p).
Proof.
  intros Hb Hname p Hp Honly Hbase.
  destruct (svg_file_name_stem fs c name svg Hb) as (stem & -> & Hsafe).
  assert (Hstem : path_stem p = stem).
  { apply path_stem_svg; [|done]. by intros ->. }
  split; [by rewrite Hstem|].
  unfold collect_files. simpl. rewrite Hbase.
  destruct (card_index_complete _ _ Hp) as [q Hq]. rewrite Hq.
  destruct (card_index_sound _ _ _ Hq) as [Hqin Hqstem].
  rewrite (Honly q Hqin Hqstem). simpl. by rewrite app_nil_r.
Qed.

End names.

Lemma svg_file_name_witness :
  let svg :=
    match build_svg (H := ascii_tables) sample_fs1 sample_card with
    | Ok (_, svg) => svg
    | Raise _ => []
    end in
  exists stem,
    py "Sword_of_the_Autumn_Wolf.svg" = stem ++ py ".svg" /\
    Forall (fun x => safe_char x = true) stem /\
    head stem <> Some 95%N /\ last stem <> Some 95%N /\
    (forall n, card_name sample_card = Some n ->
       Forall (fun x => safe_char x = true) n ->
       head n <> Some 95%N -> last n <> Some 95%N -> stem = n).
Proof.
  intros svg.
  assert (Hb : build_svg (H := ascii_tables) sample_fs1 sample_card
               = Ok (py "Sword_of_the_Autumn_Wolf.svg", svg))
    by (vm_compute; reflexivity).
  exact (svg_file_name (H := ascii_tables) sample_fs1 sample_card _ _ Hb).
Defined.

Lemma generated_card_is_collected_witness :
  path_stem (py "cards/Sword_of_the_Autumn_Wolf.svg") ++ py ".svg"
  = py "Sword_of_the_Autumn_Wolf.svg" /\
  collect_files (H := ascii_tables) scenario_world (py "cards")
    [(py "sword_of_the_AUTUMN_wolf", 2)]
  = Ok (replicate (Z.to_nat 2) (py "cards/Sword_of_the_Autumn_Wolf.svg")).
Proof.
  set (svg :=
    match build_svg (H := ascii_tables) sample_fs1 sample_card with
    | Ok (_, svg) => svg
    | Raise _ => []
    end).
  assert (Hb : build_svg (H := ascii_tables) sample_fs1 sample_card
               = Ok (py "Sword_of_the_Autumn_Wolf.svg", svg))
    by (vm_compute; reflexivity).
  apply (generated_card_is_collected (H := ascii_tables) sample_fs1
           sample_card _ _ scenario_world (py "cards")
           (py "sword_of_the_AUTUMN_wolf") 2 Hb).
  - vm_compute. discriminate.
  - apply list_elem_of_here.
  - intros q Hq. apply list_elem_of_In in Hq. simpl in Hq.
    destruct Hq as [<- | [<- | []]]; [reflexivity|].
    vm_compute. discriminate.
  - vm_compute. reflexivity.
Defined.

(** ** Art: the data URI *)

Lemma b64_char_inj (i j : N) :
  (i < 64)%N -> (j < 64)%N -> b64_char i = b64_char j -> i = j.
Proof.
  unfold b64_char. intros Hi Hj.
  repeat match goal with
         | |- context [(?a <? ?b)%N] => destruct (N.ltb_spec a b)
         | |- context [(?a =? ?b)%N] => destruct (N.eqb_spec a b)
         end; lia.
Qed.

Lemma b64_char_not_pad (i : N) : b64_char i <> 61%N.
Proof.
  unfold b64_char.
  repeat match goal with
         | |- context [(?a <? ?b)%N] => destruct (N.ltb_spec a b)
         | |- context [(?a =? ?b)%N] => destruct (N.eqb_spec a b)
         end; lia.
Qed.

Lemma b64_char_not_quote (i : N) : b64_char i <> 34%N.
Proof.
  unfold b64_char.
  repeat match goal with
         | |- context [(?a <? ?b)%N] => destruct (N.ltb_spec a b)
         | |- context [(?a =? ?b)%N] => destruct (N.eqb_spec a b)
         end; lia.
Qed.

(** The four sextets of three bytes, in arithmetic. *)
Lemma sextet_hi (a : N) : N.shiftr a 2 = (a / 4)%N.
Proof. by rewrite N.shiftr_div_pow2. Qed.

Lemma small_cases (n : N) (k : nat) :
  (n < N.of_nat k)%N -> n ∈ (N.of_nat <$> seq 0 k).
Proof.
  intros Hn. apply list_elem_of_fmap. exists (N.to_nat n).
  split; [lia|]. apply elem_of_seq. lia.
Qed.

Lemma lor_shift4 (x y : N) :
  (x < 4)%N -> (y < 16)%N -> N.lor (N.shiftl x 4) y = (16 * x + y)%N.
Proof.
  intros Hx%(small_cases x 4) Hy%(small_cases y 16).
  revert x Hx. apply Forall_forall. revert y Hy. apply Forall_forall.
  vm_compute. repeat constructor.
Qed.

Lemma lor_shift2 (x y : N) :
  (x < 16)%N -> (y < 4)%N -> N.lor (N.shiftl x 2) y = (4 * x + y)%N.
Proof.
  intros Hx%(small_cases x 16) Hy%(small_cases y 4).
  revert x Hx. apply Forall_forall. revert y Hy. apply Forall_forall.
  vm_compute. repeat constructor.
Qed.

Lemma land_low (a : N) (n : N) (m : N) :
  m = N.ones n -> N.land a m = (a mod 2 ^ n)%N.
Proof. intros ->. apply N.land_ones. Qed.

Lemma sextet2 (a b : N) :
  (b < 256)%N ->
  N.lor (N.shiftl (N.land a 3) 4) (N.shiftr b 4)
  = (16 * (a mod 4) + b / 16)%N.
Proof.
  intros Hb. rewrite (land_low a 2 3 eq_refl), N.shiftr_div_pow2.
  change (2 ^ 2)%N with 4%N. change (2 ^ 4)%N with 16%N.
  apply lor_shift4.
  - apply N.mod_lt. lia.
  - apply N.Div0.div_lt_upper_bound. lia.
Qed.

Lemma sextet3 (b c : N) :
  (c < 256)%N ->
  N.lor (N.shiftl (N.land b 15) 2) (N.shiftr c 6)
  = (4 * (b mod 16) + c / 64)%N.
Proof.
  intros Hc. rewrite (land_low b 4 15 eq_refl), N.shiftr_div_pow2.
  change (2 ^ 4)%N with 16%N. change (2 ^ 6)%N with 64%N.
  apply lor_shift2.
  - apply N.mod_lt. lia.
  - apply N.Div0.div_lt_upper_bound. lia.
Qed.

Lemma sextet2_last (a : N) :
  N.shiftl (N.land a 3) 4 = (16 * (a mod 4))%N.
Proof.
  rewrite (land_low a 2 3 eq_refl), N.shiftl_mul_pow2.
  change (2 ^ 2)%N with 4%N. change (2 ^ 4)%N with 16%N. lia.
Qed.

Lemma sextet3_last (b : N) :
  N.shiftl (N.land b 15) 2 = (4 * (b mod 16))%N.
Proof.
  rewrite (land_low b 4 15 eq_refl), N.shiftl_mul_pow2.
  change (2 ^ 4)%N with 16%N. change (2 ^ 2)%N with 4%N. lia.
Qed.

Lemma sextet4 (c : N) : N.land c 63 = (c mod 64)%N.
Proof. by rewrite (land_low c 6 63 eq_refl). Qed.

(** Lists three elements at a time. *)
Lemma list_ind3 {A} (P : list A -> Prop) :
  P [] -> (forall a, P [a]) -> (forall a b, P [a; b]) ->
  (forall a b c l, P l -> P (a :: b :: c :: l)) ->
  forall l, P l.
Proof.
  intros H0 H1 H2 H3 l.
  assert (H : P l /\ (forall a, P (a :: l)) /\ (forall a b, P (a :: b :: l))).
  { induction l as [|x l (IH0 & IH1 & IH2)]; [by repeat split|].
    split; [apply IH1|]. split; [intros a; apply IH2|].
    intros a b. by apply H3. }
  apply H.
Qed.

Lemma b64encode_group (a b c : N) (data : list N) :
  b64encode (a :: b :: c :: data)
  = [b64_char (N.shiftr a 2);
     b64_char (N.lor (N.shiftl (N.land a 3) 4) (N.shiftr b 4));
     b64_char (N.lor (N.shiftl (N.land b 15) 2) (N.shiftr c 6));
     b64_char (N.land c 63)] ++ b64encode data.
Proof. reflexivity. Qed.

Lemma b64encode_length (data : list N) :
  length (b64encode data) = (4 * ((length data + 2) / 3))%nat.
Proof.
  induction data as [| a | a b | a b c data IH] using list_ind3;
    [done..|].
  rewrite b64encode_group, length_app, IH. simpl length.
  replace (S (S (S (length data))) + 2)%nat
    with (1 * 3 + (length data + 2))%nat by lia.
  rewrite Nat.div_add_l by lia. lia.
Qed.

Lemma b64encode_no_quote (data : list N) :
  Forall (fun c => c <> 34%N) (b64encode data).
Proof.
  induction data as [| a | a b | a b c data IH] using list_ind3.
  - constructor.
  - simpl. repeat constructor; try apply b64_char_not_quote; done.
  - simpl. repeat constructor; try apply b64_char_not_quote; done.
  - rewrite b64encode_group. apply Forall_app. split; [|done].
    repeat constructor; apply b64_char_not_quote.
Qed.

Ltac pad_clash E :=
  first [ exact (False_ind _ (b64_char_not_pad _ E))
        | exact (False_ind _ (b64_char_not_pad _ (eq_sym E))) ].

Lemma b64encode_inj (d1 d2 : list N) :
  Forall (fun b => (b < 256)%N) d1 -> Forall (fun b => (b < 256)%N) d2 ->
  b64encode d1 = b64encode d2 -> d1 = d2.
Proof.
  revert d2.
  induction d1 as [| a | a b | a b c d1 IH] using list_ind3; intros d2 H1 H2.
  - destruct d2 as [|a' [|b' [|c' d2]]]; [done | done | done |].
    rewrite b64encode_group. done.
  - destruct d2 as [|a' [|b' [|c' d2]]]; [done | | |].
    + apply Forall_cons in H1 as [Ha _]. apply Forall_cons in H2 as [Ha' _].
      simpl. rewrite !sextet_hi, !sextet2_last. intros [= E1 E2].
      apply b64_char_inj in E1, E2.
      2-5: first [apply N.Div0.div_lt_upper_bound; lia
                 | pose proof (N.mod_lt a 4); pose proof (N.mod_lt a' 4); lia].
      pose proof (N.div_mod a 4 ltac:(lia)).
      pose proof (N.div_mod a' 4 ltac:(lia)).
      f_equal. lia.
    + simpl. intros [= _ _ E]. pad_clash E.
    + rewrite b64encode_group. simpl. intros [= _ _ E].
      pad_clash E.
  - destruct d2 as [|a' [|b' [|c' d2]]]; [done | | |].
    + simpl. intros [= _ _ E]. pad_clash E.
    + apply Forall_cons in H1 as [Ha H1]. apply Forall_cons in H1 as [Hb _].
      apply Forall_cons in H2 as [Ha' H2]. apply Forall_cons in H2 as [Hb' _].
      simpl. rewrite !sextet_hi, !sextet2, !sextet3_last by done.
      intros [= E1 E2 E3].
      pose proof (N.mod_lt a 4). pose proof (N.mod_lt a' 4).
      pose proof (N.mod_lt b 16). pose proof (N.mod_lt b' 16).
      assert (b / 16 < 16)%N by (apply N.Div0.div_lt_upper_bound; lia).
      assert (b' / 16 < 16)%N by (apply N.Div0.div_lt_upper_bound; lia).
      assert (a / 4 < 64)%N by (apply N.Div0.div_lt_upper_bound; lia).
      assert (a' / 4 < 64)%N by (apply N.Div0.div_lt_upper_bound; lia).
      apply b64_char_inj in E1, E2, E3; try lia.
      pose proof (N.div_mod a 4 ltac:(lia)).
      pose proof (N.div_mod a' 4 ltac:(lia)).
      pose proof (N.div_mod b 16 ltac:(lia)).
      pose proof (N.div_mod b' 16 ltac:(lia)).
      f_equal; [lia|]. f_equal. lia.
    + rewrite b64encode_group. simpl. intros [= _ _ _ E].
      pad_clash E.
  - destruct d2 as [|a' [|b' [|c' d2]]].
    + rewrite b64encode_group. done.
    + rewrite b64encode_group. simpl. intros [= _ _ E].
      pad_clash E.
    + rewrite b64encode_group. simpl. intros [= _ _ _ E].
      pad_clash E.
    + apply Forall_cons in H1 as [Ha H1]. apply Forall_cons in H1 as [Hb H1].
      apply Forall_cons in H1 as [Hc H1].
      apply Forall_cons in H2 as [Ha' H2]. apply Forall_cons in H2 as [Hb' H2].
      apply Forall_cons in H2 as [Hc' H2].
      rewrite !b64encode_group.
      rewrite !sextet_hi, !sextet2, !sextet3, !sextet4 by done.
      intros [= E1 E2 E3 E4 E].
      pose proof (N.mod_lt a 4). pose proof (N.mod_lt a' 4).
      pose proof (N.mod_lt b 16). pose proof (N.mod_lt b' 16).
      pose proof (N.mod_lt c 64). pose proof (N.mod_lt c' 64).
      assert (b / 16 < 16)%N by (apply N.Div0.div_lt_upper_bound; lia).
      assert (b' / 16 < 16)%N by (apply N.Div0.div_lt_upper_bound; lia).
      assert (c / 64 < 4)%N by (apply N.Div0.div_lt_upper_bound; lia).
      assert (c' / 64 < 4)%N by (apply N.Div0.div_lt_upper_bound; lia).
      assert (a / 4 < 64)%N by (apply N.Div0.div_lt_upper_bound; lia).
      assert (a' / 4 < 64)%N by (apply N.Div0.div_lt_upper_bound; lia).
      apply b64_char_inj in E1, E2, E3, E4; try lia.
      rewrite (IH d2 H1 H2 E).
      pose proof (N.div_mod a 4 ltac:(lia)).
      pose proof (N.div_mod a' 4 ltac:(lia)).
      pose proof (N.div_mod b 16 ltac:(lia)).
      pose proof (N.div_mod b' 16 ltac:(lia)).
      pose proof (N.div_mod c 64 ltac:(lia)).
      pose proof (N.div_mod c' 64 ltac:(lia)).
      f_equal; [lia|]. f_equal; [lia|]. f_equal. lia.
Qed.

(** X7: the data URI of an art file tells the file apart from every other:
    two file systems give the same URI for a path only when both have no
    file there, or both have files with the same bytes. The text after the
    comma is four characters for every three bytes, rounded up, and holds
    no double quote, so it cannot close the [href] attribute it is put in. *)
Theorem data_uri_determines_bytes (fs1 fs2 : filesystem) (path mime : pystr) :
  (forall data, fs1 path = Some data -> Forall (fun b => (b < 256)%N) data) ->
  (forall data, fs2 path = Some data -> Forall (fun b => (b < 256)%N) data) ->
  (data_uri_for_image fs1 path mime = data_uri_for_image fs2 path mime
   <-> fs1 path = fs2 path) /\
  (forall data, fs1 path = Some data ->
     exists b64,
       data_uri_for_image fs1 path mime
         = Some (py "data:" ++ mime ++ py ";base64," ++ b64) /\
       length b64 = (4 * ((length data + 2) / 3))%nat /\
       Forall (fun c => c <> 34%N) b64).
Proof.
  intros H1 H2. split.
  - unfold data_uri_for_image. split; [|by intros ->].
    destruct (fs1 path) as [d1|], (fs2 path) as [d2|]; try done.
    intros E%(inj Some). apply app_inv_head in E. apply app_inv_head in E.
    apply app_inv_head in E. f_equal.
    apply b64encode_inj; [by apply H1 | by apply H2 | done].
  - intros data Hdata. exists (b64encode data).
    unfold data_uri_for_image. rewrite Hdata.
    split; [done|]. split; [apply b64encode_length | apply b64encode_no_quote].
Qed.

Lemma data_uri_determines_bytes_witness :
  (data_uri_for_image sample_fs1 (py "art/sword.png") (py "image/png")
   = data_uri_for_image sample_fs2 (py "art/sword.png") (py "image/png")
   <-> sample_fs1 (py "art/sword.png") = sample_fs2 (py "art/sword.png")) /\
  (forall data, sample_fs1 (py "art/sword.png") = Some data ->
     exists b64,
       data_uri_for_image sample_fs1 (py "art/sword.png") (py "image/png")
         = Some (py "data:" ++ py "image/png" ++ py ";base64," ++ b64) /\
       length b64 = (4 * ((length data + 2) / 3))%nat /\
       Forall (fun c => c <> 34%N) b64).
Proof.
  apply (data_uri_determines_bytes sample_fs1 sample_fs2
           (py "art/sword.png") (py "image/png")).
  - intros data Hdata. vm_compute in Hdata. injection Hdata as <-.
    repeat constructor.
  - intros data Hdata. vm_compute in Hdata. injection Hdata as <-.
    repeat constructor.
Defined.

(** ** The sheet: cells, cards and crop marks *)

Lemma elem_of_layout_positions
  (sheet_w sheet_h card_w card_h cols rows margin_px gutter_px : Z)
  (p : Z * Z) :
  p ∈ layout_positions sheet_w sheet_h card_w card_h cols rows
        margin_px gutter_px
  <-> exists r c,
        0 <= r < rows /\ 0 <= c < cols /\
        p = ((sheet_w - (cols * card_w + (cols - 1) * gutter_px)) / 2
               + c * (card_w + gutter_px),
             (sheet_h - (rows * card_h + (rows - 1) * gutter_px)) / 2
               + r * (card_h + gutter_px)).
Proof.
  unfold layout_positions, range. rewrite list_elem_of_bind. split.
  - intros (r & Hp & Hr). apply list_elem_of_bind in Hp as (c & Hp & Hc).
    apply list_elem_of_singleton in Hp.
    apply elem_of_seqZ in Hr, Hc. exists r, c. split; [lia|]. split; [lia|done].
  - intros (r & c & Hr & Hc & ->). exists r. split.
    + apply list_elem_of_bind. exists c. split; [apply list_elem_of_here|].
      apply elem_of_seqZ. lia.
    + apply elem_of_seqZ. lia.
Qed.

Lemma mul_step (a b W : Z) : 0 <= W -> a + 1 <= b -> a * W + W <= b * W.
Proof. nia. Qed.

Lemma mul_same (a b W : Z) : 0 < W -> a * W = b * W -> a = b.
Proof. nia. Qed.

(** X11: the cells of the grid are distinct and their cards do not overlap,
    whenever a card has a positive size and the gutter is not negative. *)
Theorem grid_cards_disjoint
  (sheet_w sheet_h card_w card_h cols rows margin_px gutter_px : Z) :
  0 < card_w -> 0 < card_h -> 0 <= gutter_px ->
  let positions :=
    layout_positions sheet_w sheet_h card_w card_h cols rows
      margin_px gutter_px in
  NoDup positions /\
  (forall p q, p ∈ positions -> q ∈ positions -> p <> q ->
     ~ overlaps (card_rect p card_w card_h) (card_rect q card_w card_h)).
Proof.
  intros Hw Hh Hg positions. split.
  - unfold positions, layout_positions, range.
    apply NoDup_bind; [| |apply NoDup_seqZ].
    + intros r1 r2 p _ _ (c1 & Hp1 & _)%list_elem_of_bind
        (c2 & Hp2 & _)%list_elem_of_bind.
      apply list_elem_of_singleton in Hp1, Hp2. subst p.
      injection Hp2 as _ Hy.
      apply (mul_same r1 r2 (card_h + gutter_px)); lia.
    + intros r _. apply NoDup_bind; [| |apply NoDup_seqZ].
      * intros c1 c2 p _ _ Hp1%list_elem_of_singleton
          Hp2%list_elem_of_singleton.
        subst p. injection Hp2 as Hx.
        apply (mul_same c1 c2 (card_w + gutter_px)); lia.
      * intros c _. apply NoDup_singleton.
  - intros p q Hp Hq Hne.
    apply elem_of_layout_positions in Hp as (r1 & c1 & Hr1 & Hc1 & ->).
    apply elem_of_layout_positions in Hq as (r2 & c2 & Hr2 & Hc2 & ->).
    unfold overlaps, card_rect. simpl. intros (Hx1 & Hx2 & Hy1 & Hy2).
    assert (Hc : c1 + 1 <= c2 \/ c2 + 1 <= c1 \/ c1 = c2) by lia.
    assert (Hr : r1 + 1 <= r2 \/ r2 + 1 <= r1 \/ r1 = r2) by lia.
    destruct Hc as [Hc | [Hc | ->]].
    { pose proof (mul_step c1 c2 (card_w + gutter_px)). lia. }
    { pose proof (mul_step c2 c1 (card_w + gutter_px)). lia. }
    destruct Hr as [Hr | [Hr | ->]]; [| |done].
    { pose proof (mul_step r1 r2 (card_h + gutter_px)). lia. }
    { pose proof (mul_step r2 r1 (card_h + gutter_px)). lia. }
Qed.

Lemma grid_cards_disjoint_witness :
  NoDup (layout_positions 2480 3508 744 1039 3 3 60 18) /\
  (forall p q,
     p ∈ layout_positions 2480 3508 744 1039 3 3 60 18 ->
     q ∈ layout_positions 2480 3508 744 1039 3 3 60 18 -> p <> q ->
     ~ overlaps (card_rect p 744 1039) (card_rect q 744 1039)).
Proof.
  apply (grid_cards_disjoint 2480 3508 744 1039 3 3 60 18); lia.
Defined.

(** X12: with at least one column and one row, a card width, a card height
    and a gutter that are not negative, every card of the grid lies on the
    sheet exactly when the grid is no wider and no higher than the sheet;
    a grid that is too large is centred all the same and its outer cards
    run over the edge. *)
Theorem grid_on_sheet_iff_fits
  (sheet_w sheet_h card_w card_h cols rows margin_px gutter_px : Z) :
  1 <= cols -> 1 <= rows -> 0 <= card_w -> 0 <= card_h -> 0 <= gutter_px ->
  (forall p,
     p ∈ layout_positions sheet_w sheet_h card_w card_h cols rows
           margin_px gutter_px ->
     inside (card_rect p card_w card_h) (sheet_rect sheet_w sheet_h))
  <-> (cols * card_w + (cols - 1) * gutter_px <= sheet_w /\
       rows * card_h + (rows - 1) * gutter_px <= sheet_h).
Proof.
  intros Hcols Hrows Hw Hh Hg.
  set (tw := cols * card_w + (cols - 1) * gutter_px).
  set (th := rows * card_h + (rows - 1) * gutter_px).
  pose proof (Z.div_mod (sheet_w - tw) 2 ltac:(lia)) as Hdx.
  pose proof (Z.mod_pos_bound (sheet_w - tw) 2 ltac:(lia)) as Hbx.
  pose proof (Z.div_mod (sheet_h - th) 2 ltac:(lia)) as Hdy.
  pose proof (Z.mod_pos_bound (sheet_h - th) 2 ltac:(lia)) as Hby.
  split.
  - intros Hall.
    assert (H0 : ((sheet_w - tw) / 2 + 0 * (card_w + gutter_px),
                  (sheet_h - th) / 2 + 0 * (card_h + gutter_px))
                 ∈ layout_positions sheet_w sheet_h card_w card_h cols rows
                     margin_px gutter_px).
    { apply elem_of_layout_positions. exists 0, 0. split; [lia|]. split; [lia|done]. }
    apply Hall in H0. unfold inside, card_rect, sheet_rect in H0. simpl in H0.
    lia.
  - intros [Hfw Hfh] p Hp.
    apply elem_of_layout_positions in Hp as (r & c & Hr & Hc & ->).
    fold tw th. unfold inside, card_rect, sheet_rect. simpl.
    pose proof (mul_step c cols (card_w + gutter_px)).
    pose proof (mul_step r rows (card_h + gutter_px)).
    assert (0 <= c * (card_w + gutter_px)) by nia.
    assert (0 <= r * (card_h + gutter_px)) by nia.
    assert (cols * (card_w + gutter_px) = tw + gutter_px) by (unfold tw; lia).
    assert (rows * (card_h + gutter_px) = th + gutter_px) by (unfold th; lia).
    lia.
Qed.

Lemma grid_on_sheet_iff_fits_witness :
  (forall p,
     p ∈ layout_positions 3508 2480 744 1039 3 3 60 18 ->
     inside (card_rect p 744 1039) (sheet_rect 3508 2480))
  <-> (3 * 744 + (3 - 1) * 18 <= 3508 /\ 3 * 1039 + (3 - 1) * 18 <= 2480).
Proof.
  apply (grid_on_sheet_iff_fits 3508 2480 744 1039 3 3 60 18); lia.
Defined.

Lemma elem_of_draw_crop_marks (x y w h len_px offset : Z)
  (seg : (Z * Z) * (Z * Z)) (p : Z * Z) :
  seg ∈ draw_crop_marks x y w h len_px offset -> on_segment p seg ->
  0 <= len_px ->
  (p.2 = y - offset \/ p.2 = y + h + offset) /\
    (x - offset - len_px <= p.1 <= x - offset \/
     x + w + offset <= p.1 <= x + w + offset + len_px)
  \/ (p.1 = x - offset \/ p.1 = x + w + offset) /\
    (y - offset - len_px <= p.2 <= y - offset \/
     y + h + offset <= p.2 <= y + h + offset + len_px).
Proof.
  unfold draw_crop_marks, on_segment. intros Hseg Hon Hlen.
  apply list_elem_of_In in Hseg. simpl in Hseg.
  destruct Hseg as [<- | [<- | [<- | [<- | [<- | [<- | [<- | [<- | []]]]]]]]];
    simpl in Hon; lia.
Qed.

(** X13: with a gutter of more than 8 pixels, the offset at which
    [make_sheets] draws them, no pixel of a crop mark lies on a card of the
    page: the marks of a card stay in the gutters and margins around it. *)
Theorem crop_marks_clear_of_cards
  (sheet_w sheet_h card_w card_h cols rows margin_px gutter_px : Z)
  (chunk : list pystr) :
  8 < gutter_px -> 0 <= card_w -> 0 <= card_h ->
  let positions :=
    layout_positions sheet_w sheet_h card_w card_h cols rows
      margin_px gutter_px in
  let page := make_page sheet_w sheet_h card_w card_h true positions chunk in
  forall seg png origin p,
    seg ∈ page_marks page -> (png, origin) ∈ page_pasted page ->
    on_segment p seg -> ~ covers origin card_w card_h p.
Proof.
  intros Hg Hw Hh positions page seg png origin p Hseg Hpasted Hon.
  unfold page, make_page in Hseg, Hpasted. simpl in Hseg, Hpasted.
  apply list_elem_of_bind in Hseg as ([png' [x y]] & Hseg & Hcard).
  apply elem_of_zip_r in Hcard, Hpasted.
  apply elem_of_layout_positions in Hcard as (r1 & c1 & Hr1 & Hc1 & Hxy).
  apply elem_of_layout_positions in Hpasted as (r2 & c2 & Hr2 & Hc2 & ->).
  injection Hxy as -> ->.
  pose proof (elem_of_draw_crop_marks _ _ _ _ _ _ _ _ Hseg Hon ltac:(lia))
    as Hmark.
  unfold covers. simpl. intros [Hcx Hcy].
  assert (Hc : c1 + 1 <= c2 \/ c2 + 1 <= c1 \/ c1 = c2) by lia.
  assert (Hr : r1 + 1 <= r2 \/ r2 + 1 <= r1 \/ r1 = r2) by lia.
  pose proof (mul_step c1 c2 (card_w + gutter_px)).
  pose proof (mul_step c2 c1 (card_w + gutter_px)).
  pose proof (mul_step r1 r2 (card_h + gutter_px)).
  pose proof (mul_step r2 r1 (card_h + gutter_px)).
  destruct Hc as [Hc | [Hc | ->]], Hr as [Hr | [Hr | ->]]; lia.
Qed.

Lemma crop_marks_clear_of_cards_witness :
  8 < 18 /\
  (forall seg png origin p,
     seg ∈ page_marks
             (make_page 2480 3508 744 1039 true
                (layout_positions 2480 3508 744 1039 3 3 60 18) fifteen_pngs) ->
     (png, origin)
       ∈ page_pasted
           (make_page 2480 3508 744 1039 true
              (layout_positions 2480 3508 744 1039 3 3 60 18) fifteen_pngs) ->
     on_segment p seg -> ~ covers origin 744 1039 p).
Proof.
  split; [lia|].
  apply (crop_marks_clear_of_cards 2480 3508 744 1039 3 3 60 18 fifteen_pngs);
    lia.
Defined.

(** The orientation is only ever compared with ["a4portrait"]: any other
    string gives the landscape sheet, which is the portrait sheet with
    width and height exchanged, pixel for pixel. *)
Lemma a4_landscape_is_portrait_turned (dpi : Z) (orientation : pystr)
  (w h : Z) :
  orientation <> py "a4portrait" ->
  a4_dimensions dpi (py "a4portrait") = Ok (w, h) <->
  a4_dimensions dpi orientation = Ok (h, w).
Proof.
  intros Hne. unfold a4_dimensions.
  rewrite bool_decide_true by done. rewrite (bool_decide_false _ Hne).
  destruct (mul_float_int a4_short_in dpi ≫= round_float) as [s|e1];
    destruct (mul_float_int a4_long_in dpi ≫= round_float) as [l|e2];
    simpl; split; intros [= <- <-]; done.
Qed.

Lemma a4_landscape_is_portrait_turned_witness :
  a4_dimensions 300 (py "a4portrait") = Ok (2480, 3508) <->
  a4_dimensions 300 (py "a4landscape") = Ok (3508, 2480).
Proof.
  apply (a4_landscape_is_portrait_turned 300 (py "a4landscape") 2480 3508).
  vm_compute. discriminate.
Defined.

(** ** The sheet run: rasterizing and saving *)

(** *** The names of the rasterized images *)

Lemma pos_size_nat_gt (p : positive) :
  (Npos p < 2 ^ N.of_nat (Pos.size_nat p))%N.
Proof.
  induction p as [p IH | p IH |]; simpl Pos.size_nat.
  - rewrite Nat2N.inj_succ, N.pow_succ_r'. lia.
  - rewrite Nat2N.inj_succ, N.pow_succ_r'. lia.
  - reflexivity.
Qed.

Lemma digits_of_value (fuel : nat) (n : N) (acc : pystr) :
  (n < 2 ^ N.of_nat fuel)%N ->
  foldl (fun v c => 10 * v + (Z.of_N c - 48)) 0 (digits_of fuel n acc)
  = foldl (fun v c => 10 * v + (Z.of_N c - 48)) (Z.of_N n) acc.
Proof.
  revert n acc. induction fuel as [|fuel IH]; intros n acc Hn.
  { simpl in *. by replace n with 0%N by lia. }
  simpl digits_of.
  pose proof (N.div_mod n 10 ltac:(lia)) as Hdm.
  pose proof (N.mod_lt n 10 ltac:(lia)) as Hm.
  destruct (N.eqb_spec (n / 10) 0) as [Hz | Hnz].
  - simpl. f_equal. lia.
  - rewrite IH.
    + simpl. f_equal. lia.
    + rewrite Nat2N.inj_succ, N.pow_succ_r' in Hn.
      apply N.Div0.div_lt_upper_bound. lia.
Qed.

(** [int(str(n)) == n] for an [int] that is not negative. *)
Lemma str_of_Z_value (n : Z) :
  0 <= n ->
  foldl (fun v c => 10 * v + (Z.of_N c - 48)) 0 (str_of_Z n) = n.
Proof.
  intros Hn. destruct n as [|p|p]; [done| |lia].
  unfold str_of_Z. rewrite digits_of_value; [done|].
  apply pos_size_nat_gt.
Qed.

Lemma zeros_value (k : nat) (s : pystr) :
  foldl (fun v c => 10 * v + (Z.of_N c - 48)) 0 (replicate k 48%N ++ s)
  = foldl (fun v c => 10 * v + (Z.of_N c - 48)) 0 s.
Proof. induction k as [|k IH]; [done|]. simpl. exact IH. Qed.

Lemma card_png_inj (i j : Z) :
  0 <= i -> 0 <= j -> card_png i = card_png j -> i = j.
Proof.
  intros Hi Hj. unfold card_png. intros E.
  apply app_inv_head in E. rewrite !app_assoc in E.
  apply app_inv_tail in E.
  apply (f_equal (foldl (fun v c => 10 * v + (Z.of_N c - 48)) 0)) in E.
  by rewrite !zeros_value, !str_of_Z_value in E.
Qed.

(** *** The rasterization loop *)

Lemma rasterize_svg_ok (w : world) (svg png : pystr) (cw ch dpi : Z) :
  inkscape_ok w svg = true ->
  rasterize_svg w svg png cw ch dpi = ([Rasterize svg png cw ch dpi], Ok tt).
Proof. unfold rasterize_svg. by intros ->. Qed.

Lemma rasterize_svg_fail (w : world) (svg png : pystr) (cw ch dpi : Z) :
  inkscape_ok w svg = false ->
  rasterize_svg w svg png cw ch dpi
  = ([Rasterize svg png cw ch dpi], Raise (RuntimeError (path_name svg))).
Proof. unfold rasterize_svg. by intros ->. Qed.

Lemma rasterize_all_cons (w : world) (tmpdir : pystr) (cw ch dpi i : Z)
  (svg : pystr) (svgs : list pystr) :
  rasterize_all w tmpdir cw ch dpi i (svg :: svgs)
  = io_bind (rasterize_svg w svg (tmpdir ++ py "/" ++ card_png i) cw ch dpi)
      (fun _ =>
         io_bind (rasterize_all w tmpdir cw ch dpi (i + 1) svgs)
           (fun pngs => io_ret ((tmpdir ++ py "/" ++ card_png i) :: pngs))).
Proof. reflexivity. Qed.

Lemma seqZ_succ (m : Z) (n : nat) :
  seqZ m (Z.of_nat (S n)) = m :: seqZ (m + 1) (Z.of_nat n).
Proof.
  rewrite seqZ_cons by lia. f_equal. f_equal; lia.
Qed.

Lemma rasterize_all_ok (w : world) (tmpdir : pystr) (cw ch dpi i : Z)
  (svgs : list pystr) :
  Forall (fun svg => inkscape_ok w svg = true) svgs ->
  rasterize_all w tmpdir cw ch dpi i svgs
  = (rasterize_events tmpdir cw ch dpi i svgs,
     Ok ((fun k => tmpdir ++ py "/" ++ card_png k)
           <$> seqZ i (Z.of_nat (length svgs)))).
Proof.
  intros Hok. revert i. induction Hok as [|svg svgs Hsvg _ IH]; intros i.
  { reflexivity. }
  rewrite rasterize_all_cons, (rasterize_svg_ok _ _ _ _ _ _ Hsvg), IH.
  simpl length. rewrite seqZ_succ.
  cbv beta iota delta [io_bind io_ret]. by rewrite app_nil_r.
Qed.

Lemma rasterize_events_app (tmpdir : pystr) (cw ch dpi i : Z)
  (a b : list pystr) :
  rasterize_events tmpdir cw ch dpi i (a ++ b)
  = rasterize_events tmpdir cw ch dpi i a
      ++ rasterize_events tmpdir cw ch dpi (i + Z.of_nat (length a)) b.
Proof.
  revert i. induction a as [|x a IH]; intros i.
  { simpl. by rewrite Z.add_0_r. }
  simpl. rewrite IH. do 3 f_equal. lia.
Qed.

Lemma rasterize_all_fail (w : world) (tmpdir : pystr) (cw ch dpi i : Z)
  (done_ : list pystr) (bad : pystr) (rest : list pystr) :
  Forall (fun svg => inkscape_ok w svg = true) done_ ->
  inkscape_ok w bad = false ->
  rasterize_all w tmpdir cw ch dpi i (done_ ++ bad :: rest)
  = (rasterize_events tmpdir cw ch dpi i (done_ ++ [bad]),
     Raise (RuntimeError (path_name bad))).
Proof.
  intros Hok Hbad. revert i. induction Hok as [|svg svgs Hsvg _ IH]; intros i.
  { simpl app. rewrite rasterize_all_cons, (rasterize_svg_fail _ _ _ _ _ _ Hbad).
    reflexivity. }
  rewrite <- !app_comm_cons.
  rewrite rasterize_all_cons, (rasterize_svg_ok _ _ _ _ _ _ Hsvg), IH.
  reflexivity.
Qed.

Lemma rasterized_events (tmpdir : pystr) (cw ch dpi i : Z) (svgs : list pystr) :
  rasterized (rasterize_events tmpdir cw ch dpi i svgs) = svgs.
Proof.
  revert i. induction svgs as [|svg svgs IH]; intros i; [done|].
  unfold rasterized. cbn [rasterize_events]. rewrite bind_cons.
  cbn [app]. f_equal. apply IH.
Qed.

Lemma saved_none_rasterizing (tmpdir : pystr) (cw ch dpi i : Z)
  (svgs : list pystr) :
  saved_page_sizes (rasterize_events tmpdir cw ch dpi i svgs) = [].
Proof.
  revert i. induction svgs as [|svg svgs IH]; intros i; [done|].
  unfold saved_page_sizes. cbn [rasterize_events]. rewrite bind_cons.
  cbn [app]. apply IH.
Qed.

(** X14: each rasterized card gets an image file of its own: the loop of
    [make_sheets] names as many files as there are cards, no two alike, so
    no card's image is overwritten by another's. *)
Theorem rasterized_images_distinct (w : world) (tmpdir : pystr)
  (cw ch dpi : Z) (svgs : list pystr) :
  Forall (fun svg => inkscape_ok w svg = true) svgs ->
  exists trace pngs,
    rasterize_all w tmpdir cw ch dpi 1 svgs = (trace, Ok pngs) /\
    rasterized trace = svgs /\
    length pngs = length svgs /\ NoDup pngs.
Proof.
  intros Hok. eexists _, _. split; [by apply rasterize_all_ok|].
  split; [apply rasterized_events|]. split.
  - rewrite length_fmap, length_seqZ. lia.
  - apply NoDup_fmap_2_strong; [|apply NoDup_seqZ].
    intros i j Hi%elem_of_seqZ Hj%elem_of_seqZ E.
    apply app_inv_head in E. apply app_inv_head in E.
    apply card_png_inj; [lia | lia | done].
Qed.

Lemma rasterized_images_distinct_witness :
  exists trace pngs,
    rasterize_all scenario_world (py "tmp") 744 1039 300 1
      (replicate 12 (py "cards/Potion_of_Brightmind.svg"))
    = (trace, Ok pngs) /\
    rasterized trace = replicate 12 (py "cards/Potion_of_Brightmind.svg") /\
    length pngs = length (replicate 12 (py "cards/Potion_of_Brightmind.svg")) /\
    NoDup pngs.
Proof.
  apply (rasterized_images_distinct scenario_world (py "tmp") 744 1039 300
           (replicate 12 (py "cards/Potion_of_Brightmind.svg"))).
  apply Forall_replicate. reflexivity.
Defined.

(** *** [make_sheets] *)

Lemma io_bind_ok {A B} (tr : list event) (a : A) (f : A -> io B) :
  io_bind (tr, Ok a) f = (tr ++ (f a).1, (f a).2).
Proof. unfold io_bind. by destruct (f a). Qed.

Lemma io_bind_lift_ok {A B} (a : A) (f : A -> io B) :
  io_bind (io_lift (Ok a)) f = f a.
Proof. unfold io_bind, io_lift. by destruct (f a). Qed.

Lemma make_sheets_run (w : world) (svg_paths : list pystr) (out_pdf : pystr)
  (dpi : Z) (orientation : pystr)
  (cols rows margin_px gutter_px card_w card_h : Z) (add_crop : bool)
  (sheet_w sheet_h : Z) :
  inkscape_exe w <> [] ->
  a4_dimensions dpi orientation = Ok (sheet_w, sheet_h) ->
  make_sheets w svg_paths out_pdf dpi orientation cols rows margin_px
    gutter_px card_w card_h add_crop
  = io_bind (io_emit (MakeTempDir (mkdtemp w)))
      (fun _ =>
         io_bind (rasterize_all w (mkdtemp w) card_w card_h dpi 1 svg_paths)
           (fun pngs =>
              io_bind
                (io_lift
                   (make_pages sheet_w sheet_h card_w card_h add_crop
                      (layout_positions sheet_w sheet_h card_w card_h cols
                         rows margin_px gutter_px)
                      (cols * rows) pngs))
                (fun pages =>
                   match pages with
                   | [] => io_raise IndexError
                   | _ => io_emit (SavePdf out_pdf dpi pages)
                   end))).
Proof.
  intros Hexe Ha4. unfold make_sheets.
  destruct (inkscape_exe w) as [|c exe]; [done|].
  rewrite Ha4. exact (io_bind_lift_ok (sheet_w, sheet_h) _).
Qed.

Lemma first_existing_nil (path_exists : pystr -> bool)
  (candidates : list pystr) :
  Forall (fun c => c <> []) candidates ->
  first_existing path_exists candidates = []
  <-> Forall (fun c => path_exists c = false) candidates.
Proof.
  induction 1 as [|c cs Hc _ IH]; [done|]. simpl.
  destruct (path_exists c) eqn:Hex.
  - split; [done|]. intros [? _]%Forall_cons. congruence.
  - rewrite IH. split; [by constructor | by intros [_ ?]%Forall_cons].
Qed.

(** X15: [find_inkscape] answers the empty string exactly when [which] finds
    nothing and none of the four Windows paths exists; [make_sheets] then
    raises [EnvironmentError] before it does anything: no directory is
    made and nothing is rasterized or saved. *)
Theorem no_inkscape_no_work (w : world) (which : option pystr)
  (path_exists : pystr -> bool) :
  inkscape_exe w = find_inkscape which path_exists ->
  (find_inkscape which path_exists = []
   <-> (which = None \/ which = Some []) /\
       Forall (fun c => path_exists c = false) inkscape_candidates) /\
  ((which = None \/ which = Some []) ->
   Forall (fun c => path_exists c = false) inkscape_candidates ->
   forall svg_paths out_pdf dpi orientation cols rows margin_px gutter_px
          card_w card_h add_crop,
     make_sheets w svg_paths out_pdf dpi orientation cols rows margin_px
       gutter_px card_w card_h add_crop
     = ([], Raise EnvironmentError)).
Proof.
  intros Hexe.
  assert (Hcand : Forall (fun c : pystr => c <> []) inkscape_candidates).
  { repeat constructor; done. }
  assert (Hiff : find_inkscape which path_exists = []
                 <-> (which = None \/ which = Some []) /\
                     Forall (fun c => path_exists c = false)
                       inkscape_candidates).
  { unfold find_inkscape. destruct which as [[|c exe]|].
    - rewrite (first_existing_nil _ _ Hcand).
      split; [by split; [right|] | by intros [_ ?]].
    - split; [done|]. intros [[? | ?] _]; done.
    - rewrite (first_existing_nil _ _ Hcand).
      split; [by split; [left|] | by intros [_ ?]]. }
  split; [done|]. intros Hwhich Hnone. intros.
  unfold make_sheets. rewrite Hexe.
  by rewrite (proj2 Hiff (conj Hwhich Hnone)).
Qed.

Lemma no_inkscape_no_work_witness :
  make_sheets
    {| glob_svg := glob_svg scenario_world; inkscape_exe := [];
       mkdtemp := py "/tmp/cards_ras_0"; inkscape_ok := fun _ => true |}
    [py "cards/Potion_of_Brightmind.svg"] (py "out.pdf") 300
    (py "a4portrait") 3 3 60 18 744 1039 false
  = ([], Raise EnvironmentError).
Proof.
  destruct (no_inkscape_no_work
              {| glob_svg := glob_svg scenario_world; inkscape_exe := [];
                 mkdtemp := py "/tmp/cards_ras_0";
                 inkscape_ok := fun _ => true |}
              (@None pystr) (fun _ => false) eq_refl) as [_ Hwork].
  apply Hwork; [by left | repeat constructor].
Defined.

(** X16: [make_sheets] stops at the first card Inkscape fails on: the cards
    before it and the card itself have been rasterized, in order, the run
    ends in a [RuntimeError] that names the card, and no PDF is saved. *)
Theorem inkscape_failure_stops_run (w : world) (done_ : list pystr)
  (bad : pystr) (rest : list pystr) (out_pdf : pystr) (dpi : Z)
  (orientation : pystr) (cols rows margin_px gutter_px card_w card_h : Z)
  (add_crop : bool) (sheet_w sheet_h : Z) :
  inkscape_exe w <> [] ->
  a4_dimensions dpi orientation = Ok (sheet_w, sheet_h) ->
  Forall (fun svg => inkscape_ok w svg = true) done_ ->
  inkscape_ok w bad = false ->
  let run :=
    make_sheets w (done_ ++ bad :: rest) out_pdf dpi orientation cols rows
      margin_px gutter_px card_w card_h add_crop in
  run = (MakeTempDir (mkdtemp w)
           :: rasterize_events (mkdtemp w) card_w card_h dpi 1
                (done_ ++ [bad]),
         Raise (RuntimeError (path_name bad))) /\
  rasterized run.1 = done_ ++ [bad] /\
  saved_page_sizes run.1 = [].
Proof.
  intros Hexe Ha4 Hok Hbad run.
  assert (Hrun : run = (MakeTempDir (mkdtemp w)
                          :: rasterize_events (mkdtemp w) card_w card_h dpi 1
                               (done_ ++ [bad]),
                        Raise (RuntimeError (path_name bad)))).
  { unfold run. rewrite (make_sheets_run _ _ _ _ _ _ _ _ _ _ _ _ _ _ Hexe Ha4).
    by rewrite (rasterize_all_fail _ _ _ _ _ _ _ _ _ Hok Hbad). }
  split; [done|]. rewrite Hrun. cbn [fst]. split.
  - unfold rasterized. rewrite bind_cons. cbn [app].
    apply rasterized_events.
  - unfold saved_page_sizes. rewrite bind_cons. cbn [app].
    apply saved_none_rasterizing.
Qed.

Lemma inkscape_failure_stops_run_witness :
  let w := {| glob_svg := glob_svg scenario_world;
              inkscape_exe := py "inkscape";
              mkdtemp := py "/tmp/cards_ras_0";
              inkscape_ok := fun p =>
                bool_decide (p <> py "cards/Potion_of_Brightmind.svg") |} in
  let run :=
    make_sheets w
      ([py "cards/Sword_of_the_Autumn_Wolf.svg"]
         ++ py "cards/Potion_of_Brightmind.svg"
              :: [py "cards/Sword_of_the_Autumn_Wolf.svg"])
      (py "out.pdf") 300 (py "a4portrait") 3 3 60 18 744 1039 false in
  run = (MakeTempDir (mkdtemp w)
           :: rasterize_events (mkdtemp w) 744 1039 300 1
                ([py "cards/Sword_of_the_Autumn_Wolf.svg"]
                   ++ [py "cards/Potion_of_Brightmind.svg"]),
         Raise (RuntimeError (path_name (py "cards/Potion_of_Brightmind.svg"))))
  /\ rasterized run.1
     = [py "cards/Sword_of_the_Autumn_Wolf.svg"]
         ++ [py "cards/Potion_of_Brightmind.svg"]
  /\ saved_page_sizes run.1 = [].
Proof.
  intros w.
  apply (inkscape_failure_stops_run w
           [py "cards/Sword_of_the_Autumn_Wolf.svg"]
           (py "cards/Potion_of_Brightmind.svg")
           [py "cards/Sword_of_the_Autumn_Wolf.svg"]
           (py "out.pdf") 300 (py "a4portrait") 3 3 60 18 744 1039 false
           2480 3508).
  - vm_compute. discriminate.
  - vm_compute. reflexivity.
  - repeat constructor.
  - vm_compute. reflexivity.
Defined.

Lemma make_pages_no_cells sheet_w sheet_h card_w card_h add_crop
  (positions : list (Z * Z)) (per_page : Z) (pngs : list pystr) :
  (per_page = 0 ->
   make_pages sheet_w sheet_h card_w card_h add_crop positions per_page pngs
   = Raise ValueError) /\
  (per_page < 0 ->
   make_pages sheet_w sheet_h card_w card_h add_crop positions per_page pngs
   = Ok []).
Proof.
  unfold make_pages, range3. split.
  - intros ->. reflexivity.
  - intros Hneg. destruct (Z.eqb_spec per_page 0); [lia|].
    destruct (Z.ltb_spec 0 per_page); [lia|].
    assert (Hn : (0 - Z.of_nat (length pngs) - per_page - 1) / - per_page < 1).
    { apply Z.div_lt_upper_bound; lia. }
    unfold range. rewrite seqZ_nil by lia. reflexivity.
Qed.

(** X17: a grid without cells is found out late: with [cols * rows] zero,
    [make_sheets] first rasterizes every card and only then raises
    [ValueError] (from [range]); with [cols * rows] negative it raises
    [IndexError] (from [pages[0]]); in both cases no PDF is saved. *)
Theorem grid_without_cells_fails_late (w : world) (svg_paths : list pystr)
  (out_pdf : pystr) (dpi : Z) (orientation : pystr)
  (cols rows margin_px gutter_px card_w card_h : Z) (add_crop : bool)
  (sheet_w sheet_h : Z) :
  inkscape_exe w <> [] ->
  a4_dimensions dpi orientation = Ok (sheet_w, sheet_h) ->
  Forall (fun svg => inkscape_ok w svg = true) svg_paths ->
  cols * rows <= 0 ->
  make_sheets w svg_paths out_pdf dpi orientation cols rows margin_px
    gutter_px card_w card_h add_crop
  = (MakeTempDir (mkdtemp w)
       :: rasterize_events (mkdtemp w) card_w card_h dpi 1 svg_paths,
     Raise (if cols * rows =? 0 then ValueError else IndexError)).
Proof.
  intros Hexe Ha4 Hok Hcells.
  rewrite (make_sheets_run _ _ _ _ _ _ _ _ _ _ _ _ _ _ Hexe Ha4).
  rewrite (rasterize_all_ok _ _ _ _ _ _ _ Hok).
  unfold io_emit. rewrite !io_bind_ok.
  match goal with
  | |- context [make_pages ?a ?b ?c ?d ?e ?f ?g ?h] =>
      destruct (make_pages_no_cells a b c d e f g h) as [Hzero Hneg]
  end.
  destruct (Z.eqb_spec (cols * rows) 0) as [Hz | Hnz].
  - rewrite (Hzero Hz). cbn [io_bind io_lift io_raise fst snd app].
    by rewrite app_nil_r.
  - rewrite (Hneg ltac:(lia)). cbn [io_bind io_lift io_raise fst snd app].
    by rewrite app_nil_r.
Qed.

Lemma grid_without_cells_fails_late_witness :
  make_sheets scenario_world
    [py "cards/Sword_of_the_Autumn_Wolf.svg"; py "cards/Potion_of_Brightmind.svg"]
    (py "out.pdf") 300 (py "a4portrait") 3 0 60 18 744 1039 false
  = (MakeTempDir (mkdtemp scenario_world)
       :: rasterize_events (mkdtemp scenario_world) 744 1039 300 1
            [py "cards/Sword_of_the_Autumn_Wolf.svg";
             py "cards/Potion_of_Brightmind.svg"],
     Raise (if 3 * 0 =? 0 then ValueError else IndexError)).
Proof.
  apply (grid_without_cells_fails_late scenario_world _ _ 300
           (py "a4portrait") 3 0 60 18 744 1039 false 2480 3508).
  - vm_compute. discriminate.
  - vm_compute. reflexivity.
  - repeat constructor.
  - lia.
Defined.

(** ** The sheet run: from the command line to the PDF *)

Lemma lstrip_id (s : pystr) :
  match s with c :: _ => isspace c = false | [] => True end -> lstrip s = s.
Proof. destruct s as [|c s]; [done|]. simpl. by intros ->. Qed.

Lemma lstrip_head_visible (s : pystr) :
  match lstrip s with c :: _ => isspace c = false | [] => True end.
Proof.
  destruct (lstrip s) as [|c t] eqn:Hs; [done|]. by apply lstrip_head in Hs.
Qed.

Lemma strip_ends (s : pystr) :
  match strip s with c :: _ => isspace c = false | [] => True end /\
  match reverse (strip s) with c :: _ => isspace c = false | [] => True end.
Proof.
  unfold strip, rstrip. rewrite reverse_involutive.
  split; [|apply lstrip_head_visible].
  pose proof (lstrip_head_visible s) as Hhead.
  destruct (lstrip_suffix (reverse (lstrip s))) as [pre Hpre].
  apply (f_equal reverse) in Hpre.
  rewrite reverse_involutive, reverse_app in Hpre.
  destruct (reverse (lstrip (reverse (lstrip s)))) as [|c t]; [done|].
  rewrite Hpre in Hhead. exact Hhead.
Qed.

(** [s.strip().strip() == s.strip()] *)
Lemma strip_strip (s : pystr) : strip (strip s) = strip s.
Proof.
  destruct (strip_ends s) as [Hhead Hlast].
  unfold strip at 1. rewrite (lstrip_id _ Hhead).
  unfold rstrip. rewrite (lstrip_id _ Hlast). apply reverse_involutive.
Qed.

Lemma split_eq_spec (item name cnt : pystr) :
  split_eq item = Some (name, cnt) ->
  item = name ++ 61%N :: cnt /\ 61%N ∉ name.
Proof.
  revert name. induction item as [|c item IH]; intros name; [done|].
  simpl. destruct (N.eqb_spec c 61) as [-> | Hc].
  - intros [= <- <-]. split; [done | apply not_elem_of_nil].
  - destruct (split_eq item) as [[name' cnt']|]; [|done].
    intros [= <- <-]. destruct (IH name' eq_refl) as [-> Hname].
    split; [done|]. by apply not_elem_of_cons.
Qed.

Lemma split_eq_none (item : pystr) : split_eq item = None <-> 61%N ∉ item.
Proof.
  induction item as [|c item IH]; [split; [intros _; apply not_elem_of_nil|done]|].
  simpl. destruct (N.eqb_spec c 61) as [-> | Hc].
  - split; [done|]. intros Hin. destruct Hin. apply list_elem_of_here.
  - destruct (split_eq item) as [[name cnt]|] eqn:Hs.
    + split; [done|]. intros Hin. apply not_elem_of_cons in Hin as [_ Hin].
      by apply IH in Hin.
    + split; [|done]. intros _. apply not_elem_of_cons. split; [done|].
      by apply IH.
Qed.

Lemma strip_sublist (s : pystr) (x : char) : x ∈ strip s -> x ∈ s.
Proof.
  unfold strip, rstrip. intros Hx.
  destruct (lstrip_suffix s) as [pre Hpre].
  destruct (lstrip_suffix (reverse (lstrip s))) as [pre' Hpre'].
  rewrite Hpre. apply elem_of_app. right.
  apply elem_of_reverse. rewrite Hpre'. apply elem_of_app. right.
  by apply elem_of_reverse.
Qed.

Section command_line.
Context `{UnicodeTables}.

Lemma parse_adds_cons (item : pystr) (add_list : list pystr)
  (out : list (pystr * Z)) :
  parse_adds (item :: add_list) = Ok out ->
  exists name cnt n rest,
    split_eq item = Some (name, cnt) /\ int_of_str cnt = Some n /\
    parse_adds add_list = Ok rest /\
    out = if n <=? 0 then rest else (strip name, n) :: rest.
Proof.
  simpl. destruct (split_eq item) as [[name cnt]|] eqn:Hsplit; [|done].
  destruct (int_of_str cnt) as [n|] eqn:Hint; [|done].
  destruct (parse_adds add_list) as [rest|] eqn:Hrest; simpl; [|done].
  intros [= <-]. by exists name, cnt, n, rest.
Qed.

(** X18: every request [parse_adds] returns has a positive count and a name
    that is trimmed and holds no equals sign (an item is split at its
    first one); items with a count of zero or less are dropped without a
    word; one item without an equals sign makes the whole list fail with
    [ValueError]. *)
Theorem parse_adds_requests (add_list : list pystr) :
  (forall requests,
     parse_adds add_list = Ok requests ->
     Forall (fun r => 0 < r.2 /\ strip r.1 = r.1 /\ 61%N ∉ r.1) requests /\
     (length requests <= length add_list)%nat) /\
  (Exists (fun item => 61%N ∉ item) add_list ->
   parse_adds add_list = Raise ValueError).
Proof.
  split.
  - induction add_list as [|item add_list IH]; intros requests Hp.
    { injection Hp as <-. by split. }
    apply parse_adds_cons in Hp
      as (name & cnt & n & rest & Hsplit & _ & Hrest & ->).
    destruct (IH rest Hrest) as [Hall Hlen].
    destruct (Z.leb_spec n 0).
    + split; [done | simpl; lia].
    + split; [|simpl; lia]. constructor; [|done]. simpl.
      split; [done|]. split; [apply strip_strip|].
      apply split_eq_spec in Hsplit as [_ Hname].
      intros Hin. by apply strip_sublist in Hin.
  - induction 1 as [item add_list Hitem | item add_list _ IH]; simpl.
    + apply split_eq_none in Hitem. by rewrite Hitem.
    + destruct (split_eq item) as [[name cnt]|]; [|done].
      destruct (int_of_str cnt) as [n|]; [|done]. by rewrite IH.
Qed.

Lemma parse_adds_positive (add_list : list pystr) (requests : list (pystr * Z)) :
  parse_adds add_list = Ok requests -> Forall (fun r => 0 < r.2) requests.
Proof.
  revert requests. induction add_list as [|item add_list IH]; intros requests Hp.
  { by injection Hp as <-. }
  apply parse_adds_cons in Hp as (name & cnt & n & rest & _ & _ & Hrest & ->).
  destruct (Z.leb_spec n 0); [by apply IH|].
  constructor; [done | by apply IH].
Qed.

(** *** Which file answers a request *)

Lemma card_index_last (l1 : list pystr) (p : pystr) (l2 : list pystr) :
  Forall (fun q => str_lower (path_stem q) <> str_lower (path_stem p)) l2 ->
  card_index (l1 ++ p :: l2) !! str_lower (path_stem p) = Some p.
Proof.
  induction l2 as [|q l2 IH] using rev_ind; intros Hl2.
  - change (l1 ++ [p]) with (l1 ++ [p]). rewrite card_index_snoc.
    apply lookup_insert_eq.
  - apply Forall_app in Hl2 as [Hl2 Hq]. apply Forall_cons in Hq as [Hq _].
    rewrite app_comm_cons, app_assoc, card_index_snoc.
    rewrite lookup_insert_ne by done. by apply IH.
Qed.

(** X19: of the files of the directory whose stems are the same up to letter
    case, the one the directory lists last answers a request, in whatever
    case the request spells the name; it comes back once for every copy
    asked for. *)
Theorem collect_files_last_listed_wins (w : world) (cards_dir : pystr)
  (l1 : list pystr) (p : pystr) (l2 : list pystr) (base : pystr) (count : Z) :
  glob_svg w cards_dir = l1 ++ p :: l2 ->
  Forall (fun q => str_lower (path_stem q) <> str_lower (path_stem p)) l2 ->
  str_lower base = str_lower (path_stem p) ->
  collect_files w cards_dir [(base, count)]
  = Ok (replicate (Z.to_nat count) p).
Proof.
  intros Hglob Hl2 Hbase. unfold collect_files. rewrite Hglob. simpl.
  rewrite Hbase, (card_index_last l1 p l2 Hl2). simpl. by rewrite app_nil_r.
Qed.

(** *** The whole run *)

Lemma collect_requests_total (index : gmap pystr pystr)
  (requests : list (pystr * Z)) :
  Forall (fun r => is_Some (index !! str_lower r.1)) requests ->
  exists out,
    collect_requests index requests = Ok out /\
    length out = total_count requests /\
    Forall (fun p => exists key, index !! key = Some p) out.
Proof.
  induction 1 as [|[base count] requests [p Hp] _ (out & Hout & Hlen & Hall)].
  { by exists []. }
  simpl in Hp. exists (replicate (Z.to_nat count) p ++ out). simpl.
  rewrite Hp, Hout. split; [done|]. split.
  - rewrite length_app, length_replicate. by rewrite Hlen.
  - apply Forall_app. split; [|done]. apply Forall_replicate. by eexists.
Qed.

Lemma total_count_positive (requests : list (pystr * Z)) :
  requests <> [] -> Forall (fun r => 0 < r.2) requests ->
  (0 < total_count requests)%nat.
Proof.
  intros Hne Hpos. destruct Hpos as [|r requests Hr _]; [done|].
  simpl. lia.
Qed.

Lemma make_pages_some sheet_w sheet_h card_w card_h add_crop
  (positions : list (Z * Z)) (per_page : Z) (pngs : list pystr) :
  0 < per_page -> pngs <> [] ->
  exists page pages,
    make_pages sheet_w sheet_h card_w card_h add_crop positions per_page pngs
    = Ok (page :: pages).
Proof.
  intros Hpp Hne. rewrite make_pages_forward by done.
  pose proof (ceil_div_bounds (Z.of_nat (length pngs)) per_page Hpp
                ltac:(lia)) as [[Hlo Hhi] Hm].
  assert (0 < length pngs)%nat by (destruct pngs; [done | simpl; lia]).
  destruct (Z.to_nat ((Z.of_nat (length pngs) + per_page - 1) / per_page))
    as [|m] eqn:Hceil; [lia|].
  simpl. by eexists _, _.
Qed.


End command_line.

Lemma parse_adds_requests_witness :
  (Forall (fun r => 0 < r.2 /\ strip r.1 = r.1 /\ 61%N ∉ r.1)
     [(py "Sword", 2); (py "a", 3)] /\
   (length [(py "Sword", 2); (py "a", 3)] <= 3)%nat) /\
  parse_adds (H := ascii_tables) [py "Sword=2"; py "Potion"] = Raise ValueError.
Proof.
  split.
  - apply (parse_adds_requests (H := ascii_tables)
             [py " Sword =2"; py "Potion=0"; py "a=3"]).
    vm_compute. reflexivity.
  - apply (parse_adds_requests (H := ascii_tables) [py "Sword=2"; py "Potion"]).
    apply Exists_cons_tl, Exists_cons_hd.
    intros Hin%list_elem_of_In. vm_compute in Hin. intuition discriminate.
Defined.

Lemma collect_files_last_listed_wins_witness :
  collect_files (H := ascii_tables)
    {| glob_svg := fun _ => [py "cards/potion.svg"; py "cards/Potion.svg";
                             py "cards/Sword.svg"];
       inkscape_exe := py "inkscape"; mkdtemp := py "/tmp/cards_ras_0";
       inkscape_ok := fun _ => true |}
    (py "cards") [(py "POTION", 3)]
  = Ok (replicate (Z.to_nat 3) (py "cards/Potion.svg")).
Proof.
  apply (collect_files_last_listed_wins (H := ascii_tables) _ (py "cards")
           [py "cards/potion.svg"] (py "cards/Potion.svg")
           [py "cards/Sword.svg"] (py "POTION") 3).
  - reflexivity.
  - constructor; [|constructor]. vm_compute. discriminate.
  - vm_compute. reflexivity.
Defined.


(** ** The document: what can go wrong, and what it tells *)

Lemma bind_raise_inv {A B} (m : result A) (f : A -> result B) (e : exn) :
  m ≫= f = Raise e -> m = Raise e \/ exists a, m = Ok a /\ f a = Raise e.
Proof.
  destruct m as [a|e']; intros Hf; [right; by exists a|].
  left. f_equal. by injection Hf.
Qed.

Lemma result_list_raise_inv {A B} (f : A -> result B) (l : list A) (e : exn) :
  result_list f l = Raise e -> exists a, a ∈ l /\ f a = Raise e.
Proof.
  induction l as [|a l IH]; [done|]. simpl.
  destruct (f a) as [b|e'] eqn:Ha.
  - simpl. destruct (result_list f l) as [bs|e'']; [done|].
    simpl. intros [= ->]. destruct (IH eq_refl) as (a' & Hin & Ha').
    exists a'. split; [by apply list_elem_of_further | done].
  - simpl. intros [= ->]. exists a. split; [apply list_elem_of_here | done].
Qed.

(** [theme.update] only adds and replaces: the keys of the literal stay. *)
Lemma get_theme_has_keys (name : gmap string value) (rarity : pystr)
  (key : string) :
  key ∈ "card_sz" :: rect_keys ++ anchor_keys ++ style_keys ->
  exists v, get_theme name rarity !! key = Some v.
Proof.
  intros Hin.
  assert (Hd : is_Some (default_theme !! key)).
  { unfold rect_keys, anchor_keys, style_keys in Hin. simpl in Hin.
    repeat (apply elem_of_cons in Hin as [-> | Hin];
            [eexists; vm_compute; reflexivity|]).
    by apply elem_of_nil in Hin. }
  assert (Hu : is_Some ((name ∪ default_theme) !! key)).
  { apply lookup_union_is_Some. by right. }
  unfold get_theme. destruct (rarity_colors !! rarity) as [colour|].
  - destruct (decide (key = "frame_inner")) as [-> | Hne].
    + rewrite lookup_insert_eq. by eexists.
    + rewrite lookup_insert_ne by done. destruct Hu as [v Hv]. by exists v.
  - destruct Hu as [v Hv]. by exists v.
Qed.

Ltac key_in := apply list_elem_of_In; simpl; tauto.

(** One lookup of a builder: the key is there; a value that does not
    unpack ends the builder in [ValueError]. *)
Ltac lookup_step Hkeys :=
  match goal with
  | |- context [?t !! ?k] =>
      let v := fresh "v" in
      let Hv := fresh "Hv" in
      destruct (Hkeys k ltac:(key_in)) as [v Hv]; rewrite Hv; clear Hv;
      cbn [mbind result_bind fmap result_fmap];
      try match goal with
          | |- context [unpack2 v] => destruct v
          | |- context [unpack3 v] => destruct v
          | |- context [unpack4 v] => destruct v
          end;
      cbn [unpack2 unpack3 unpack4 mbind result_bind fmap result_fmap];
      try discriminate
  end.

Section keys.
Context `{UnicodeTables}.
Variable theme : gmap string value.
Hypothesis Hkeys :
  forall key, key ∈ "card_sz" :: rect_keys ++ anchor_keys ++ style_keys ->
              exists v, theme !! key = Some v.

Lemma build_frame_str_keys (key : string) :
  build_frame_str theme <> Raise (KeyError key).
Proof.
  unfold build_frame_str, fmt, theme_get. repeat lookup_step Hkeys.
Qed.

Lemma build_title_str_keys (name rarity : pystr) (key : string) :
  build_title_str theme name rarity <> Raise (KeyError key).
Proof.
  unfold build_title_str, fmt, theme_get. repeat lookup_step Hkeys.
Qed.

Lemma build_art_str_keys (fs : filesystem) (art_path : option pystr)
  (key : string) :
  build_art_str fs theme art_path <> Raise (KeyError key).
Proof.
  unfold build_art_str, fmt, theme_get. repeat lookup_step Hkeys.
Qed.

Lemma build_type_str_keys (type : pystr) (key : string) :
  build_type_str theme type <> Raise (KeyError key).
Proof.
  unfold build_type_str, fmt, theme_get. repeat lookup_step Hkeys.
Qed.

Ltac wrap_step :=
  match goal with
  | |- context [wrap_svg_text ?t ?w ?lh ?x] =>
      let s := fresh "s" in
      let Hs := fresh "Hs" in
      destruct (wrap_svg_text_total t w lh x ltac:(lia)) as [s Hs];
      rewrite Hs; clear Hs; cbn [mbind result_bind fmap result_fmap]
  end.

Lemma build_rules_str_keys (rules : pystr + list pystr) (flavor : pystr)
  (key : string) :
  build_rules_str theme rules flavor <> Raise (KeyError key).
Proof.
  unfold build_rules_str, flavor_lines, fmt, theme_get.
  destruct flavor as [|q flavor]; repeat lookup_step Hkeys;
    repeat wrap_step; discriminate.
Qed.

Lemma badge_str_keys (y w h ty fs : Z) (badge : Z * Z * pystr) (key : string) :
  badge_str theme y w h ty fs badge <> Raise (KeyError key).
Proof.
  destruct badge as [[bx tx] el].
  unfold badge_str, fmt, theme_get. repeat lookup_step Hkeys.
Qed.

Lemma build_optional_str_keys (pt price weight : option pystr) (key : string) :
  build_optional_str theme pt price weight <> Raise (KeyError key).
Proof.
  unfold build_optional_str, theme_get. do 2 lookup_step Hkeys.
  match goal with
  | |- context [result_list ?f ?l] =>
      destruct (result_list f l) as [strs|e] eqn:Hl; [done|]
  end.
  apply result_list_raise_inv in Hl as (badge & _ & Hb).
  simpl. intros [= ->]. by apply badge_str_keys in Hb.
Qed.

Lemma build_footer_str_keys (set_code collector author copyright_str : pystr)
  (key : string) :
  build_footer_str theme set_code collector author copyright_str
  <> Raise (KeyError key).
Proof.
  unfold build_footer_str, fmt, theme_get. repeat lookup_step Hkeys.
Qed.

End keys.

Section document.
Context `{UnicodeTables}.

(** X10: [build_svg] never fails for want of a key, whatever theme the card
    brings: the override is merged into the full literal, so every key a
    builder reads is there. *)
Theorem build_svg_never_misses_a_key (fs : filesystem) (c : card)
  (key : string) :
  build_svg fs c <> Raise (KeyError key).
Proof.
  pose proof (get_theme_has_keys (default ∅ (card_theme c))
                (default (py "Common") (card_rarity c))) as Hkeys.
  fold (resolved_theme c) in Hkeys.
  unfold build_svg. intros Hb.
  apply bind_raise_inv in Hb as [Hb | (frame_str & _ & Hb)];
    [by apply (build_frame_str_keys _ Hkeys) in Hb|].
  apply bind_raise_inv in Hb as [Hb | (title_str & _ & Hb)];
    [by apply (build_title_str_keys _ Hkeys) in Hb|].
  apply bind_raise_inv in Hb as [Hb | ([clipping_art art_img] & _ & Hb)];
    [by apply (build_art_str_keys _ Hkeys) in Hb|].
  apply bind_raise_inv in Hb as [Hb | (type_str & _ & Hb)];
    [by apply (build_type_str_keys _ Hkeys) in Hb|].
  apply bind_raise_inv in Hb as [Hb | (rules_str & _ & Hb)];
    [by apply (build_rules_str_keys _ Hkeys) in Hb|].
  apply bind_raise_inv in Hb as [Hb | (opt_str & _ & Hb)];
    [by apply (build_optional_str_keys _ Hkeys) in Hb|].
  apply bind_raise_inv in Hb as [Hb | (footer_str & _ & Hb)];
    [by apply (build_footer_str_keys _ Hkeys) in Hb|].
  apply bind_raise_inv in Hb as [Hb | ([w h] & _ & Hb)]; [|done].
  revert Hb. unfold theme_get.
  destruct (Hkeys "card_sz" ltac:(key_in)) as [v ->].
  destruct v; done.
Qed.

Lemma Ok_pair_inj {A B} (a a' : A) (b b' : B) :
  Ok (a, b) = Ok (a', b') -> a = a' /\ b = b'.
Proof. by intros [= -> ->]. Qed.

(** The template with the art element set apart. *)
Lemma svg_template_art (card_w card_h : Z)
  (clipping_art frame_str title_str art_img type_str rules_str opt_str
   footer_str : pystr) :
  exists pre post,
    (forall art,
       svg_template card_w card_h clipping_art frame_str title_str art
         type_str rules_str opt_str footer_str
       = pre ++ art ++ post).
Proof.
  eexists (concat _), (concat _). intros art. unfold svg_template.
  match goal with
  | |- concat ?l = _ =>
      change l with (take 36 l ++ [art] ++ drop 37 l)
  end.
  cbn [take drop].
  match goal with
  | |- concat (?a ++ ?b ++ ?c) = _ =>
      rewrite (concat_app a (b ++ c)), (concat_app b c)
  end.
  change (concat [art]) with (art ++ []). rewrite app_nil_r.
  reflexivity.
Qed.

(** The art element for a path that is not empty: the placeholder
    rectangle when there is no file, the image with its data URI when there
    is one; the rest does not depend on the file system. *)
Lemma build_art_str_shape (theme : gmap string value) (q : char)
  (path : pystr) :
  (exists e, forall fs, build_art_str fs theme (Some (q :: path)) = Raise e) \/
  exists clip rect_rest image_rest tail mime,
    forall fs,
      build_art_str fs theme (Some (q :: path))
      = Ok (clip,
            match fs (q :: path) with
            | Some data =>
                fstr "<image href=`"
                  ++ (py "data:" ++ mime ++ py ";base64," ++ b64encode data)
                  ++ image_rest
            | None => fstr "<rect " ++ rect_rest
            end ++ tail).
Proof.
  unfold build_art_str.
  destruct (theme_get theme "art_rec" ≫= unpack4) as [[[[x y] w] h]|e];
    [|left; by exists e].
  cbn [mbind result_bind].
  destruct (fmt theme "art_bg") as [art_bg|e]; [|left; by exists e].
  cbn [mbind result_bind].
  destruct (fmt theme "frame_border") as [border|e]; [|left; by exists e].
  cbn [mbind result_bind].
  right. eexists _, _, _, _, _. intros fs. unfold data_uri_for_image.
  destruct (fs (q :: path)) as [data|]; reflexivity.
Qed.

(** X8: the document tells the art apart: two runs on the same card that
    give the same document read the same art, the same bytes or no file in
    both. With the theorem that the document depends on nothing but the
    card and these bytes, the art file is exactly what a document carries
    of the file system. *)
Theorem document_determines_art (fs1 fs2 : filesystem) (c : card)
  (path : pystr) (name1 name2 svg : pystr) :
  card_art_path c = Some path -> path <> [] ->
  (forall data, fs1 path = Some data -> Forall (fun b => (b < 256)%N) data) ->
  (forall data, fs2 path = Some data -> Forall (fun b => (b < 256)%N) data) ->
  build_svg fs1 c = Ok (name1, svg) ->
  build_svg fs2 c = Ok (name2, svg) ->
  fs1 path = fs2 path.
Proof.
  intros Hpath Hne Hb1 Hb2 H1 H2. unfold build_svg in H1, H2.
  apply bind_ok_inv in H1 as (frame1 & Hf1 & H1).
  apply bind_ok_inv in H2 as (frame2 & Hf2 & H2).
  apply bind_ok_inv in H1 as (title1 & Ht1 & H1).
  apply bind_ok_inv in H2 as (title2 & Ht2 & H2).
  apply bind_ok_inv in H1 as ([clip1 art1] & Ha1 & H1).
  apply bind_ok_inv in H2 as ([clip2 art2] & Ha2 & H2).
  apply bind_ok_inv in H1 as (type1 & Hy1 & H1).
  apply bind_ok_inv in H2 as (type2 & Hy2 & H2).
  apply bind_ok_inv in H1 as (rules1 & Hr1 & H1).
  apply bind_ok_inv in H2 as (rules2 & Hr2 & H2).
  apply bind_ok_inv in H1 as (opt1 & Ho1 & H1).
  apply bind_ok_inv in H2 as (opt2 & Ho2 & H2).
  apply bind_ok_inv in H1 as (footer1 & Hfo1 & H1).
  apply bind_ok_inv in H2 as (footer2 & Hfo2 & H2).
  apply bind_ok_inv in H1 as ([w1 h1] & Hsz1 & H1).
  apply bind_ok_inv in H2 as ([w2 h2] & Hsz2 & H2).
  assert (frame2 = frame1) as -> by congruence.
  assert (title2 = title1) as -> by congruence.
  assert (type2 = type1) as -> by congruence.
  assert (rules2 = rules1) as -> by congruence.
  assert (opt2 = opt1) as -> by congruence.
  assert (footer2 = footer1) as -> by congruence.
  assert (w2 = w1 /\ h2 = h1) as [-> ->] by (split; congruence).
  clear Hf1 Hf2 Ht1 Ht2 Hy1 Hy2 Hr1 Hr2 Ho1 Ho2 Hfo1 Hfo2 Hsz1 Hsz2.
  rewrite Hpath in Ha1, Ha2. destruct path as [|q path]; [done|]. clear Hne.
  destruct (build_art_str_shape (resolved_theme c) q path)
    as [[e He] | (clip & rect_rest & image_rest & tail & mime & Hshape)].
  { rewrite He in Ha1. discriminate Ha1. }
  rewrite Hshape in Ha1, Ha2. clear Hshape.
  apply Ok_pair_inj in Ha1 as [Hc1 Hart1].
  apply Ok_pair_inj in Ha2 as [Hc2 Hart2].
  subst clip1 clip2 art1 art2.
  apply Ok_pair_inj in H1 as [_ H1]. apply Ok_pair_inj in H2 as [_ H2].
  rewrite <- H2 in H1. clear H2. rename H1 into Hsvg.
  destruct (svg_template_art w1 h1 clip frame1 title1 [] type1 rules1
              opt1 footer1) as (pre & post & Htemplate).
  rewrite !Htemplate in Hsvg. clear Htemplate.
  apply app_inv_head in Hsvg. apply app_inv_tail in Hsvg.
  apply app_inv_tail in Hsvg.
  specialize (Hb1 (default [] (fs1 (q :: path)))).
  specialize (Hb2 (default [] (fs2 (q :: path)))).
  destruct (fs1 (q :: path)) as [d1|], (fs2 (q :: path)) as [d2|];
    [| | |done].
  - f_equal. apply b64encode_inj; [by apply Hb1 | by apply Hb2 |].
    apply app_inv_head in Hsvg. apply app_inv_tail in Hsvg.
    by do 3 apply app_inv_head in Hsvg.
  - apply (f_equal (fun l => l !! 1%nat)) in Hsvg. vm_compute in Hsvg.
    discriminate Hsvg.
  - apply (f_equal (fun l => l !! 1%nat)) in Hsvg. vm_compute in Hsvg.
    discriminate Hsvg.
Qed.

End document.

Lemma document_determines_art_witness :
  sample_fs1 (py "art/sword.png") = sample_fs2 (py "art/sword.png").
Proof.
  set (svg :=
    match build_svg (H := ascii_tables) sample_fs1 sample_card with
    | Ok (_, svg) => svg
    | Raise _ => []
    end).
  apply (document_determines_art (H := ascii_tables) sample_fs1 sample_fs2
           sample_card (py "art/sword.png")
           (py "Sword_of_the_Autumn_Wolf.svg")
           (py "Sword_of_the_Autumn_Wolf.svg") svg).
  - reflexivity.
  - vm_compute. discriminate.
  - intros data Hdata. vm_compute in Hdata. injection Hdata as <-.
    repeat constructor.
  - intros data Hdata. vm_compute in Hdata. injection Hdata as <-.
    repeat constructor.
  - vm_compute. reflexivity.
  - vm_compute. reflexivity.
Defined.

(** ** The run of the card generator *)

Import GenerateCards.

Lemma run_bind_done {A B} (tr : list event) (a : A) (f : A -> run B) :
  run_bind (tr, Done a) f = (tr ++ (f a).1, (f a).2).
Proof. unfold run_bind. by destruct (f a). Qed.

Lemma run_bind_failed {A B} (tr : list event) (e : failure) (f : A -> run B) :
  run_bind (tr, Failed e) f = (tr, Failed e).
Proof. reflexivity. Qed.

Lemma written_snoc (tr : list event) (ev : event) :
  written (tr ++ [ev])
  = match ev with
    | WriteText dir name text => <[(dir, name) := text]> (written tr)
    | _ => written tr
    end.
Proof. unfold written. by rewrite foldl_app. Qed.

Lemma written_app_prints (tr tr' : list event) :
  Forall (fun ev => match ev with WriteText _ _ _ => False | _ => True end) tr' ->
  written (tr ++ tr') = written tr.
Proof.
  induction tr' as [|ev tr' IH] using rev_ind; intros Hp.
  { by rewrite app_nil_r. }
  apply Forall_app in Hp as [Hp Hev]. apply Forall_cons in Hev as [Hev _].
  rewrite app_assoc, written_snoc, (IH Hp). by destruct ev.
Qed.

Lemma written_prints_app (tr tr' : list event) :
  Forall (fun ev => match ev with WriteText _ _ _ => False | _ => True end) tr ->
  written (tr ++ tr') = written tr'.
Proof.
  intros Hp. induction tr' as [|ev tr' IH] using rev_ind.
  { rewrite app_nil_r. by rewrite <- (app_nil_l tr), written_app_prints. }
  by rewrite app_assoc, !written_snoc, IH.
Qed.

(** The files a list of documents leaves when each is written in turn. *)
Lemma written_docs_snoc (out : pystr) (docs : list (pystr * pystr))
  (d : pystr * pystr) :
  written ((fun d => WriteText out d.1 d.2) <$> (docs ++ [d]))
  = <[(out, d.1) := d.2]> (written ((fun d => WriteText out d.1 d.2) <$> docs)).
Proof. rewrite fmap_app. exact (written_snoc _ _). Qed.

Lemma written_docs_last (out : pystr) (l1 : list (pystr * pystr))
  (d : pystr * pystr) (l2 : list (pystr * pystr)) :
  Forall (fun d' => d'.1 <> d.1) l2 ->
  written ((fun d => WriteText out d.1 d.2) <$> (l1 ++ d :: l2))
    !! (out, d.1) = Some d.2.
Proof.
  induction l2 as [|d' l2 IH] using rev_ind; intros Hl2.
  - rewrite written_docs_snoc. apply lookup_insert_eq.
  - apply Forall_app in Hl2 as [Hl2 Hd']. apply Forall_cons in Hd' as [Hd' _].
    rewrite app_comm_cons, app_assoc, written_docs_snoc.
    rewrite lookup_insert_ne by congruence. by apply IH.
Qed.

Lemma written_docs_size (out : pystr) (docs : list (pystr * pystr)) :
  (forall name,
     is_Some (written ((fun d => WriteText out d.1 d.2) <$> docs)
                !! (out, name)) <-> name ∈ docs.*1) /\
  (size (written ((fun d => WriteText out d.1 d.2) <$> docs)) <= length docs)%nat
  /\
  (size (written ((fun d => WriteText out d.1 d.2) <$> docs)) = length docs
   <-> NoDup (docs.*1)).
Proof.
  induction docs as [|d docs (Hdom & Hle & Hiff)] using rev_ind.
  { split; [|split].
    - intros name. split; [by intros [? ?] | by intros ?%elem_of_nil].
    - done.
    - split; [constructor | done]. }
  rewrite written_docs_snoc, fmap_app, length_app. simpl.
  set (m := written ((fun d => WriteText out d.1 d.2) <$> docs)) in *.
  assert (Hnodup : NoDup (docs.*1 ++ [d.1]) <-> NoDup (docs.*1) /\ d.1 ∉ docs.*1).
  { rewrite NoDup_app. split.
    - intros (Hn & Hdis & _). split; [done|]. intros Hin.
      apply (Hdis _ Hin). apply list_elem_of_here.
    - intros [Hn Hnot]. split; [done|]. split; [|apply NoDup_singleton].
      intros x Hx Hx'%list_elem_of_singleton. by subst. }
  split; [|destruct (m !! (out, d.1)) as [old|] eqn:Hold].
  - intros name. rewrite elem_of_app, list_elem_of_singleton.
    destruct (decide (name = d.1)) as [-> | Hne].
    + rewrite lookup_insert_eq. split; [by right | by eexists].
    + rewrite lookup_insert_ne by congruence. rewrite Hdom. tauto.
  - rewrite map_size_insert_Some by done.
    assert (d.1 ∈ docs.*1) by (apply Hdom; by eexists).
    split; [lia|]. rewrite Hnodup. split; [lia | tauto].
  - rewrite map_size_insert_None by done.
    assert (d.1 ∉ docs.*1).
    { intros Hin. apply Hdom in Hin as [? ?]. congruence. }
    split; [lia|]. rewrite Hnodup. split.
    + intros Hs. split; [apply Hiff; lia | done].
    + intros [Hn _]. apply Hiff in Hn. lia.
Qed.

Lemma print_names_run (made : list pystr) :
  print_names made = ((fun name => Print (py " - " ++ name)) <$> made, Done tt).
Proof.
  induction made as [|name made IH]; [done|].
  simpl print_names. rewrite IH. reflexivity.
Qed.

Lemma printed_app (a b : list event) : printed (a ++ b) = printed a ++ printed b.
Proof. unfold printed. apply bind_app. Qed.

Lemma printed_writes (out : pystr) (docs : list (pystr * pystr)) :
  printed ((fun d => WriteText out d.1 d.2) <$> docs) = [].
Proof.
  induction docs as [|d docs IH]; [done|].
  rewrite fmap_cons. unfold printed in *. rewrite bind_cons. exact IH.
Qed.

Lemma printed_prints (lines : list pystr) :
  printed (Print <$> lines) = lines.
Proof.
  induction lines as [|l lines IH]; [done|].
  rewrite fmap_cons. unfold printed in *. rewrite bind_cons. cbn [app].
  by rewrite IH.
Qed.

Lemma load_dir_cons (w : files) (p : pystr) (paths : list pystr) :
  load_dir w (p :: paths)
  = run_bind
      (match read_cards w p with
       | inr cards_in_file =>
           run_bind
             (emit (Print (py "Loaded "
                             ++ str_of_Z (Z.of_nat (length cards_in_file))
                             ++ py " cards from " ++ path_name p)))
             (fun _ => mret cards_in_file)
       | inl e =>
           run_bind
             (emit (Print (py "Fehler in " ++ path_name p ++ py ": " ++ e)))
             (fun _ => mret [])
       end)
      (fun cards_in_file =>
         run_bind (load_dir w paths)
           (fun cards => mret (cards_in_file ++ cards))).
Proof. reflexivity. Qed.

Lemma load_dir_run (w : files) (paths : list pystr) :
  load_dir w paths
  = (Print <$>
       ((fun q => match read_cards w q with
                  | inr cs =>
                      py "Loaded " ++ str_of_Z (Z.of_nat (length cs))
                        ++ py " cards from " ++ path_name q
                  | inl e => py "Fehler in " ++ path_name q ++ py ": " ++ e
                  end) <$> paths),
     Done (concat ((fun q => match read_cards w q with
                             | inr cs => cs
                             | inl _ => []
                             end) <$> paths))).
Proof.
  induction paths as [|p paths IH]; [done|].
  rewrite load_dir_cons, IH, !fmap_cons. unfold emit.
  destruct (read_cards w p) as [msg|cs];
    repeat (rewrite run_bind_done; cbn [fst snd mret run_mret app]);
    by rewrite !app_nil_r.
Qed.

Lemma load_cards_prints (w : files) (cards_path : pystr) (tr : list event)
  (r : outcome (list card)) :
  load_cards w cards_path = (tr, r) ->
  Forall (fun ev => match ev with WriteText _ _ _ => False | _ => True end) tr.
Proof.
  unfold load_cards. destruct (is_file w cards_path).
  { destruct (read_cards w cards_path); intros [= <- _]; constructor. }
  destruct (is_dir w cards_path); [|intros [= <- _]; constructor].
  rewrite load_dir_run. intros [= <- _].
  apply Forall_fmap. by apply Forall_forall.
Qed.

Lemma str_le_total (a b : pystr) : str_le a b = true \/ str_le b a = true.
Proof.
  revert b. induction a as [|x a IH]; intros [|y b]; simpl; auto.
  destruct (N.ltb_spec x y); [by left|].
  destruct (N.ltb_spec y x); [by right|].
  assert (x = y) as -> by lia. rewrite N.eqb_refl. simpl. apply IH.
Qed.

Lemma path_le_total : Total path_le.
Proof. intros p q. apply str_le_total. Qed.

Section generator.
Context `{UnicodeTables}.

Lemma write_cards_cons (fs : filesystem) (out : pystr) (c : card)
  (cards : list card) :
  write_cards fs out (c :: cards)
  = match build_svg fs c with
    | Raise e => fail (BuildError e)
    | Ok (name, svg) =>
        run_bind (emit (WriteText out name svg))
          (fun _ =>
             run_bind (write_cards fs out cards)
               (fun made => mret (name :: made)))
    end.
Proof. reflexivity. Qed.

Lemma write_cards_ok (fs : filesystem) (out : pystr) (cards : list card)
  (docs : list (pystr * pystr)) :
  Forall2 (fun c d => build_svg fs c = Ok d) cards docs ->
  write_cards fs out cards
  = ((fun d => WriteText out d.1 d.2) <$> docs, Done (docs.*1)).
Proof.
  induction 1 as [|c [name svg] cards docs Hc _ IH]; [done|].
  rewrite write_cards_cons, Hc, IH. unfold emit.
  rewrite !run_bind_done. cbn [fst snd mret run_mret].
  by rewrite app_nil_r.
Qed.

Lemma write_cards_fail (fs : filesystem) (out : pystr) (l1 : list card)
  (c : card) (l2 : list card) (docs : list (pystr * pystr)) (e : exn) :
  Forall2 (fun c d => build_svg fs c = Ok d) l1 docs ->
  build_svg fs c = Raise e ->
  write_cards fs out (l1 ++ c :: l2)
  = ((fun d => WriteText out d.1 d.2) <$> docs, Failed (BuildError e)).
Proof.
  intros Hl1 Hc. induction Hl1 as [|c1 [name svg] cards docs Hc1 _ IH].
  { simpl app. by rewrite write_cards_cons, Hc. }
  rewrite <- app_comm_cons, write_cards_cons, Hc1, IH. unfold emit.
  rewrite run_bind_done. reflexivity.
Qed.

Lemma main_unfold (w : files) (cards_path out : pystr) :
  main w cards_path out
  = run_bind (load_cards w cards_path)
      (fun cards =>
         run_bind (emit (Mkdir out))
           (fun _ =>
              run_bind (write_cards (art_files w) out cards)
                (fun made =>
                   run_bind
                     (emit (Print (py "Generated "
                                     ++ str_of_Z (Z.of_nat (length made))
                                     ++ py " cards into: " ++ resolve w out)))
                     (fun _ => print_names made)))).
Proof. reflexivity. Qed.

(** X21: when every card builds, the generator writes one file for each
    card, prints the number of cards and their file names, and returns;
    cards whose names give the same file name share one file, which in the
    end holds the document of the last of them, so the directory has as
    many files as there are cards only when the file names are distinct. *)
Theorem main_last_card_keeps_the_file (w : files) (cards_path out : pystr)
  (tr0 : list event) (cards : list card) (docs : list (pystr * pystr)) :
  load_cards w cards_path = (tr0, Done cards) ->
  Forall2 (fun c d => build_svg (art_files w) c = Ok d) cards docs ->
  let run := main w cards_path out in
  run.2 = Done tt /\
  printed run.1
  = printed tr0
      ++ (py "Generated " ++ str_of_Z (Z.of_nat (length cards))
            ++ py " cards into: " ++ resolve w out)
      :: ((fun d => py " - " ++ d.1) <$> docs) /\
  (forall l1 d l2,
     docs = l1 ++ d :: l2 -> Forall (fun d' => d'.1 <> d.1) l2 ->
     written run.1 !! (out, d.1) = Some d.2) /\
  (size (written run.1) <= length cards)%nat /\
  (size (written run.1) = length cards <-> NoDup (docs.*1)).
Proof.
  intros Hload Hdocs run.
  pose proof (Forall2_length _ _ _ Hdocs) as Hlen.
  assert (Hrun : run
                 = (tr0 ++ [Mkdir out]
                      ++ ((fun d => WriteText out d.1 d.2) <$> docs)
                      ++ (Print <$>
                            ((py "Generated "
                                ++ str_of_Z (Z.of_nat (length cards))
                                ++ py " cards into: " ++ resolve w out)
                               :: ((fun d => py " - " ++ d.1) <$> docs))),
                    Done tt)).
  { unfold run. rewrite main_unfold, Hload. unfold emit.
    rewrite run_bind_done. cbn [fst snd].
    rewrite run_bind_done. cbn [fst snd].
    rewrite (write_cards_ok _ _ _ _ Hdocs).
    rewrite run_bind_done. cbn [fst snd].
    rewrite run_bind_done. cbn [fst snd].
    rewrite print_names_run. cbn [fst snd].
    rewrite length_fmap, <- Hlen. f_equal. do 3 f_equal.
    rewrite fmap_cons. cbn [app]. f_equal.
    by rewrite <- !list_fmap_compose. }
  assert (Hwritten : written run.1
                     = written ((fun d => WriteText out d.1 d.2) <$> docs)).
  { rewrite Hrun. cbn [fst]. rewrite !app_assoc.
    rewrite written_app_prints.
    2:{ apply Forall_fmap. by apply Forall_forall. }
    apply written_prints_app. apply Forall_app. split; [|by constructor].
    by apply (load_cards_prints w cards_path tr0 (Done cards)). }
  split; [by rewrite Hrun|]. split.
  { rewrite Hrun. cbn [fst]. rewrite !printed_app, printed_writes.
    rewrite printed_prints. reflexivity. }
  rewrite Hwritten.
  destruct (written_docs_size out docs) as (_ & Hle & Hiff).
  split; [|split; [lia | by rewrite Hlen]].
  intros l1 d l2 -> Hl2. by apply written_docs_last.
Qed.


(** X23: how the cards are loaded. A path that is a file and fails to load
    ends the run before the output directory is made. A directory never
    fails: its JSON files are read in the order of their names, each file
    is reported in one line, and a file that fails to load is skipped. A
    path that is neither leaves an empty output directory and the report
    of 0 cards. *)
Theorem load_cards_by_kind_of_path (w : files) (cards_path : pystr) :
  (is_file w cards_path = true ->
   forall e out,
     read_cards w cards_path = inl e ->
     main w cards_path out = ([], Failed (LoadError e))) /\
  (is_file w cards_path = false -> is_dir w cards_path = true ->
   exists tr,
     load_cards w cards_path
     = (tr, Done (concat ((fun q => match read_cards w q with
                                    | inr cs => cs
                                    | inl _ => []
                                    end) <$> sorted (glob_json w cards_path))))
     /\ printed tr
        = (fun q => match read_cards w q with
                    | inr cs =>
                        py "Loaded " ++ str_of_Z (Z.of_nat (length cs))
                          ++ py " cards from " ++ path_name q
                    | inl e => py "Fehler in " ++ path_name q ++ py ": " ++ e
                    end) <$> sorted (glob_json w cards_path)
     /\ sorted (glob_json w cards_path) ≡ₚ glob_json w cards_path
     /\ Sorted path_le (sorted (glob_json w cards_path))) /\
  (is_file w cards_path = false -> is_dir w cards_path = false ->
   forall out,
     main w cards_path out
     = ([Mkdir out; Print (py "Generated 0 cards into: " ++ resolve w out)],
        Done tt)).
Proof.
  split; [|split].
  - intros Hfile e out Hread. unfold main, load_cards.
    by rewrite Hfile, Hread.
  - intros Hfile Hdir. unfold load_cards. rewrite Hfile, Hdir.
    rewrite load_dir_run. eexists. split; [reflexivity|].
    split; [apply printed_prints|].
    split; [apply merge_sort_Permutation|].
    apply (@Sorted_merge_sort _ path_le _ path_le_total).
  - intros Hfile Hdir out. unfold main, load_cards. by rewrite Hfile, Hdir.
Qed.

End generator.

Lemma main_last_card_keeps_the_file_witness :
  let docs := built (fun _ => None) <$> twin_cards in
  let run :=
    main (H := ascii_tables) sample_files (py "card-db") (py "out_cards") in
  run.2 = Done tt /\
  printed run.1
  = printed [Print (py "Fehler in items.json: "
                      ++ py "Expecting value: line 1 column 1 (char 0)");
             Print (py "Loaded 2 cards from spells.json")]
      ++ (py "Generated " ++ str_of_Z (Z.of_nat (length twin_cards))
            ++ py " cards into: " ++ py "/home/out_cards")
      :: ((fun d => py " - " ++ d.1) <$> docs) /\
  (forall l1 d l2,
     docs = l1 ++ d :: l2 -> Forall (fun d' => d'.1 <> d.1) l2 ->
     written run.1 !! (py "out_cards", d.1) = Some d.2) /\
  (size (written run.1) <= length twin_cards)%nat /\
  (size (written run.1) = length twin_cards <-> NoDup (docs.*1)).
Proof.
  intros docs.
  apply (main_last_card_keeps_the_file (H := ascii_tables) sample_files
           (py "card-db") (py "out_cards")
           [Print (py "Fehler in items.json: "
                     ++ py "Expecting value: line 1 column 1 (char 0)");
            Print (py "Loaded 2 cards from spells.json")]
           twin_cards docs).
  - vm_compute. reflexivity.
  - unfold docs, twin_cards. rewrite !fmap_cons.
    constructor; [vm_compute; reflexivity|].
    constructor; [vm_compute; reflexivity | constructor].
Defined.


Lemma load_cards_by_kind_of_path_witness :
  main (H := ascii_tables) sample_files (py "cards.json") (py "out_cards")
  = ([], Failed (LoadError (py "Expecting value: line 1 column 1 (char 0)")))
  /\
  (exists tr,
     load_cards sample_files (py "card-db")
     = (tr, Done (concat ((fun q => match read_cards sample_files q with
                                    | inr cs => cs
                                    | inl _ => []
                                    end)
                            <$> sorted (glob_json sample_files (py "card-db")))))
     /\ printed tr
        = (fun q => match read_cards sample_files q with
                    | inr cs =>
                        py "Loaded " ++ str_of_Z (Z.of_nat (length cs))
                          ++ py " cards from " ++ path_name q
                    | inl e => py "Fehler in " ++ path_name q ++ py ": " ++ e
                    end) <$> sorted (glob_json sample_files (py "card-db"))
     /\ sorted (glob_json sample_files (py "card-db"))
          ≡ₚ glob_json sample_files (py "card-db")
     /\ Sorted path_le (sorted (glob_json sample_files (py "card-db")))) /\
  main (H := ascii_tables) sample_files (py "nowhere") (py "out_cards")
  = ([Mkdir (py "out_cards");
      Print (py "Generated 0 cards into: "
               ++ resolve sample_files (py "out_cards"))],
     Done tt).
Proof.
  destruct (load_cards_by_kind_of_path (H := ascii_tables) sample_files
              (py "cards.json")) as (Hfile & _ & _).
  destruct (load_cards_by_kind_of_path (H := ascii_tables) sample_files
              (py "card-db")) as (_ & Hdir & _).
  destruct (load_cards_by_kind_of_path (H := ascii_tables) sample_files
              (py "nowhere")) as (_ & _ & Hnone).
  split; [|split].
  - apply Hfile; vm_compute; reflexivity.
  - apply Hdir; vm_compute; reflexivity.
  - apply Hnone; vm_compute; reflexivity.
Defined.
